(** * Astralite optimiser: production profiles, progression and portfolio

    A shallow embedding of the core of the Astralite optimiser
    ([astralite_optimizer/progression.py], [production.py], [optimizer.py]
    and the bonus hand-over of [app.py]) together with the properties its
    specification states about it.

    Conventions of the embedding.
    - Python [int] is [Z] (unbounded).
    - Python [float] is [PyFloat.float]: exact rational arithmetic on the
      finite values, with the IEEE special values [+inf], [-inf] and [nan]
      and their arithmetic kept.  Rounding, overflow and the sign of zero
      are not modelled.  Sums are therefore stated as the folds from the
      left that the code performs, in the code's order, and no proof uses
      associativity or commutativity of [+].
    - A [str] is a [string] of bytes: a text is what it is in Python as
      long as it is ASCII.
    - A [dict] is a [gmap]; a [set] is a [gset]; [None] is [option].
    - [ProductionCalculator._compute_profile] mutates [self._profile_cache]
      and the shared [stack] set: both are threaded through explicitly.
    - The LP solver (PuLP/CBC) is an external collaborator: the optimiser is
      written as a computation that either returns at once or asks for one
      solve and continues with the solver's answer. *)

From Stdlib Require Import QArith Qcanon ZArith Lia Sorted Permutation DecimalString.
From stdpp Require Import gmap strings list fin_maps fin_sets numbers.

Set Warnings "-register-all,-clear-no-such-hyp".
Set Default Proof Using "Type".

Open Scope Z_scope.

(** ** Python floats *)

Module PyFloat.

Inductive float : Type :=
  | Fin (q : Qc)
  | PInf
  | NInf
  | NaN.

Definition Qc_leb (a b : Qc) : bool := Qle_bool a b.
Definition Qc_ltb (a b : Qc) : bool := negb (Qle_bool b a).
Definition Qc_eqb (a b : Qc) : bool := Qeq_bool a b.

Definition zero : float := Fin 0%Qc.
Definition of_Z (z : Z) : float := Fin (Qc_of_Z z).
Definition of_Q (q : Q) : float := Fin (Q2Qc q).

(** [x + y] *)
Definition fadd (x y : float) : float :=
  match x, y with
  | NaN, _ | _, NaN => NaN
  | PInf, NInf | NInf, PInf => NaN
  | PInf, _ | _, PInf => PInf
  | NInf, _ | _, NInf => NInf
  | Fin a, Fin b => Fin (a + b)%Qc
  end.

Definition inf_times (positive : bool) (b : Qc) : float :=
  if Qc_eqb b 0%Qc then NaN
  else if Qc_ltb 0%Qc b then (if positive then PInf else NInf)
  else (if positive then NInf else PInf).

(** [x * y] *)
Definition fmul (x y : float) : float :=
  match x, y with
  | NaN, _ | _, NaN => NaN
  | Fin a, Fin b => Fin (a * b)%Qc
  | PInf, Fin b | Fin b, PInf => inf_times true b
  | NInf, Fin b | Fin b, NInf => inf_times false b
  | PInf, PInf | NInf, NInf => PInf
  | PInf, NInf | NInf, PInf => NInf
  end.

(** [x / y].  Python raises [ZeroDivisionError] for a zero divisor; every
    division of the modelled code has a divisor that is the constant
    [60.0], a yield already tested [> 0], or the length of a non-empty
    list, so that case is never reached and is mapped to [NaN] here. *)
Definition fdiv (x y : float) : float :=
  match x, y with
  | NaN, _ | _, NaN => NaN
  | Fin a, Fin b => if Qc_eqb b 0%Qc then NaN else Fin (a / b)%Qc
  | Fin _, (PInf | NInf) => zero
  | PInf, Fin b => if Qc_ltb b 0%Qc then NInf else PInf
  | NInf, Fin b => if Qc_ltb b 0%Qc then PInf else NInf
  | (PInf | NInf), (PInf | NInf) => NaN
  end.

(** [x <= y]; every comparison with [nan] is [False]. *)
Definition fle (x y : float) : bool :=
  match x, y with
  | NaN, _ | _, NaN => false
  | NInf, _ | _, PInf => true
  | Fin a, Fin b => Qc_leb a b
  | _, _ => false
  end.

(** [x < y] *)
Definition flt (x y : float) : bool :=
  match x, y with
  | NaN, _ | _, NaN => false
  | PInf, _ | _, NInf => false
  | Fin a, Fin b => Qc_ltb a b
  | _, _ => true
  end.

(** [x > y] and [x >= y] *)
Definition fgt (x y : float) : bool := flt y x.
Definition fge (x y : float) : bool := fle y x.

(** [sum(xs)]: Python starts from [0] and adds from the left. *)
Definition fsum (xs : list float) : float := fold_left fadd xs zero.

(** Truthiness of a float: [0.0] is falsy, everything else (also [nan])
    is truthy. *)
Definition truthy (x : float) : bool :=
  match x with
  | Fin a => negb (Qc_eqb a 0%Qc)
  | _ => true
  end.

End PyFloat.

Export PyFloat.

Declare Scope float_scope.
Delimit Scope float_scope with float.
Bind Scope float_scope with float.
Infix "+" := fadd : float_scope.
Infix "*" := fmul : float_scope.
Infix "/" := fdiv : float_scope.

(** ** Progression repository ([progression.py]) *)

Module Progression.

Record TotalLevelBonus : Type := mkTotalLevelBonus {
  level : Z;
  weekly_bonus : Z;
}.

(** One row of the [TbHomeAbilityTotalLevelValueInfo] table:
    [entry["level"]] and the optional [entry["gold_weekmax"]]. *)
Record TotalLevelRow : Type := mkTotalLevelRow {
  row_level : Z;
  row_gold_weekmax : option Z;
}.

Definition row_bonus (entry : TotalLevelRow) : TotalLevelBonus :=
  {| level := row_level entry;
     weekly_bonus := default 0 (row_gold_weekmax entry) |}.

(** [list.sort(key=lambda bonus: bonus.level)]: Python's sort is stable,
    and for integer keys the stable ascending order is unique; it is
    computed here by insertion from the right. *)
Fixpoint insert_by_level (b : TotalLevelBonus) (l : list TotalLevelBonus)
  : list TotalLevelBonus :=
  match l with
  | [] => [b]
  | c :: rest =>
      if level b <=? level c then b :: c :: rest
      else c :: insert_by_level b rest
  end.

Definition sort_by_level (l : list TotalLevelBonus) : list TotalLevelBonus :=
  foldr insert_by_level [] l.

Record ProgressionRepository : Type := mkProgressionRepository {
  _total_level_bonuses : list TotalLevelBonus;
}.

(** [ProgressionRepository.__init__], the part that builds
    [self._total_level_bonuses]; [total_level_data.values()] is the list
    of rows in table order. *)
Definition ProgressionRepository_init (total_level_data : list TotalLevelRow)
  : ProgressionRepository :=
  {| _total_level_bonuses := sort_by_level (map row_bonus total_level_data) |}.

(** The [for entry in self._total_level_bonuses] loop with its [break]. *)
Fixpoint bonus_loop (entries : list TotalLevelBonus) (total_level bonus : Z) : Z :=
  match entries with
  | [] => bonus
  | entry :: rest =>
      if level entry >? total_level then bonus
      else bonus_loop rest total_level (weekly_bonus entry)
  end.

Definition weekly_bonus_for_total_level (self : ProgressionRepository)
    (total_level : Z) : Z :=
  bonus_loop (_total_level_bonuses self) total_level 0.

End Progression.

(** ** Localisation ([localization.py]) *)

Module Localization.

(** [str(n)] / [f"{n}"] for an [int]. *)
Definition str_of_int (n : Z) : string := NilZero.string_of_int (Z.to_int n).

(** The flattened dictionary [self._flat]; the eager flattening of the
    nested JSON blob is not modelled. *)
Record t : Type := mk {
  _flat : gmap string string;
}.

Definition get (self : t) (key : string) : option string := _flat self !! key.

Definition item_name (self : t) (item_id : Z) : string :=
  default ("Item " +:+ str_of_int item_id)
          (_flat self !! ("ItemName_" +:+ str_of_int item_id)).

(** [str.lower()], on ASCII letters. *)
Definition lower_ascii (c : Ascii.ascii) : Ascii.ascii :=
  let n := Ascii.nat_of_ascii c in
  if ((65 <=? n) && (n <=? 90))%nat then Ascii.ascii_of_nat (n + 32) else c.

Fixpoint lower (s : string) : string :=
  match s with
  | EmptyString => EmptyString
  | String c rest => String (lower_ascii c) (lower rest)
  end.

End Localization.

Abbreviation Localization := Localization.t.

(** ** Production data model ([production.py]) *)

Definition PLANT_FACILITY : string := "plant_plot".
Definition FISH_FACILITY : string := "fish_pond".
Definition CRAFT_FACILITY : string := "crafting".
Definition WEEK_MINUTES : Z := 7 * 24 * 60.

(** [ABILITY_CATEGORY.get(ability_id, "other")] *)
Definition ABILITY_CATEGORY (ability_id : Z) : option string :=
  if ability_id =? 22 then Some "furniture"
  else if ability_id =? 34 then Some "plant"
  else if ability_id =? 45 then Some "meteor"
  else if ability_id =? 47 then Some "fish"
  else if ability_id =? 48 then Some "animal"
  else None.

Module SaleItem.
Record t : Type := mk {
  item_id : Z;
  ability_id : Z;
  ability_level : Z;
  sale_value : float;
  ratio : float;
  name : string;
  category : string;
}.
End SaleItem.
Abbreviation SaleItem := SaleItem.t.

Module PlantGrowth.
Record t : Type := mk {
  seed_id : Z;
  harvest_item_id : Z;
  growth_time_sec : Z;
  accelerated_time_sec : Z;
  average_yield : float;
  farmland_ids : list Z;
}.

Definition cycle_minutes (self : t) : float :=
  (of_Z (accelerated_time_sec self) / of_Z 60)%float.

Definition minutes_per_item (self : t) : float :=
  if fle (average_yield self) zero then PInf
  else (cycle_minutes self / average_yield self)%float.
End PlantGrowth.
Abbreviation PlantGrowth := PlantGrowth.t.

Module FishGrowth.
Record t : Type := mk {
  fry_id : Z;
  fish_id : Z;
  growth_time_sec : Z;
  accelerated_time_sec : Z;
  name : string;
  yield_per_cycle : float;
}.

(** The dataclass default [yield_per_cycle: float = 1.0]. *)
Definition default_yield_per_cycle : float := of_Z 1.

Definition cycle_minutes (self : t) : float :=
  (of_Z (accelerated_time_sec self) / of_Z 60)%float.

Definition minutes_per_item (self : t) : float :=
  if fle (yield_per_cycle self) zero then PInf
  else (cycle_minutes self / yield_per_cycle self)%float.
End FishGrowth.
Abbreviation FishGrowth := FishGrowth.t.

Module MaterialRequirement.
Record t : Type := mk {
  item_id : Z;
  quantity : float;
}.
End MaterialRequirement.
Abbreviation MaterialRequirement := MaterialRequirement.t.

Module ComponentRequirement.
Record t (P : Type) : Type := mk {
  item_id : Z;
  name : string;
  quantity : float;
  profile : option P;
  exchange_cost : option Z;
}.
Arguments mk {P}.
Arguments item_id {P}.
Arguments name {P}.
Arguments quantity {P}.
Arguments profile {P}.
Arguments exchange_cost {P}.
End ComponentRequirement.

Module ProductionProfile.
Inductive t : Type := mk {
  item_id : Z;
  name : string;
  sale_value : float;
  ability_id : Z;
  ability_level : Z;
  category : string;
  facility_minutes : gmap string float;
  components : list (ComponentRequirement.t t);
  notes : list string;
}.
End ProductionProfile.
Abbreviation ProductionProfile := ProductionProfile.t.
Abbreviation ComponentRequirement := (ComponentRequirement.t ProductionProfile.t).

(** ** Free-text yield parser *)

(** [re.findall(r"\d+(?:\.\d+)?", text)] followed by [float(value)] on
    every match, for ASCII text: a left-to-right scan that takes a maximal
    run of digits and, when a dot followed by a digit comes next, the dot
    and the maximal run of digits after it. *)
Inductive scan_state : Type :=
  | Idle
  | IntPart (n : Z)
  | FracPart (n f : Z) (k : nat).

Definition digit_value (c : Ascii.ascii) : option Z :=
  let n := Ascii.nat_of_ascii c in
  if ((48 <=? n) && (n <=? 57))%nat then Some (Z.of_nat n - 48) else None.

Definition token_float (st : scan_state) : list float :=
  match st with
  | Idle => []
  | IntPart n => [of_Z n]
  | FracPart n f k => [Fin (Qc_of_Z n + Qc_of_Z f / Qc_of_Z (10 ^ Z.of_nat k))%Qc]
  end.

Fixpoint scan_numbers (st : scan_state) (text : string) : list float :=
  match text with
  | EmptyString => token_float st
  | String c rest =>
      match digit_value c with
      | Some d =>
          match st with
          | Idle => scan_numbers (IntPart d) rest
          | IntPart n => scan_numbers (IntPart (10 * n + d)) rest
          | FracPart n f k => scan_numbers (FracPart n (10 * f + d) (S k)) rest
          end
      | None =>
          match st with
          | Idle => scan_numbers Idle rest
          | IntPart n =>
              if (Ascii.nat_of_ascii c =? 46)%nat then
                match rest with
                | String c' rest' =>
                    match digit_value c' with
                    | Some d' => scan_numbers (FracPart n d' 1) rest'
                    | None => of_Z n :: scan_numbers Idle rest
                    end
                | EmptyString => [of_Z n]
                end
              else of_Z n :: scan_numbers Idle rest
          | FracPart _ _ _ => token_float st ++ scan_numbers Idle rest
          end
      end
  end.

Definition _parse_numbers (text : string) : list float := scan_numbers Idle text.

Definition _parse_average (text : string) (fallback : float) : float :=
  let numbers := _parse_numbers text in
  match numbers with
  | [] => fallback
  | _ => (fsum numbers / of_Z (Z.of_nat (length numbers)))%float
  end.

(** ** Raw datasets

    The rows of the JSON tables the calculator reads, in table order
    ([raw.values()]).  A field read with [entry.get(key, default)] is an
    [option]; a field read with [entry[key]] is mandatory. *)

Module Raw.

Record Reward : Type := mkReward {
  reward_item_id : option Z;
  reward_num : option float;
}.

Record SaleInfo : Type := mkSaleInfo {
  sale_item_id : Z;
  sale_ability_id : Z;
  sale_ability_level : option Z;
  sale_ratio : option float;
  sale_rewards : list Reward;
}.

Record PlantNutrient : Type := mkPlantNutrient {
  pn_consume_count : option Z;
  pn_speedup_time : option Z;
}.

Record PlantProcess : Type := mkPlantProcess {
  pp_harvest_item : option Z;
  pp_growth_stages : list (option Z);
  pp_estimate_harvests : option string;
  pp_seed : Z;
  pp_compatible_farmland : list Z;
}.

Record FishNutrient : Type := mkFishNutrient {
  fn_consume_count : option Z;
  fn_accelerate_time : option Z;
}.

Record FishConfig : Type := mkFishConfig {
  fc_fish_id : option Z;
  fc_fry_id : option Z;
  fc_growth_time : option Z;
}.

Record Material : Type := mkMaterial {
  mat_item_id : Z;
  mat_num : option float;
}.

Record FurnitureMake : Type := mkFurnitureMake {
  fm_furniture_id : Z;
  fm_material_consume : list Material;
  fm_time : option float;
}.

Record MaterialExchange : Type := mkMaterialExchange {
  me_material_item_id : Z;
  me_exchange_ratio : option Z;
}.

(** What [RemoteDataLoader.fetch_json] returns for the tables the
    calculator asks for. *)
Record Datasets : Type := mkDatasets {
  TbHomeProductsSaleInfo : list SaleInfo;
  TbPlantingGrowthProcess : list PlantProcess;
  TbPlantingNutrient : list PlantNutrient;
  TbHomeFishGrowthConfig : list FishConfig;
  TbHomeFishNutrientConfig : list FishNutrient;
  TbFurnitureTableMakeInfo : list FurnitureMake;
  TbFurnitureMakeMaterialExchangeInfo : list MaterialExchange;
}.

End Raw.

(** ** The production calculator *)

Module Calculator.

(** The attributes [ProductionCalculator.__init__] sets once and that are
    only read afterwards.  The one attribute that is mutated later,
    [self._profile_cache], is threaded separately (see [State]). *)
Record t : Type := mk {
  _localization : Localization;
  sale_items : gmap Z SaleItem;
  plant_growth : gmap Z PlantGrowth;
  fish_growth : gmap Z FishGrowth;
  furniture_recipes : gmap Z (list MaterialRequirement);
  _furniture_time : gmap Z float;
  exchange_costs : gmap Z Z;
}.

(** *** Loaders *)

Definition reward_value (reward : Raw.Reward) : list float :=
  if default 0 (Raw.reward_item_id reward) =? 14
  then [default zero (Raw.reward_num reward)] else [].

Definition sale_item_of (loc : Localization) (entry : Raw.SaleInfo) : SaleItem :=
  let item_id := Raw.sale_item_id entry in
  let ability_id := Raw.sale_ability_id entry in
  {| SaleItem.item_id := item_id;
     SaleItem.ability_id := ability_id;
     SaleItem.ability_level := default 0 (Raw.sale_ability_level entry);
     SaleItem.sale_value := fsum (concat (map reward_value (Raw.sale_rewards entry)));
     SaleItem.ratio := default zero (Raw.sale_ratio entry);
     SaleItem.name := Localization.item_name loc item_id;
     SaleItem.category := default "other" (ABILITY_CATEGORY ability_id) |}.

Definition _load_sale_items (loc : Localization) (raw : list Raw.SaleInfo)
  : gmap Z SaleItem :=
  fold_left (fun acc entry => <[Raw.sale_item_id entry := sale_item_of loc entry]> acc)
            raw ∅.

(** The search for the free nutrient: the first row whose
    [consume_count] is [0] gives the default speed-up, [0] when none. *)
Fixpoint plant_default_speedup (nutrient_data : list Raw.PlantNutrient) : Z :=
  match nutrient_data with
  | [] => 0
  | entry :: rest =>
      if default 0 (Raw.pn_consume_count entry) =? 0
      then default 0 (Raw.pn_speedup_time entry)
      else plant_default_speedup rest
  end.

Definition plant_growth_time (entry : Raw.PlantProcess) : Z :=
  fold_left Z.add (map (default 0) (Raw.pp_growth_stages entry)) 0.

Definition plant_growth_of (default_speedup : Z) (entry : Raw.PlantProcess)
    (harvest_item : Z) : PlantGrowth :=
  let growth_time_sec := plant_growth_time entry in
  {| PlantGrowth.seed_id := Raw.pp_seed entry;
     PlantGrowth.harvest_item_id := harvest_item;
     PlantGrowth.growth_time_sec := growth_time_sec;
     PlantGrowth.accelerated_time_sec := Z.max 0 (growth_time_sec - default_speedup);
     PlantGrowth.average_yield :=
       _parse_average (default "1" (Raw.pp_estimate_harvests entry)) (of_Z 1);
     PlantGrowth.farmland_ids := Raw.pp_compatible_farmland entry |}.

Definition _load_plant_growth (growth_data : list Raw.PlantProcess)
    (nutrient_data : list Raw.PlantNutrient) : gmap Z PlantGrowth :=
  let default_speedup := plant_default_speedup nutrient_data in
  fold_left
    (fun acc entry =>
       let harvest_item := default 0 (Raw.pp_harvest_item entry) in
       if harvest_item =? 0 then acc
       else <[harvest_item := plant_growth_of default_speedup entry harvest_item]> acc)
    growth_data ∅.

Fixpoint fish_default_speedup (nutrient_data : list Raw.FishNutrient) : Z :=
  match nutrient_data with
  | [] => 0
  | entry :: rest =>
      if default 0 (Raw.fn_consume_count entry) =? 0
      then default 0 (Raw.fn_accelerate_time entry)
      else fish_default_speedup rest
  end.

Definition fish_growth_of (default_speedup : Z) (entry : Raw.FishConfig)
    (fish_id : Z) (name : string) : FishGrowth :=
  let growth_time := default 0 (Raw.fc_growth_time entry) in
  {| FishGrowth.fry_id := default 0 (Raw.fc_fry_id entry);
     FishGrowth.fish_id := fish_id;
     FishGrowth.growth_time_sec := growth_time;
     FishGrowth.accelerated_time_sec := Z.max 0 (growth_time - default_speedup);
     FishGrowth.name := name;
     FishGrowth.yield_per_cycle := FishGrowth.default_yield_per_cycle |}.

(** First loop of [_load_fish_growth]: growth rows keyed by the
    lower-cased localised fish name; a row without a non-empty name is
    skipped. *)
Definition fish_growth_by_name (loc : Localization)
    (growth_data : list Raw.FishConfig) (default_speedup : Z)
  : gmap string FishGrowth :=
  fold_left
    (fun acc entry =>
       let fish_id := default 0 (Raw.fc_fish_id entry) in
       match Localization.get loc ("FISH_" +:+ Localization.str_of_int fish_id) with
       | None => acc
       | Some name =>
           if String.eqb name "" then acc
           else <[Localization.lower name :=
                    fish_growth_of default_speedup entry fish_id name]> acc
       end)
    growth_data ∅.

(** Second loop: every fish sale item whose lower-cased name has growth
    data.  The sale table is keyed by the item's own id, so the order in
    which its values are visited does not change the result. *)
Definition _load_fish_growth (loc : Localization) (sale_items : gmap Z SaleItem)
    (growth_data : list Raw.FishConfig) (nutrient_data : list Raw.FishNutrient)
  : gmap Z FishGrowth :=
  let by_name := fish_growth_by_name loc growth_data (fish_default_speedup nutrient_data) in
  map_fold
    (fun _ sale acc =>
       if negb (String.eqb (SaleItem.category sale) "fish") then acc
       else match by_name !! Localization.lower (SaleItem.name sale) with
            | Some growth => <[SaleItem.item_id sale := growth]> acc
            | None => acc
            end)
    ∅ sale_items.

Definition material_of (material : Raw.Material) : MaterialRequirement :=
  {| MaterialRequirement.item_id := Raw.mat_item_id material;
     MaterialRequirement.quantity := default zero (Raw.mat_num material) |}.

Definition _load_furniture_recipes (raw : list Raw.FurnitureMake)
  : gmap Z (list MaterialRequirement) :=
  fold_left
    (fun acc entry =>
       <[Raw.fm_furniture_id entry := map material_of (Raw.fm_material_consume entry)]> acc)
    raw ∅.

(** The helper mapping [self._furniture_time]. *)
Definition _load_furniture_time (raw : list Raw.FurnitureMake) : gmap Z float :=
  fold_left
    (fun acc entry => <[Raw.fm_furniture_id entry := default zero (Raw.fm_time entry)]> acc)
    raw ∅.

Definition _load_exchange_costs (raw : list Raw.MaterialExchange) : gmap Z Z :=
  fold_left
    (fun acc entry =>
       <[Raw.me_material_item_id entry := default 0 (Raw.me_exchange_ratio entry)]> acc)
    raw ∅.

(** [ProductionCalculator.__init__]; the cache starts empty. *)
Definition init (loader : Raw.Datasets) (localization : Localization) : t :=
  let sale_items := _load_sale_items localization (Raw.TbHomeProductsSaleInfo loader) in
  {| _localization := localization;
     sale_items := sale_items;
     plant_growth :=
       _load_plant_growth (Raw.TbPlantingGrowthProcess loader) (Raw.TbPlantingNutrient loader);
     fish_growth :=
       _load_fish_growth localization sale_items
         (Raw.TbHomeFishGrowthConfig loader) (Raw.TbHomeFishNutrientConfig loader);
     furniture_recipes := _load_furniture_recipes (Raw.TbFurnitureTableMakeInfo loader);
     _furniture_time := _load_furniture_time (Raw.TbFurnitureTableMakeInfo loader);
     exchange_costs := _load_exchange_costs (Raw.TbFurnitureMakeMaterialExchangeInfo loader) |}.

End Calculator.

(** ** Profile resolution *)

Module Resolve.

Import Calculator.

(** The mutable part of a resolution: [self._profile_cache] and the
    [stack] set that [_compute_profile] and [_build_furniture_profile]
    share by reference. *)
Record State : Type := mkState {
  _profile_cache : gmap Z ProductionProfile;
  stack : gset Z;
}.

(** A step of the resolution: [None] only when the recursion budget of the
    model is used up (see [_compute_profile]); Python's [None] result is
    the inner [option]. *)
Definition M (A : Type) : Type := State → option (A * State).

Definition _build_basic_profile (sale : SaleItem) : ProductionProfile :=
  {| ProductionProfile.item_id := SaleItem.item_id sale;
     ProductionProfile.name := SaleItem.name sale;
     ProductionProfile.sale_value := SaleItem.sale_value sale;
     ProductionProfile.ability_id := SaleItem.ability_id sale;
     ProductionProfile.ability_level := SaleItem.ability_level sale;
     ProductionProfile.category := SaleItem.category sale;
     ProductionProfile.facility_minutes := ∅;
     ProductionProfile.components := [];
     ProductionProfile.notes :=
       ["Production data for " +:+ SaleItem.category sale +:+ " items is not yet modelled."] |}.

Definition _build_plant_profile (self : Calculator.t) (sale : SaleItem)
  : ProductionProfile :=
  let growth := plant_growth self !! SaleItem.item_id sale in
  {| ProductionProfile.item_id := SaleItem.item_id sale;
     ProductionProfile.name := SaleItem.name sale;
     ProductionProfile.sale_value := SaleItem.sale_value sale;
     ProductionProfile.ability_id := SaleItem.ability_id sale;
     ProductionProfile.ability_level := SaleItem.ability_level sale;
     ProductionProfile.category := SaleItem.category sale;
     ProductionProfile.facility_minutes :=
       match growth with
       | Some g => {[ PLANT_FACILITY := PlantGrowth.minutes_per_item g ]}
       | None => ∅
       end;
     ProductionProfile.components := [];
     ProductionProfile.notes :=
       match growth with
       | Some _ => []
       | None => ["No planting data available; timing estimates missing."]
       end |}.

Definition _build_fish_profile (self : Calculator.t) (sale : SaleItem)
  : ProductionProfile :=
  let growth := fish_growth self !! SaleItem.item_id sale in
  {| ProductionProfile.item_id := SaleItem.item_id sale;
     ProductionProfile.name := SaleItem.name sale;
     ProductionProfile.sale_value := SaleItem.sale_value sale;
     ProductionProfile.ability_id := SaleItem.ability_id sale;
     ProductionProfile.ability_level := SaleItem.ability_level sale;
     ProductionProfile.category := SaleItem.category sale;
     ProductionProfile.facility_minutes :=
       match growth with
       | Some g => {[ FISH_FACILITY := FishGrowth.minutes_per_item g ]}
       | None => ∅
       end;
     ProductionProfile.components := [];
     ProductionProfile.notes :=
       match growth with
       | Some _ => []
       | None => ["No fish growth data available; timing estimates missing."]
       end |}.

(** The inner loop of [_build_furniture_profile]:
    [facility_minutes[facility] =
       facility_minutes.get(facility, 0.0) + minutes * requirement.quantity]
    for every entry of the component's own [facility_minutes].  The keys of
    a dict are distinct, so the visiting order does not matter. *)
Definition add_component_minutes (component_minutes : gmap string float)
    (quantity : float) (facility_minutes : gmap string float) : gmap string float :=
  map_fold
    (fun facility minutes acc =>
       <[facility := (default zero (acc !! facility) + minutes * quantity)%float]> acc)
    facility_minutes component_minutes.

(** The body of the [for requirement in materials] loop, once the
    component's profile is known: the [ComponentRequirement] appended to
    [components], and the update of [facility_minutes] under
    [if component_profile]. *)
Definition component_of (self : Calculator.t) (requirement : MaterialRequirement)
    (component_profile : option ProductionProfile) : ComponentRequirement :=
  {| ComponentRequirement.item_id := MaterialRequirement.item_id requirement;
     ComponentRequirement.name :=
       Localization.item_name (_localization self) (MaterialRequirement.item_id requirement);
     ComponentRequirement.quantity := MaterialRequirement.quantity requirement;
     ComponentRequirement.profile := component_profile;
     ComponentRequirement.exchange_cost :=
       exchange_costs self !! MaterialRequirement.item_id requirement |}.

Definition step_minutes (requirement : MaterialRequirement)
    (component_profile : option ProductionProfile)
    (facility_minutes : gmap string float) : gmap string float :=
  match component_profile with
  | Some p =>
      add_component_minutes (ProductionProfile.facility_minutes p)
        (MaterialRequirement.quantity requirement) facility_minutes
  | None => facility_minutes
  end.

(** The [for requirement in materials] loop.  [rec] is the recursive call
    [self._compute_profile(_, stack)]. *)
Fixpoint furniture_loop (rec : Z → M (option ProductionProfile)) (self : Calculator.t)
    (materials : list MaterialRequirement)
    (facility_minutes : gmap string float) (components : list ComponentRequirement)
  : M (gmap string float * list ComponentRequirement) :=
  fun st =>
    match materials with
    | [] => Some ((facility_minutes, components), st)
    | requirement :: rest =>
        match rec (MaterialRequirement.item_id requirement) st with
        | None => None
        | Some (component_profile, st') =>
            furniture_loop rec self rest
              (step_minutes requirement component_profile facility_minutes)
              (components ++ [component_of self requirement component_profile]) st'
        end
    end.

(** [self.furniture_recipes.get(sale.item_id, [])] and the initial
    [{CRAFT_FACILITY: self._furniture_time.get(sale.item_id, 0.0)}]. *)
Definition materials_of (self : Calculator.t) (sale : SaleItem) : list MaterialRequirement :=
  default [] (furniture_recipes self !! SaleItem.item_id sale).

Definition craft_minutes (self : Calculator.t) (item_id : Z) : float :=
  default zero (_furniture_time self !! item_id).

Definition furniture_notes (materials : list MaterialRequirement) : list string :=
  match materials with
  | [] => ["Furniture recipe not found in extracted data."]
  | _ => []
  end.

Definition furniture_record (sale : SaleItem) (facility_minutes : gmap string float)
    (components : list ComponentRequirement) (notes : list string) : ProductionProfile :=
  {| ProductionProfile.item_id := SaleItem.item_id sale;
     ProductionProfile.name := SaleItem.name sale;
     ProductionProfile.sale_value := SaleItem.sale_value sale;
     ProductionProfile.ability_id := SaleItem.ability_id sale;
     ProductionProfile.ability_level := SaleItem.ability_level sale;
     ProductionProfile.category := SaleItem.category sale;
     ProductionProfile.facility_minutes := facility_minutes;
     ProductionProfile.components := components;
     ProductionProfile.notes := notes |}.

Definition _build_furniture_profile (rec : Z → M (option ProductionProfile))
    (self : Calculator.t) (sale : SaleItem) : M ProductionProfile :=
  fun st =>
    let materials := materials_of self sale in
    let facility_minutes : gmap string float :=
      {[ CRAFT_FACILITY := craft_minutes self (SaleItem.item_id sale) ]} in
    let notes := furniture_notes materials in
    match furniture_loop rec self materials facility_minutes [] st with
    | None => None
    | Some ((facility_minutes', components), st') =>
        Some (furniture_record sale facility_minutes' components notes, st')
    end.

(** The dispatch on [sale.category]. *)
Definition build_profile (rec : Z → M (option ProductionProfile))
    (self : Calculator.t) (sale : SaleItem) : M ProductionProfile :=
  fun st =>
    if String.eqb (SaleItem.category sale) "plant" then
      Some (_build_plant_profile self sale, st)
    else if String.eqb (SaleItem.category sale) "fish" then
      Some (_build_fish_profile self sale, st)
    else if String.eqb (SaleItem.category sale) "furniture" then
      _build_furniture_profile rec self sale st
    else Some (_build_basic_profile sale, st).

(** One activation of [_compute_profile].  A sale item and a profile are
    dataclass instances, hence always truthy: [if not sale] tests for
    [None] only, and [if profile] always stores the profile. *)
Definition _compute_profile_body (rec : Z → M (option ProductionProfile))
    (self : Calculator.t) (item_id : Z) : M (option ProductionProfile) :=
  fun st =>
    match _profile_cache st !! item_id with
    | Some cached => Some (Some cached, st)
    | None =>
        if decide (item_id ∈ stack st) then Some (None, st)
        else
          match sale_items self !! item_id with
          | None => Some (None, st)
          | Some sale =>
              let st1 := {| _profile_cache := _profile_cache st;
                            stack := {[ item_id ]} ∪ stack st |} in
              match build_profile rec self sale st1 with
              | None => None
              | Some (profile, st2) =>
                  Some (Some profile,
                        {| _profile_cache := <[item_id := profile]> (_profile_cache st2);
                           stack := stack st2 ∖ {[ item_id ]} |})
              end
          end
    end.

(** [_compute_profile]: Python recurses on the call stack; here the depth
    of the recursion is bounded by [fuel], and running out of it is the
    outer [None].  (The interpreter's own recursion limit is not
    modelled.) *)
Fixpoint _compute_profile (fuel : nat) (self : Calculator.t) (item_id : Z)
  : M (option ProductionProfile) :=
  match fuel with
  | O => fun _ => None
  | S fuel' => _compute_profile_body (_compute_profile fuel' self) self item_id
  end.

(** Every activation below the first adds a sale item to [stack] that was
    not in it, so the depth never exceeds the number of sale items plus
    one (see [compute_profile_total]). *)
Definition recursion_budget (self : Calculator.t) : nat := S (size (sale_items self)).

(** [compute_profile(item_id)]: a fresh [stack=set()]; the result and the
    cache as the call leaves it. *)
Definition compute_profile (self : Calculator.t) (cache : gmap Z ProductionProfile)
    (item_id : Z) : option (option ProductionProfile * gmap Z ProductionProfile) :=
  match _compute_profile (recursion_budget self) self item_id
          {| _profile_cache := cache; stack := ∅ |} with
  | None => None
  | Some (profile, st) => Some (profile, _profile_cache st)
  end.

(** The caches a calculator can hold: empty after [__init__], then
    changed by [compute_profile] calls only. *)
Inductive reachable (self : Calculator.t) : gmap Z ProductionProfile → Prop :=
  | reachable_init : reachable self ∅
  | reachable_call cache item_id profile cache' :
      reachable self cache →
      compute_profile self cache item_id = Some (profile, cache') →
      reachable self cache'.

(** [supported_profiles]: [compute_profile] for every key of
    [self.sale_items] ([item_ids], in dict order), keeping the results that
    are not [None]. *)
Fixpoint supported_profiles_loop (self : Calculator.t) (item_ids : list Z)
    (cache : gmap Z ProductionProfile) (profiles : list ProductionProfile)
  : option (list ProductionProfile * gmap Z ProductionProfile) :=
  match item_ids with
  | [] => Some (profiles, cache)
  | item_id :: rest =>
      match compute_profile self cache item_id with
      | None => None
      | Some (Some profile, cache') =>
          supported_profiles_loop self rest cache' (profiles ++ [profile])
      | Some (None, cache') => supported_profiles_loop self rest cache' profiles
      end
  end.

End Resolve.

(** ** Portfolio optimiser ([optimizer.py]) *)

Module OptimizedItem.
Record t : Type := mk {
  item_id : Z;
  name : string;
  units : float;
  astralite : float;
  multiplier : float;
  facility_minutes : gmap string float;
  profile : ProductionProfile;
}.
End OptimizedItem.
Abbreviation OptimizedItem := OptimizedItem.t.

Module OptimizationResult.
Record t : Type := mk {
  items : list OptimizedItem;
  total_astralite : float;
  facility_usage : gmap string float;
  status : string;
}.
End OptimizationResult.
Abbreviation OptimizationResult := OptimizationResult.t.

(** The linear programme handed to PuLP.  An affine expression
    [lpSum(c_i * x_i)] is the list of its terms; a variable [x_<item_id>]
    is named by its item id and has [lowBound=0]. *)
Module Lp.

Record Term : Type := mkTerm {
  coefficient : float;
  variable : Z;
}.

(** [expr <= bound] *)
Record Constraint : Type := mkConstraint {
  expr : list Term;
  bound : float;
}.

(** [LpProblem("AstraliteOptimisation", LpMaximize)] *)
Record Problem : Type := mkProblem {
  variables : gset Z;
  objective : list Term;
  constraints : list Constraint;
}.

(** What the solver leaves behind: the code [problem.solve] returns and
    [variables[item_id].value()] for every variable ([None] when the
    solver assigned nothing). *)
Record Solution : Type := mkSolution {
  status_code : Z;
  value : Z → option float;
}.

(** PuLP's [LpStatus] table, read with
    [LpStatus.get(status_code, str(status_code))]. *)
Definition LpStatus (status_code : Z) : string :=
  if status_code =? 0 then "Not Solved"
  else if status_code =? 1 then "Optimal"
  else if status_code =? -1 then "Infeasible"
  else if status_code =? -2 then "Unbounded"
  else if status_code =? -3 then "Undefined"
  else Localization.str_of_int status_code.

End Lp.

Module Optimizer.

(** A run of [optimise_portfolio]: it either returns without touching the
    solver, or builds one problem, has it solved, and finishes from the
    solver's answer. *)
Inductive Run : Type :=
  | Return (result : OptimizationResult)
  | Solve (problem : Lp.Problem) (continue : Lp.Solution → OptimizationResult).

Definition run (solver : Lp.Problem → Lp.Solution) (r : Run) : OptimizationResult :=
  match r with
  | Return result => result
  | Solve problem continue => continue (solver problem)
  end.

Definition solver_calls (r : Run) : list Lp.Problem :=
  match r with
  | Return _ => []
  | Solve problem _ => [problem]
  end.

Definition bonus_multiplier : float := of_Q (6 # 5).
Definition plain_multiplier : float := of_Z 1.
Definition tolerance : float := of_Q (1 # 1000000).

(** [item_multiplier] and [item_value], the closures over [bonus_set]. *)
Definition item_multiplier (bonus_set : gset Z) (profile : ProductionProfile) : float :=
  if decide (ProductionProfile.item_id profile ∈ bonus_set)
  then bonus_multiplier else plain_multiplier.

Definition item_value (bonus_set : gset Z) (profile : ProductionProfile) : float :=
  (ProductionProfile.sale_value profile * item_multiplier bonus_set profile)%float.

Definition value_terms (bonus_set : gset Z) (ordered_profiles : list ProductionProfile)
  : list Lp.Term :=
  map (fun profile =>
         {| Lp.coefficient := item_value bonus_set profile;
            Lp.variable := ProductionProfile.item_id profile |})
      ordered_profiles.

Definition facility_terms (facility : string) (ordered_profiles : list ProductionProfile)
  : list Lp.Term :=
  map (fun profile =>
         {| Lp.coefficient :=
              default zero (ProductionProfile.facility_minutes profile !! facility);
            Lp.variable := ProductionProfile.item_id profile |})
      ordered_profiles.

(** The capacity constraints: one per facility whose capacity is neither
    [None] nor [<= 0]. *)
Definition capacity_constraints (capacities : gmap string (option float))
    (ordered_profiles : list ProductionProfile) : list Lp.Constraint :=
  omap (fun '(facility, capacity) =>
          match capacity with
          | None => None
          | Some c =>
              if fle c zero then None
              else Some {| Lp.expr := facility_terms facility ordered_profiles;
                           Lp.bound := c |}
          end)
       (map_to_list capacities).

(** The dict comprehension
    [{facility: minutes * value for ... in profile.facility_minutes.items()
      if minutes > 0}]. *)
Definition item_usage (profile : ProductionProfile) (value : float) : gmap string float :=
  (fun minutes => (minutes * value)%float)
    <$> filter (fun kv => fgt kv.2 zero = true) (ProductionProfile.facility_minutes profile).

(** [facility_usage[facility] = facility_usage.get(facility, 0.0) + amount]
    for every entry of [usage]. *)
Definition add_usage (usage facility_usage : gmap string float) : gmap string float :=
  map_fold
    (fun facility amount acc =>
       <[facility := (default zero (acc !! facility) + amount)%float]> acc)
    facility_usage usage.

(** [items.sort(key=lambda item: item.astralite, reverse=True)]: stable,
    greatest first.  (With a [nan] key Python's order is unspecified; the
    result is a rearrangement of the items in every case.) *)
Fixpoint insert_by_astralite (x : OptimizedItem) (l : list OptimizedItem)
  : list OptimizedItem :=
  match l with
  | [] => [x]
  | y :: rest =>
      if flt (OptimizedItem.astralite x) (OptimizedItem.astralite y)
      then y :: insert_by_astralite x rest
      else x :: y :: rest
  end.

Definition sort_by_astralite (l : list OptimizedItem) : list OptimizedItem :=
  foldr insert_by_astralite [] l.

(** The [OptimizedItem(...)] built for a profile whose solved quantity is
    [value]. *)
Definition optimized_item (bonus_set : gset Z) (profile : ProductionProfile)
    (value : float) : OptimizedItem :=
  {| OptimizedItem.item_id := ProductionProfile.item_id profile;
     OptimizedItem.name := ProductionProfile.name profile;
     OptimizedItem.units := value;
     OptimizedItem.astralite := (item_value bonus_set profile * value)%float;
     OptimizedItem.multiplier := item_multiplier bonus_set profile;
     OptimizedItem.facility_minutes := item_usage profile value;
     OptimizedItem.profile := profile |}.

(** [variables[profile.item_id].value() or 0.0]: the right operand is
    taken when the value is [None] or falsy. *)
Definition solved_value (solution : Lp.Solution) (profile : ProductionProfile) : float :=
  match Lp.value solution (ProductionProfile.item_id profile) with
  | Some v => if truthy v then v else zero
  | None => zero
  end.

(** The [for profile in ordered_profiles] loop of the optimal branch. *)
Fixpoint collect (bonus_set : gset Z) (solution : Lp.Solution)
    (ordered_profiles : list ProductionProfile)
    (items : list OptimizedItem) (facility_usage : gmap string float)
    (total_astralite : float)
  : list OptimizedItem * gmap string float * float :=
  match ordered_profiles with
  | [] => (items, facility_usage, total_astralite)
  | profile :: rest =>
      let value := solved_value solution profile in
      if fle value tolerance then
        collect bonus_set solution rest items facility_usage total_astralite
      else
        let item := optimized_item bonus_set profile value in
        collect bonus_set solution rest (items ++ [item])
          (add_usage (OptimizedItem.facility_minutes item) facility_usage)
          (total_astralite + OptimizedItem.astralite item)%float
  end.

(** What happens after [problem.solve]. *)
Definition finish (bonus_set : gset Z) (capacities : gmap string (option float))
    (ordered_profiles : list ProductionProfile) (solution : Lp.Solution)
  : OptimizationResult :=
  let status := Lp.LpStatus (Lp.status_code solution) in
  let facility_usage : gmap string float := (fun _ => zero) <$> capacities in
  if Lp.status_code solution =? 1 then
    let '(items, facility_usage', total_astralite) :=
      collect bonus_set solution ordered_profiles [] facility_usage zero in
    {| OptimizationResult.items := sort_by_astralite items;
       OptimizationResult.total_astralite := total_astralite;
       OptimizationResult.facility_usage := facility_usage';
       OptimizationResult.status := status |}
  else
    {| OptimizationResult.items := [];
       OptimizationResult.total_astralite := zero;
       OptimizationResult.facility_usage := ∅;
       OptimizationResult.status := status |}.

Definition optimise_portfolio (profiles : list ProductionProfile) (weekly_limit : float)
    (capacities : gmap string (option float)) (bonus_item_ids : option (list Z)) : Run :=
  if fle weekly_limit zero || bool_decide (profiles = []) then
    Return {| OptimizationResult.items := [];
              OptimizationResult.total_astralite := zero;
              OptimizationResult.facility_usage := ∅;
              OptimizationResult.status := "No capacity" |}
  else
    let bonus_set : gset Z := list_to_set (default [] bonus_item_ids) in
    let variables : gset Z :=
      list_to_set
        (map ProductionProfile.item_id
           (filter (fun profile => fgt (ProductionProfile.sale_value profile) zero = true)
                   profiles)) in
    if decide (variables = ∅) then
      Return {| OptimizationResult.items := [];
                OptimizationResult.total_astralite := zero;
                OptimizationResult.facility_usage := ∅;
                OptimizationResult.status := "No variables" |}
    else
      let ordered_profiles :=
        filter (fun profile => ProductionProfile.item_id profile ∈ variables) profiles in
      let problem :=
        {| Lp.variables := variables;
           Lp.objective := value_terms bonus_set ordered_profiles;
           Lp.constraints :=
             capacity_constraints capacities ordered_profiles
             ++ [ {| Lp.expr := value_terms bonus_set ordered_profiles;
                     Lp.bound := weekly_limit |} ] |} in
      Solve problem (finish bonus_set capacities ordered_profiles).

(** The call [api_optimise] makes ([app.py]): only the first four
    requested bonus ids are handed over,
    [bonus_ids = set(payload.bonus_item_ids[:4])]. *)
Definition api_bonus_ids (payload_bonus_item_ids : list Z) : gset Z :=
  list_to_set (take 4 payload_bonus_item_ids).

Definition api_optimise_call (unlocked_profiles : list ProductionProfile)
    (weekly_limit : float) (capacities : gmap string (option float))
    (payload_bonus_item_ids : list Z) : Run :=
  optimise_portfolio unlocked_profiles weekly_limit capacities
    (Some (elements (api_bonus_ids payload_bonus_item_ids))).

End Optimizer.

(** ** Auxiliary definitions for the statements *)

(** Ascending order of the total-level table. *)
Definition level_le (a b : Progression.TotalLevelBonus) : Prop :=
  Progression.level a ≤ Progression.level b.

(** [d.get(facility, 0.0)] *)
Definition minutes_at (d : gmap string float) (facility : string) : float :=
  default zero (d !! facility).

(** *** Minutes per unit

    The specification's formula, "(raw cycle seconds − global speed-up)/60
    ÷ yield, +infinity when the yield is ≤ 0", and the same formula with
    the accelerated time clamped at zero. *)
Definition spec_minutes_per_unit (cycle_seconds speedup : Z) (yield : float) : float :=
  if fle yield zero then PInf
  else ((of_Z (cycle_seconds - speedup) / of_Z 60) / yield)%float.

Definition clamped_minutes_per_unit (cycle_seconds speedup : Z) (yield : float) : float :=
  if fle yield zero then PInf
  else ((of_Z (Z.max 0 (cycle_seconds - speedup)) / of_Z 60) / yield)%float.

(** [x >= 0]: a finite value that is not negative, or [+inf]. *)
Definition nonneg (x : float) : Prop := fle zero x = true.

(** A finite value that is not negative ([0 <= x < inf]). *)
Definition finite_nonneg (x : float) : Prop := ∃ a : Qc, x = Fin a ∧ (0 ≤ a)%Qc.

(** A finite value above zero ([0 < x < inf]). *)
Definition finite_positive (x : float) : Prop := ∃ a : Qc, x = Fin a ∧ (0 < a)%Qc.

(** The average yield the loader reads off a growth row. *)
Definition plant_yield (entry : Raw.PlantProcess) : float :=
  _parse_average (default "1" (Raw.pp_estimate_harvests entry)) (of_Z 1).

(** The recipe table records no negative craft time and only finite
    quantities above zero. *)
Definition recipes_nonneg (loader : Raw.Datasets) : Prop :=
  ∀ row, row ∈ Raw.TbFurnitureTableMakeInfo loader →
    nonneg (default zero (Raw.fm_time row))
    ∧ ∀ material, material ∈ Raw.fm_material_consume row →
        finite_positive (default zero (Raw.mat_num material)).

(** Every facility-minutes value of the profile is [>= 0]. *)
Definition minutes_nonneg (p : ProductionProfile) : Prop :=
  ∀ facility minutes,
    ProductionProfile.facility_minutes p !! facility = Some minutes → nonneg minutes.

(** The scanner's pending token is made of digits read so far. *)
Definition scan_state_ok (st : scan_state) : Prop :=
  match st with
  | Idle => True
  | IntPart n => 0 ≤ n
  | FracPart n f _ => 0 ≤ n ∧ 0 ≤ f
  end.

(** *** What a resolved profile looks like

    The furniture profile as a function of the profiles its materials
    resolved to (one [option] per material, in recipe order), and the
    profiles the calculator can produce at all. *)

Module Built.

Import Calculator Resolve.

Definition furniture_minutes (self : Calculator.t) (sale : SaleItem)
    (resolved : list (option ProductionProfile)) : gmap string float :=
  fold_left (fun acc rc => step_minutes rc.1 rc.2 acc)
            (zip (materials_of self sale) resolved)
            {[ CRAFT_FACILITY := craft_minutes self (SaleItem.item_id sale) ]}.

Definition furniture_profile (self : Calculator.t) (sale : SaleItem)
    (resolved : list (option ProductionProfile)) : ProductionProfile :=
  furniture_record sale (furniture_minutes self sale resolved)
    (zip_with (component_of self) (materials_of self sale) resolved)
    (furniture_notes (materials_of self sale)).

Inductive built (self : Calculator.t) : ProductionProfile → Prop :=
  | built_plant sale :
      SaleItem.category sale = "plant" →
      built self (_build_plant_profile self sale)
  | built_fish sale :
      SaleItem.category sale = "fish" →
      built self (_build_fish_profile self sale)
  | built_furniture sale resolved :
      SaleItem.category sale = "furniture" →
      length resolved = length (materials_of self sale) →
      (∀ i p, resolved !! i = Some (Some p) → built self p) →
      built self (furniture_profile self sale resolved)
  | built_basic sale :
      SaleItem.category sale ≠ "plant" →
      SaleItem.category sale ≠ "fish" →
      SaleItem.category sale ≠ "furniture" →
      built self (_build_basic_profile sale).

(** The profile was made for this sale item. *)
Definition made_for (sale : SaleItem) (p : ProductionProfile) : Prop :=
  ProductionProfile.item_id p = SaleItem.item_id sale
  ∧ ProductionProfile.category p = SaleItem.category sale
  ∧ ProductionProfile.sale_value p = SaleItem.sale_value sale.

(** The invariant of a resolution in progress: every cached profile is a
    built one, filed under the id of its sale item, and no item that is
    being resolved is cached yet. *)
Definition cache_ok (self : Calculator.t) (cache : gmap Z ProductionProfile) : Prop :=
  ∀ item_id p, cache !! item_id = Some p →
    built self p ∧ ∃ sale, sale_items self !! item_id = Some sale ∧ made_for sale p.

Definition state_ok (self : Calculator.t) (st : State) : Prop :=
  cache_ok self (_profile_cache st)
  ∧ ∀ item_id, item_id ∈ stack st → _profile_cache st !! item_id = None.

(** The two summands of the additive rule for furniture, read at one
    facility: the item's own craft time, counted under the crafting
    queue only, and what one component adds (its profile's minutes at that
    facility times the quantity; nothing when the component has no
    profile or its profile has no entry for the facility). *)
Definition own_craft_minutes (self : Calculator.t) (p : ProductionProfile)
    (facility : string) : float :=
  if decide (facility = CRAFT_FACILITY)
  then craft_minutes self (ProductionProfile.item_id p) else zero.

Definition component_contribution (facility : string) (c : ComponentRequirement) : float :=
  match ComponentRequirement.profile c with
  | Some cp =>
      match ProductionProfile.facility_minutes cp !! facility with
      | Some minutes => (minutes * ComponentRequirement.quantity c)%float
      | None => zero
      end
  | None => zero
  end.

(** A call hands the shared stack back as it received it. *)
Definition keeps_stack (rec : Z → M (option ProductionProfile)) : Prop :=
  ∀ item_id st r st', rec item_id st = Some (r, st') → stack st' = stack st.

(** Every call made with the stack [S] returns. *)
Definition total_on (rec : Z → M (option ProductionProfile)) (S : gset Z) : Prop :=
  ∀ item_id st, stack st = S → ∃ r st', rec item_id st = Some (r, st').

(** The contract of one call [rec item_id] on a state that satisfies the
    invariant: the invariant and the stack are kept; a profile that comes
    back is a built one and is cached under [item_id]; [None] comes back
    with the state untouched; an item under resolution gives [None]. *)
Definition resolves (self : Calculator.t) (rec : Z → M (option ProductionProfile)) : Prop :=
  ∀ item_id st r st',
    state_ok self st → rec item_id st = Some (r, st') →
    state_ok self st' ∧ stack st' = stack st
    ∧ match r with
      | Some p => built self p ∧ _profile_cache st' !! item_id = Some p
      | None => st' = st
      end
    ∧ (item_id ∈ stack st → r = None).

End Built.

(** *** The optimiser's bookkeeping *)

Module Plan.

Import Optimizer.

(** The items the optimal branch reports, before sorting: one per ordered
    profile whose solved quantity is above the tolerance. *)
Definition selected (bonus_set : gset Z) (solution : Lp.Solution)
    (ordered_profiles : list ProductionProfile) : list OptimizedItem :=
  omap (fun profile =>
          let value := solved_value solution profile in
          if fle value tolerance then None
          else Some (optimized_item bonus_set profile value))
       ordered_profiles.

(** The item's per-unit minutes at a facility times its units, read off
    its profile as it is ([0] without an entry). *)
Definition per_unit_times_units (facility : string) (item : OptimizedItem) : float :=
  (minutes_at (ProductionProfile.facility_minutes (OptimizedItem.profile item)) facility
   * OptimizedItem.units item)%float.

(** The multiplier the call grants to an item id. *)
Definition granted (bonus_item_ids : list Z) (item_id : Z) : float :=
  if bool_decide (item_id ∈ bonus_item_ids) then of_Q (6 # 5) else of_Z 1.

(** The result of a call that does not reach the solver. *)
Definition empty_result (status : string) : OptimizationResult :=
  {| OptimizationResult.items := [];
     OptimizationResult.total_astralite := zero;
     OptimizationResult.facility_usage := ∅;
     OptimizationResult.status := status |}.

(** The objective term of a profile under the multipliers granted to
    [bonus_item_ids]. *)
Definition granted_term (bonus_item_ids : list Z) (profile : ProductionProfile) : Lp.Term :=
  {| Lp.coefficient :=
       (ProductionProfile.sale_value profile
        * granted bonus_item_ids (ProductionProfile.item_id profile))%float;
     Lp.variable := ProductionProfile.item_id profile |}.

End Plan.

(** ** Sample data

    Small concrete tables on which the statements below are exercised. *)

Module Samples.

Import Progression.

(** The table of the test fixture's shape: a tier at level 5 granting
    50000, the next one at level 10. *)
Definition sample_total_level_data : list TotalLevelRow :=
  [ mkTotalLevelRow 10 (Some 80000); mkTotalLevelRow 5 (Some 50000) ].

(** A sale row that pays [value] of item 14 (the currency). *)
Definition sale_row (item_id ability_id : Z) (value : Z) : Raw.SaleInfo :=
  Raw.mkSaleInfo item_id ability_id (Some 1) (Some (of_Z 1))
    [Raw.mkReward (Some 14) (Some (of_Z value))].

(** A small game: three plants with growth data (101, a normal one; 102,
    whose harvest estimate reads "0"; 104, which grows faster than the free
    nutrient speeds it up) and one without (103); a fish with growth data
    (201) and one without (202); a bed made of plants and fish (301); two
    pieces of furniture that need each other (302, 303); and one whose
    craft time is recorded as negative (304). *)
Definition sample_datasets : Raw.Datasets :=
  {| Raw.TbHomeProductsSaleInfo :=
       [ sale_row 101 34 10; sale_row 102 34 10; sale_row 103 34 10; sale_row 104 34 10;
         sale_row 201 47 40; sale_row 202 47 40;
         sale_row 301 22 900; sale_row 302 22 500; sale_row 303 22 500;
         sale_row 304 22 100 ];
     Raw.TbPlantingGrowthProcess :=
       [ Raw.mkPlantProcess (Some 101) [Some 3600; Some 3000] (Some "3") 1 [];
         Raw.mkPlantProcess (Some 102) [Some 3600] (Some "0") 2 [];
         Raw.mkPlantProcess (Some 104) [Some 300] (Some "1") 4 [] ];
     Raw.TbPlantingNutrient :=
       [ Raw.mkPlantNutrient (Some 5) (Some 9000); Raw.mkPlantNutrient (Some 0) (Some 600) ];
     Raw.TbHomeFishGrowthConfig := [ Raw.mkFishConfig (Some 9001) (Some 9000) (Some 6600) ];
     Raw.TbHomeFishNutrientConfig := [ Raw.mkFishNutrient (Some 0) (Some 600) ];
     Raw.TbFurnitureTableMakeInfo :=
       [ Raw.mkFurnitureMake 301
           [Raw.mkMaterial 101 (Some (of_Z 3)); Raw.mkMaterial 201 (Some (of_Z 30))]
           (Some (of_Z 60));
         Raw.mkFurnitureMake 302 [Raw.mkMaterial 303 (Some (of_Z 1))] (Some (of_Z 10));
         Raw.mkFurnitureMake 303 [Raw.mkMaterial 302 (Some (of_Z 2))] (Some (of_Z 20));
         Raw.mkFurnitureMake 304 [Raw.mkMaterial 101 (Some (of_Z 1))] (Some (of_Z (-5))) ];
     Raw.TbFurnitureMakeMaterialExchangeInfo := [] |}.

Definition sample_localization : Localization :=
  {| Localization._flat :=
       {[ "ItemName_201" := "Blinko Fish"; "FISH_9001" := "Blinko fish" ]} |}.

Definition sample_calculator : Calculator.t :=
  Calculator.init sample_datasets sample_localization.

(** A one-item catalogue for the optimiser, and a solver answer that
    makes one unit of everything. *)
Definition sample_profile (item_id : Z) (crafting_minutes : Z) : ProductionProfile :=
  {| ProductionProfile.item_id := item_id;
     ProductionProfile.name := "Sample";
     ProductionProfile.sale_value := of_Z 10;
     ProductionProfile.ability_id := 22;
     ProductionProfile.ability_level := 1;
     ProductionProfile.category := "furniture";
     ProductionProfile.facility_minutes := {[ CRAFT_FACILITY := of_Z crafting_minutes ]};
     ProductionProfile.components := [];
     ProductionProfile.notes := [] |}.

Definition sample_capacities : gmap string (option float) :=
  {[ CRAFT_FACILITY := Some (of_Z WEEK_MINUTES) ]}.

Definition sample_solution (units : Z) : Lp.Solution :=
  {| Lp.status_code := 1; Lp.value := fun _ => Some (of_Z units) |}.

End Samples.

(** ** Level-up rewards ([progression.py])

    The other half of [ProgressionRepository]: [self._rewards_by_ability]
    and the queries on it. *)

Module Rewards.

Record LevelReward : Type := mkLevelReward {
  ability_id : Z;
  level : Z;
  items : gmap Z Z;
}.

(** One entry of [entry.get("des_item", [])]: [reward.get("item_id", 0)]
    and [reward.get("num", 0)]. *)
Record RewardItem : Type := mkRewardItem {
  ri_item_id : option Z;
  ri_num : option Z;
}.

(** One row of [TbHomeAbilityLevelUpRewardShowInfo]: [entry["id"]] and the
    reward list. *)
Record RewardRow : Type := mkRewardRow {
  row_id : Z;
  row_des_item : list RewardItem;
}.

(** The inner loop of [__init__]:
    [items[item_id] = items.get(item_id, 0) + int(reward.get("num", 0))],
    an entry with item id [0] being skipped. *)
Definition reward_items (des_item : list RewardItem) : gmap Z Z :=
  fold_left
    (fun items reward =>
       let item_id := default 0 (ri_item_id reward) in
       if item_id =? 0 then items
       else <[item_id := default 0 (items !! item_id) + default 0 (ri_num reward)]> items)
    des_item ∅.

(** [ability_id = raw_id // 1000] and [level = raw_id % 1000]; Python's
    floor division and modulo are [Z.div] and [Z.modulo]. *)
Definition level_reward_of (entry : RewardRow) : LevelReward :=
  {| ability_id := row_id entry / 1000;
     level := row_id entry mod 1000;
     items := reward_items (row_des_item entry) |}.

(** [self._rewards_by_ability.setdefault(ability_id, []).append(...)] *)
Definition append_reward (acc : gmap Z (list LevelReward)) (reward : LevelReward)
  : gmap Z (list LevelReward) :=
  <[ability_id reward := default [] (acc !! ability_id reward) ++ [reward]]> acc.

(** [rewards.sort(key=lambda reward: reward.level)], stable. *)
Fixpoint insert_reward (r : LevelReward) (l : list LevelReward) : list LevelReward :=
  match l with
  | [] => [r]
  | c :: rest =>
      if level r <=? level c then r :: c :: rest
      else c :: insert_reward r rest
  end.

Definition sort_rewards (l : list LevelReward) : list LevelReward :=
  foldr insert_reward [] l.

Record Repository : Type := mkRepository {
  _rewards_by_ability : gmap Z (list LevelReward);
}.

(** [ProgressionRepository.__init__], the part that builds
    [self._rewards_by_ability]. *)
Definition init (reward_data : list RewardRow) : Repository :=
  {| _rewards_by_ability :=
       sort_rewards
         <$> fold_left (fun acc entry => append_reward acc (level_reward_of entry))
                       reward_data ∅ |}.

(** [totals[item_id] = totals.get(item_id, 0) + qty] for every entry of
    [reward.items]. *)
Definition add_items (items totals : gmap Z Z) : gmap Z Z :=
  map_fold (fun item_id qty acc => <[item_id := default 0 (acc !! item_id) + qty]> acc)
           totals items.

(** The loop of [ability_reward_items], with its [break]. *)
Fixpoint reward_loop (rewards : list LevelReward) (lvl : Z) (totals : gmap Z Z)
  : gmap Z Z :=
  match rewards with
  | [] => totals
  | reward :: rest =>
      if level reward >? lvl then totals
      else reward_loop rest lvl (add_items (items reward) totals)
  end.

Definition ability_reward_items (self : Repository) (ability : Z) (lvl : Z) : gmap Z Z :=
  reward_loop (default [] (_rewards_by_ability self !! ability)) lvl ∅.

(** [sum(reward_totals.get(item_id, 0) for item_id in item_ids)] *)
Definition sum_item_counts (self : Repository) (ability : Z) (lvl : Z)
    (item_ids : list Z) : Z :=
  let reward_totals := ability_reward_items self ability lvl in
  fold_left Z.add (map (fun item_id => default 0 (reward_totals !! item_id)) item_ids) 0.

(** [rewards[-1].level if rewards else 0] *)
Definition max_level (self : Repository) (ability : Z) : Z :=
  match list.last (default [] (_rewards_by_ability self !! ability)) with
  | Some reward => level reward
  | None => 0
  end.

(** *** Reading the raw table directly *)

(** What one row grants of an item: the sum of the [num] of its entries
    for that item. *)
Definition row_quantity (item_id : Z) (entry : RewardRow) : Z :=
  fold_right Z.add 0
    (map (fun reward =>
            if default 0 (ri_item_id reward) =? item_id
            then default 0 (ri_num reward) else 0)
         (row_des_item entry)).

(** The rows of an ability at or below a level. *)
Definition row_counts (ability lvl : Z) (entry : RewardRow) : bool :=
  (row_id entry / 1000 =? ability) && (row_id entry mod 1000 <=? lvl).

Definition table_quantity (reward_data : list RewardRow) (ability lvl item_id : Z) : Z :=
  fold_right Z.add 0
    (map (fun entry => if row_counts ability lvl entry then row_quantity item_id entry else 0)
         reward_data).

(** The row has an entry for the item, whatever the number it grants. *)
Definition grants (item_id : Z) (entry : RewardRow) : Prop :=
  ∃ reward, reward ∈ row_des_item entry ∧ default 0 (ri_item_id reward) = item_id.

(** No row grants a negative quantity. *)
Definition quantities_nonneg (reward_data : list RewardRow) : Prop :=
  ∀ entry reward, entry ∈ reward_data → reward ∈ row_des_item entry →
                  0 ≤ default 0 (ri_num reward).

Definition reward_level_le (a b : LevelReward) : Prop := level a ≤ level b.

(** A small reward table: Planting (34) gains two plots of item 1170000320
    at level 1, three more at level 5 and one of item 1170000321 at level
    12; Fish Keeping (47) gains a pond at level 3. *)
Definition sample_reward_data : list RewardRow :=
  [ mkRewardRow 34005 [mkRewardItem (Some 1170000320) (Some 3)];
    mkRewardRow 34001 [mkRewardItem (Some 1170000320) (Some 2); mkRewardItem None (Some 9)];
    mkRewardRow 47003 [mkRewardItem (Some 1170000419) (Some 1)];
    mkRewardRow 34012 [mkRewardItem (Some 1170000321) (Some 1)] ].

End Rewards.

(** ** The optimise request ([app.py]) *)

Module App.

(** The keys of [ABILITY_LABELS], in order. *)
Definition ABILITY_IDS : list Z := [22; 34; 45; 47; 48].
Definition FARMLAND_ITEMS : list Z := [1170000320; 1170000321; 1170000322; 1170000323].
Definition FISH_POND_ITEMS : list Z := [1170000419].

Definition MODELLED_CATEGORIES : list string := ["plant"; "fish"; "furniture"].

(** [[profile for profile in ALL_PROFILES
      if profile.category in MODELLED_CATEGORIES]] *)
Definition modelled_profiles (all_profiles : list ProductionProfile)
  : list ProductionProfile :=
  filter (fun profile => ProductionProfile.category profile ∈ MODELLED_CATEGORIES)
         all_profiles.

(** [max(0, min(int(requested), max_level))] when [max_level] is truthy,
    [max(0, int(requested))] otherwise. *)
Definition clamp_level (max_level requested : Z) : Z :=
  if max_level =? 0 then Z.max 0 requested
  else Z.max 0 (Z.min requested max_level).

(** The first loop of [api_optimise]:
    [requested = payload.ability_levels.get(ability_id, 0)]. *)
Definition ability_levels (progression : Rewards.Repository)
    (payload_ability_levels : gmap Z Z) : gmap Z Z :=
  fold_left
    (fun acc ability_id =>
       <[ability_id :=
           clamp_level (Rewards.max_level progression ability_id)
                       (default 0 (payload_ability_levels !! ability_id))]> acc)
    ABILITY_IDS ∅.

(** [sum(ability_levels.values())] *)
Definition total_level (levels : gmap Z Z) : Z :=
  map_fold (fun _ lvl acc => acc + lvl) 0 levels.

(** [[profile for profile in MODELLED_PROFILES
      if ability_levels.get(profile.ability_id, 0) >= profile.ability_level]] *)
Definition unlocked_profiles (levels : gmap Z Z) (profiles : list ProductionProfile)
  : list ProductionProfile :=
  filter (fun profile =>
            ProductionProfile.ability_level profile
            ≤ default 0 (levels !! ProductionProfile.ability_id profile))
         profiles.

Record OptimiseRequest : Type := mkOptimiseRequest {
  req_ability_levels : gmap Z Z;
  req_bonus_item_ids : list Z;
  req_crafting_slots : Z;
}.

(** The capacities handed to the optimiser, in minutes per week. *)
Definition capacities_of (plant_plots fish_ponds crafting_slots : Z)
  : gmap string (option float) :=
  {[ PLANT_FACILITY := Some (of_Z (plant_plots * WEEK_MINUTES));
     FISH_FACILITY := Some (of_Z (fish_ponds * WEEK_MINUTES));
     CRAFT_FACILITY := Some (of_Z (crafting_slots * WEEK_MINUTES)) ]}.

(** [api_optimise] up to and including the call of [optimise_portfolio].
    The module-level values it reads are parameters: the two halves of
    [progression], [BASE_WEEKLY_LIMIT] and [MODELLED_PROFILES]. *)
Definition api_optimise (rewards : Rewards.Repository)
    (bonuses : Progression.ProgressionRepository) (BASE_WEEKLY_LIMIT : Z)
    (MODELLED_PROFILES : list ProductionProfile) (payload : OptimiseRequest)
  : Optimizer.Run :=
  let levels := ability_levels rewards (req_ability_levels payload) in
  let weekly_bonus := Progression.weekly_bonus_for_total_level bonuses (total_level levels) in
  let weekly_limit := BASE_WEEKLY_LIMIT + weekly_bonus in
  let plant_plots :=
    Rewards.sum_item_counts rewards 34 (default 0 (levels !! 34)) FARMLAND_ITEMS in
  let fish_ponds :=
    Rewards.sum_item_counts rewards 47 (default 0 (levels !! 47)) FISH_POND_ITEMS in
  let crafting_slots := Z.max (req_crafting_slots payload) 1 in
  Optimizer.optimise_portfolio
    (unlocked_profiles levels MODELLED_PROFILES) (of_Z weekly_limit)
    (capacities_of plant_plots fish_ponds crafting_slots)
    (Some (elements (Optimizer.api_bonus_ids (req_bonus_item_ids payload)))).

(** The message of the response, from the plan's items and the unlocked
    profiles. *)
Definition message (plan_items : list OptimizedItem)
    (unlocked : list ProductionProfile) : option string :=
  match plan_items with
  | _ :: _ => None
  | [] =>
      match unlocked with
      | [] => Some "Increase ability levels to unlock saleable items."
      | _ => Some "No feasible plan within the current facility limits."
      end
  end.

End App.

(** ** More about resolved profiles *)

Module Shape.

Import Calculator Resolve.

(** The profile repeats the sale item's own fields. *)
Definition header_of (sale : SaleItem) (p : ProductionProfile) : Prop :=
  ProductionProfile.item_id p = SaleItem.item_id sale
  ∧ ProductionProfile.name p = SaleItem.name sale
  ∧ ProductionProfile.sale_value p = SaleItem.sale_value sale
  ∧ ProductionProfile.ability_id p = SaleItem.ability_id sale
  ∧ ProductionProfile.ability_level p = SaleItem.ability_level sale
  ∧ ProductionProfile.category p = SaleItem.category sale.

(** The components of the profile are the materials of the recipe, one
    for one: same item, same quantity, same order. *)
Definition mirrors (materials : list MaterialRequirement)
    (components : list ComponentRequirement) : Prop :=
  map (fun c => (ComponentRequirement.item_id c, ComponentRequirement.quantity c)) components
  = map (fun m => (MaterialRequirement.item_id m, MaterialRequirement.quantity m)) materials.

(** What every profile looks like, whatever its materials resolved to. *)
Definition shaped (self : Calculator.t) (sale : SaleItem) (p : ProductionProfile) : Prop :=
  header_of sale p
  ∧ (if String.eqb (SaleItem.category sale) "furniture"
     then mirrors (materials_of self sale) (ProductionProfile.components p)
          ∧ ProductionProfile.notes p = furniture_notes (materials_of self sale)
     else ProductionProfile.components p = []
          ∧ length (ProductionProfile.notes p) ≤ 1
          ∧ (ProductionProfile.notes p = []
             ↔ ProductionProfile.facility_minutes p ≠ ∅))%nat.

Definition cache_shaped (self : Calculator.t) (cache : gmap Z ProductionProfile) : Prop :=
  ∀ item_id p, cache !! item_id = Some p →
    ∃ sale, sale_items self !! item_id = Some sale ∧ shaped self sale p.

(** A call only adds to the cache. *)
Definition grows_cache (rec : Z → M (option ProductionProfile)) : Prop :=
  ∀ item_id st r st', rec item_id st = Some (r, st') →
    _profile_cache st ⊆ _profile_cache st'.

(** A call keeps the cache shaped and returns shaped profiles. *)
Definition keeps_shape (self : Calculator.t) (rec : Z → M (option ProductionProfile)) : Prop :=
  ∀ item_id st r st', cache_shaped self (_profile_cache st) →
    rec item_id st = Some (r, st') →
    cache_shaped self (_profile_cache st')
    ∧ ∀ p, r = Some p → ∃ sale, sale_items self !! item_id = Some sale ∧ shaped self sale p.

End Shape.

(** ** More about the loaders *)

Module Loaded.

(** The text holds an ASCII digit. *)
Fixpoint has_digit (text : string) : bool :=
  match text with
  | EmptyString => false
  | String c rest =>
      match digit_value c with
      | Some _ => true
      | None => has_digit rest
      end
  end.

(** Every character of the text is an ASCII character.  Texts are
    strings of bytes here; on ASCII texts the digits of [\d] are the
    ten characters 0 to 9. *)
Fixpoint ascii_only (text : string) : bool :=
  match text with
  | EmptyString => true
  | String c rest => (Ascii.nat_of_ascii c <? 128)%nat && ascii_only rest
  end.

(** The growth row names this harvest item (0 when it names none). *)
Definition harvests (harvest_item : Z) (entry : Raw.PlantProcess) : Prop :=
  default 0 (Raw.pp_harvest_item entry) = harvest_item.

#[export] Instance harvests_dec (harvest_item : Z) (entry : Raw.PlantProcess) :
  Decision (harvests harvest_item entry) :=
  Z.eq_dec (default 0 (Raw.pp_harvest_item entry)) harvest_item.

(** What the second loop of [_load_fish_growth] files under a sale item's
    id: the growth record named like the item, for a fish; nothing for
    any other item. *)
Definition fish_growth_for (loc : Localization) (growth_data : list Raw.FishConfig)
    (nutrient_data : list Raw.FishNutrient) (sale : SaleItem) : option FishGrowth :=
  if String.eqb (SaleItem.category sale) "fish"
  then Calculator.fish_growth_by_name loc growth_data
         (Calculator.fish_default_speedup nutrient_data)
       !! Localization.lower (SaleItem.name sale)
  else None.

(** The six categories a sale item can have. *)
Definition categories : list string :=
  ["furniture"; "plant"; "meteor"; "fish"; "animal"; "other"].

End Loaded.

(** ** More about the optimiser's problem and result *)

Module Report.

Import Optimizer.

(** [a] comes before [b] in an order of falling astralite. *)
Definition descending (a b : OptimizedItem) : Prop :=
  fle (OptimizedItem.astralite b) (OptimizedItem.astralite a) = true.

(** The item's astralite can be compared: it is not [nan]. *)
Definition comparable (item : OptimizedItem) : Prop :=
  OptimizedItem.astralite item ≠ NaN.

(** [lpSum(minutes * x) <= capacity] for one facility. *)
Definition capacity_constraint (facility : string) (capacity : float)
    (ordered_profiles : list ProductionProfile) : Lp.Constraint :=
  {| Lp.expr := facility_terms facility ordered_profiles; Lp.bound := capacity |}.

(** [lpSum(value * x) <= weekly_limit] *)
Definition weekly_constraint (bonus_set : gset Z) (weekly_limit : float)
    (ordered_profiles : list ProductionProfile) : Lp.Constraint :=
  {| Lp.expr := value_terms bonus_set ordered_profiles; Lp.bound := weekly_limit |}.

(** The profiles the problem ranges over: those whose item id is one of
    the problem's variables, in the order given. *)
Definition ordered_for (problem : Lp.Problem) (profiles : list ProductionProfile)
  : list ProductionProfile :=
  filter (fun profile => ProductionProfile.item_id profile ∈ Lp.variables problem) profiles.

(** The three numbers [api_optimise] turns into capacities. *)
Definition plant_plots (rewards : Rewards.Repository) (payload : App.OptimiseRequest) : Z :=
  let levels := App.ability_levels rewards (App.req_ability_levels payload) in
  Rewards.sum_item_counts rewards 34 (default 0 (levels !! 34)) App.FARMLAND_ITEMS.

Definition fish_ponds (rewards : Rewards.Repository) (payload : App.OptimiseRequest) : Z :=
  let levels := App.ability_levels rewards (App.req_ability_levels payload) in
  Rewards.sum_item_counts rewards 47 (default 0 (levels !! 47)) App.FISH_POND_ITEMS.

Definition crafting_slots (payload : App.OptimiseRequest) : Z :=
  Z.max (App.req_crafting_slots payload) 1.

End Report.

(** ** The localisation blob ([localization.py]) *)

(** A parsed JSON value.  An object is the list of its items in dict
    order; numbers, booleans and [null] are not told apart. *)
Module Json.
Inductive t : Type :=
  | Str (s : string)
  | Obj (fields : list (string * t))
  | Arr (items : list t)
  | Other.
End Json.

Module Flatten.

(** [Localization._flatten], threading [self._flat]. *)
Fixpoint _flatten (data : Json.t) (flat : gmap string string) : gmap string string :=
  match data with
  | Json.Obj fields =>
      (fix items (fields : list (string * Json.t)) (flat : gmap string string) :=
         match fields with
         | [] => flat
         | (key, value) :: rest =>
             items rest
               match value with
               | Json.Obj _ | Json.Arr _ => _flatten value flat
               | Json.Str s => <[key := s]> flat
               | Json.Other => flat
               end
         end) fields flat
  | Json.Arr items =>
      (fix each (items : list Json.t) (flat : gmap string string) :=
         match items with
         | [] => flat
         | item :: rest => each rest (_flatten item flat)
         end) items flat
  | Json.Str _ | Json.Other => flat
  end.

(** [Localization.__init__] *)
Definition init (data : Json.t) : Localization :=
  {| Localization._flat := _flatten data ∅ |}.

(** The blob has, at some depth, an object with the item [key: s], [s] a
    string. *)
Inductive string_field (key s : string) : Json.t → Prop :=
  | field_here fields :
      (key, Json.Str s) ∈ fields → string_field key s (Json.Obj fields)
  | field_in_object fields k value :
      (k, value) ∈ fields → string_field key s value → string_field key s (Json.Obj fields)
  | field_in_array items item :
      item ∈ items → string_field key s item → string_field key s (Json.Arr items).

End Flatten.

(** ** The remote loader ([data_loader.py]) *)

Module Loader.

(** How a call of [fetch_json] ends: with the parsed blob, with
    [KeyError], or with the exception of a failed request. *)
Inductive Outcome : Type :=
  | Ok (value : Json.t)
  | KeyError (name : string)
  | RequestError (url : string).

(** The loader's fields, and the URLs requested so far, oldest first. *)
Record State : Type := mkState {
  urls : gmap string string;
  _cache : gmap string Json.t;
  requested : list string;
}.

(** What the network answers to a request, given the requests made
    before it: the parsed blob, or [None] when [get], [raise_for_status]
    or [json] raises. *)
Definition Network : Type := list string → string → option Json.t.

(** [RemoteDataLoader(urls=urls)] *)
Definition fresh (urls : gmap string string) : State :=
  {| urls := urls; _cache := ∅; requested := [] |}.

Definition fetch_json (net : Network) (self : State) (name : string) : Outcome * State :=
  match urls self !! name with
  | None => (KeyError name, self)
  | Some url =>
      match _cache self !! name with
      | Some value => (Ok value, self)
      | None =>
          let asked := requested self ++ [url] in
          match net (requested self) url with
          | None =>
              (RequestError url,
               {| urls := urls self; _cache := _cache self; requested := asked |})
          | Some value =>
              (Ok value,
               {| urls := urls self; _cache := <[name := value]> (_cache self);
                  requested := asked |})
          end
      end
  end.

(** [self'] is [self] after some calls of [fetch_json], whatever they
    asked for and however they ended. *)
Inductive later (net : Network) (self : State) : State → Prop :=
  | later_now : later net self self
  | later_call mid name outcome self' :
      later net self mid → fetch_json net mid name = (outcome, self') →
      later net self self'.

(** A table with one dataset, and a network that answers the first
    request only. *)
Definition sample_table : gmap string string := {[ "en" := "https://host/en.json" ]}.

Definition answers_once : Network :=
  fun asked _ => match asked with [] => Some (Json.Str "first") | _ => None end.

End Loader.

(** ** Sums as the code accumulates them

    The code adds floats one after the other into a running value.  The
    statements about such sums are folds from the left in the code's own
    order, so that they do not depend on how additions are grouped. *)

Module Accumulate.

Import Calculator Resolve.

(** What one component does to the entry of a facility in
    [_build_furniture_profile]:
    [facility_minutes[f] = facility_minutes.get(f, 0.0) + minutes * quantity]
    when the component has a profile with an entry for [f], nothing
    otherwise. *)
Definition entry_step (facility : string) (entry : option float)
    (c : ComponentRequirement) : option float :=
  match ComponentRequirement.profile c with
  | Some cp =>
      match ProductionProfile.facility_minutes cp !! facility with
      | Some minutes =>
          Some (default zero entry + minutes * ComponentRequirement.quantity c)%float
      | None => entry
      end
  | None => entry
  end.

(** The same step on the minutes read with [.get(f, 0.0)]. *)
Definition add_contribution (facility : string) (acc : float)
    (c : ComponentRequirement) : float :=
  match ComponentRequirement.profile c with
  | Some cp =>
      match ProductionProfile.facility_minutes cp !! facility with
      | Some minutes => (acc + minutes * ComponentRequirement.quantity c)%float
      | None => acc
      end
  | None => acc
  end.

(** The entry the loop starts from:
    [{CRAFT_FACILITY: self._furniture_time.get(sale.item_id, 0.0)}]. *)
Definition craft_entry (self : Calculator.t) (item_id : Z) (facility : string)
  : option float :=
  if decide (facility = CRAFT_FACILITY) then Some (craft_minutes self item_id) else None.

(** A furniture profile as its recipe and the resolved materials make it:
    the components are the materials of the recipe, one for one; a
    component's profile is the one the cache holds for the material; and
    every facility entry is what the components, in recipe order, added
    to the craft time. *)
Definition additive (self : Calculator.t) (sale : SaleItem)
    (cache : gmap Z ProductionProfile) (p : ProductionProfile) : Prop :=
  Shape.mirrors (materials_of self sale) (ProductionProfile.components p)
  ∧ (∀ c q, c ∈ ProductionProfile.components p →
            ComponentRequirement.profile c = Some q →
            cache !! ComponentRequirement.item_id c = Some q)
  ∧ ∀ facility,
      ProductionProfile.facility_minutes p !! facility
      = fold_left (entry_step facility) (ProductionProfile.components p)
                  (craft_entry self (SaleItem.item_id sale) facility).

Definition cache_additive (self : Calculator.t) (cache : gmap Z ProductionProfile) : Prop :=
  ∀ item_id p, cache !! item_id = Some p →
    ∃ sale, sale_items self !! item_id = Some sale
            ∧ (SaleItem.category sale = "furniture" → additive self sale cache p).

(** A call keeps the cache additive. *)
Definition keeps_additive (self : Calculator.t)
    (rec : Z → M (option ProductionProfile)) : Prop :=
  ∀ item_id st r st',
    Built.state_ok self st → cache_additive self (_profile_cache st) →
    rec item_id st = Some (r, st') →
    cache_additive self (_profile_cache st').

(** What one reported item adds to the usage of a facility in
    [optimise_portfolio]: its entry of the dict comprehension
    [{facility: minutes * value ... if minutes > 0}], that is the per-unit
    minutes of its profile times its units when these minutes are above
    zero, and nothing otherwise. *)
Definition usage_step (facility : string) (entry : option float)
    (item : OptimizedItem) : option float :=
  match ProductionProfile.facility_minutes (OptimizedItem.profile item) !! facility with
  | Some minutes =>
      if fgt minutes zero
      then Some (default zero entry + minutes * OptimizedItem.units item)%float
      else entry
  | None => entry
  end.

Definition add_positive_minutes (facility : string) (acc : float)
    (item : OptimizedItem) : float :=
  match ProductionProfile.facility_minutes (OptimizedItem.profile item) !! facility with
  | Some minutes =>
      if fgt minutes zero then (acc + minutes * OptimizedItem.units item)%float else acc
  | None => acc
  end.

(** [{facility: 0.0 for facility in capacities}], read at one facility. *)
Definition usage_entry (capacities : gmap string (option float)) (facility : string)
  : option float :=
  match capacities !! facility with
  | Some _ => Some zero
  | None => None
  end.

End Accumulate.

(** * Properties

    ** Float arithmetic *)

Module FloatFacts.

Lemma Qc_leb_le (a b : Qc) : Qc_leb a b = true ↔ (a <= b)%Qc.
Proof. unfold Qc_leb. apply Qle_bool_iff. Qed.

Lemma Qc_ltb_lt (a b : Qc) : Qc_ltb a b = true ↔ (a < b)%Qc.
Proof.
  unfold Qc_ltb. rewrite negb_true_iff, <- not_true_iff_false, Qle_bool_iff.
  split; [apply Qnot_le_lt | apply Qlt_not_le].
Qed.

Lemma Qc_eqb_eq (a b : Qc) : Qc_eqb a b = true ↔ a = b.
Proof.
  unfold Qc_eqb. rewrite Qeq_bool_iff. split; [apply Qc_is_canon | intros ->; reflexivity].
Qed.

(** Two finite values with the same reduced fraction are equal. *)
Lemma Fin_ext (a b : Qc) : (this a == this b)%Q → Fin a = Fin b.
Proof. intros H. f_equal. apply Qc_is_canon, H. Qed.

(** Closed goals between computed floats: evaluate, then compare the
    reduced fractions. *)
Ltac float_eq :=
  vm_compute;
  first [ reflexivity
        | apply Fin_ext; reflexivity
        | apply (f_equal Some), Fin_ext; reflexivity ].

End FloatFacts.
(** ** The total-level bonus lookup *)

Module ProgressionFacts.

Import Progression Samples.

Lemma insert_by_level_Permutation (b : TotalLevelBonus) (l : list TotalLevelBonus) :
  Permutation (b :: l) (insert_by_level b l).
Proof.
  induction l as [|c l IH]; simpl; [done|].
  destruct (level b <=? level c); [done|].
  rewrite perm_swap. by constructor.
Qed.

Lemma sort_by_level_Permutation (l : list TotalLevelBonus) :
  Permutation l (sort_by_level l).
Proof.
  induction l as [|b l IH]; simpl; [done|].
  rewrite <- insert_by_level_Permutation. by constructor.
Qed.

Lemma elem_of_sort_by_level (e : TotalLevelBonus) (l : list TotalLevelBonus) :
  e ∈ sort_by_level l ↔ e ∈ l.
Proof. by rewrite <- sort_by_level_Permutation. Qed.

Lemma insert_by_level_sorted (b : TotalLevelBonus) (l : list TotalLevelBonus) :
  StronglySorted level_le l → StronglySorted level_le (insert_by_level b l).
Proof.
  induction 1 as [|c l Hs IH Hc]; simpl.
  - repeat constructor.
  - destruct (Z.leb_spec (level b) (level c)) as [Hle|Hgt].
    + constructor; [by constructor|].
      constructor; [done|].
      eapply Forall_impl; [|exact Hc]. unfold level_le. intros; lia.
    + constructor; [done|].
      rewrite <- insert_by_level_Permutation.
      constructor; [unfold level_le; lia | done].
Qed.

Lemma sort_by_level_sorted (l : list TotalLevelBonus) :
  StronglySorted level_le (sort_by_level l).
Proof.
  induction l as [|b l IH]; simpl; [constructor|].
  by apply insert_by_level_sorted.
Qed.

(** The loop stops at once when nothing is at or below the level asked for. *)
Lemma bonus_loop_all_above (entries : list TotalLevelBonus) (t bonus : Z) :
  (∀ e, e ∈ entries → t < level e) → bonus_loop entries t bonus = bonus.
Proof.
  destruct entries as [|c rest]; simpl; [done|].
  intros Habove. specialize (Habove c (list_elem_of_here _ _)).
  destruct (Z.gtb_spec (level c) t); [done | lia].
Qed.

(** On a sorted table the loop ends on a tier of the greatest level that
    does not exceed the level asked for. *)
Lemma bonus_loop_highest (entries : list TotalLevelBonus) (t : Z) :
  StronglySorted level_le entries →
  ∀ bonus e, e ∈ entries → level e ≤ t →
  ∃ x, x ∈ entries ∧ level x ≤ t
       ∧ (∀ e', e' ∈ entries → level e' ≤ t → level e' ≤ level x)
       ∧ bonus_loop entries t bonus = weekly_bonus x.
Proof.
  induction 1 as [|c rest Hs IH Hc]; intros bonus e He Hle.
  - by apply elem_of_nil in He.
  - rewrite list.Forall_forall in Hc. simpl.
    destruct (Z.gtb_spec (level c) t) as [Hgt|Hct].
    + exfalso. apply elem_of_cons in He as [->|He]; [lia|].
      specialize (Hc e He). unfold level_le in Hc. lia.
    + destruct (decide (Exists (λ d, level d ≤ t) rest)) as [Hex|Hnone].
      * apply list.Exists_exists in Hex as (d & Hd & Hdt).
        destruct (IH (weekly_bonus c) d Hd Hdt) as (x & Hx & Hxt & Hmax & Hloop).
        exists x. split_and!; [by right | done | | done].
        intros e' He' He't. apply elem_of_cons in He' as [->|He']; [|by apply Hmax].
        apply (Hc x Hx).
      * exists c. split_and!; [by left | done | |].
        -- intros e' He' He't. apply elem_of_cons in He' as [->|He']; [lia|].
           exfalso. apply Hnone, list.Exists_exists. by exists e'.
        -- apply bonus_loop_all_above. intros d Hd.
           destruct (Z.lt_ge_cases t (level d)) as [|Hge]; [done|].
           exfalso. apply Hnone, list.Exists_exists. exists d. split; [done | lia].
Qed.

(** C9. [weekly_bonus_for_total_level t] is [0] when [t] is below every
    tier; otherwise it is the weekly bonus of a tier of the highest level
    that does not exceed [t] and so, the tiers of that level agreeing on
    the bonus (as in a table with one row per level), the bonus of the
    highest-level tier not exceeding [t].  For a table whose level-5 tier
    grants 50000 and that has no tier at level 1 or below, it is 0 at total
    level 1 and 50000 at total level 5. *)
Theorem weekly_bonus_step_lookup (total_level_data : list TotalLevelRow) (t : Z) :
  let self := ProgressionRepository_init total_level_data in
  let tiers := map row_bonus total_level_data in
  ((∀ e, e ∈ tiers → t < level e) → weekly_bonus_for_total_level self t = 0)
  ∧ ((∃ e, e ∈ tiers ∧ level e ≤ t) →
     ∃ e, e ∈ tiers ∧ level e ≤ t
          ∧ (∀ e', e' ∈ tiers → level e' ≤ t → level e' ≤ level e)
          ∧ weekly_bonus_for_total_level self t = weekly_bonus e)
  ∧ (∀ e, e ∈ tiers → level e ≤ t →
       (∀ e', e' ∈ tiers → level e' ≤ t → level e' ≤ level e) →
       (∀ e', e' ∈ tiers → level e' = level e → weekly_bonus e' = weekly_bonus e) →
       weekly_bonus_for_total_level self t = weekly_bonus e)
  ∧ (mkTotalLevelBonus 5 50000 ∈ tiers →
       (∀ e, e ∈ tiers → level e = 5 → weekly_bonus e = 50000) →
       (∀ e, e ∈ tiers → 1 < level e) →
       weekly_bonus_for_total_level self 1 = 0
       ∧ weekly_bonus_for_total_level self 5 = 50000).
Proof.
  intros self tiers.
  assert (Hsome : ∀ t', (∃ e, e ∈ tiers ∧ level e ≤ t') →
     ∃ e, e ∈ tiers ∧ level e ≤ t'
          ∧ (∀ e', e' ∈ tiers → level e' ≤ t' → level e' ≤ level e)
          ∧ weekly_bonus_for_total_level self t' = weekly_bonus e).
  { intros t' (e & He & Hle).
    destruct (bonus_loop_highest (sort_by_level tiers) t' (sort_by_level_sorted tiers)
                0 e) as (x & Hx & Hxt & Hxmax & Hloop); [by apply elem_of_sort_by_level | done |].
    rewrite elem_of_sort_by_level in Hx.
    exists x. split; [done|]. split; [done|]. split; [|exact Hloop].
    intros e' He' Hle'. apply Hxmax; [by apply elem_of_sort_by_level | done]. }
  assert (Hhighest : ∀ t' e, e ∈ tiers → level e ≤ t' →
       (∀ e', e' ∈ tiers → level e' ≤ t' → level e' ≤ level e) →
       (∀ e', e' ∈ tiers → level e' = level e → weekly_bonus e' = weekly_bonus e) →
       weekly_bonus_for_total_level self t' = weekly_bonus e).
  { intros t' e He Hle Hmax Huniq.
    destruct (Hsome t') as (x & Hx & Hxt & Hxmax & ->); [by exists e|].
    apply Huniq; [exact Hx|].
    apply Z.le_antisymm; [apply Hmax; [exact Hx | exact Hxt]|].
    by apply Hxmax. }
  assert (Hbelow : ∀ t', (∀ e, e ∈ tiers → t' < level e) →
       weekly_bonus_for_total_level self t' = 0).
  { intros t' Habove.
    change (weekly_bonus_for_total_level self t')
      with (bonus_loop (sort_by_level tiers) t' 0).
    apply bonus_loop_all_above.
    intros e He. apply Habove. by rewrite elem_of_sort_by_level in He. }
  split; [apply Hbelow|]. split; [apply Hsome|]. split; [apply Hhighest|].
  intros Hin Hfive Hlow. split; [by apply Hbelow|].
  apply (Hhighest 5 (mkTotalLevelBonus 5 50000)); simpl; [done | lia | | done].
  intros e' He' Hle.
  destruct (Z.eq_dec (level e') 5) as [->|]; [done | lia].
Qed.

Lemma weekly_bonus_step_lookup_witness :
  let self := ProgressionRepository_init sample_total_level_data in
  weekly_bonus_for_total_level self 1 = 0
  ∧ weekly_bonus_for_total_level self 5 = 50000
  ∧ weekly_bonus_for_total_level self 12 = 80000.
Proof.
  intros self.
  assert (Hcases : ∀ e, e ∈ map row_bonus sample_total_level_data →
            e = mkTotalLevelBonus 10 80000 ∨ e = mkTotalLevelBonus 5 50000).
  { intros e He. cbn in He.
    apply elem_of_cons in He as [->|He]; [by left|].
    apply elem_of_cons in He as [->|He]; [by right|].
    by apply elem_of_nil in He. }
  destruct (weekly_bonus_step_lookup sample_total_level_data 12)
    as (_ & _ & Hhigh & Hscenario).
  destruct Hscenario as [H1 H5].
  - cbn. apply list_elem_of_further, list_elem_of_here.
  - intros e He Hl. destruct (Hcases e He) as [-> | ->]; simpl in *; [lia | done].
  - intros e He. destruct (Hcases e He) as [-> | ->]; simpl; lia.
  - split_and!; [exact H1 | exact H5 |].
    apply (Hhigh (mkTotalLevelBonus 10 80000)); simpl.
    + apply list_elem_of_here.
    + lia.
    + intros e He _. destruct (Hcases e He) as [-> | ->]; simpl; lia.
    + intros e He Hl. destruct (Hcases e He) as [-> | ->]; simpl in *; [done | lia].
Defined.

End ProgressionFacts.

(** ** The resolution terminates, keeps its invariant, and builds profiles *)

Module ResolveFacts.

Import Calculator Resolve Built.

Section resolution.

Variable self : Calculator.t.

(** *** The shared stack is handed back as it was received *)

Lemma furniture_loop_stack rec materials :
  keeps_stack rec →
  ∀ fm comps st res st',
    furniture_loop rec self materials fm comps st = Some (res, st') →
    stack st' = stack st.
Proof.
  intros Hrec. induction materials as [|req rest IH]; intros fm comps st res st'; simpl.
  - by intros [= _ <-].
  - destruct (rec _ st) as [[cp st1]|] eqn:Hcall; [|done].
    intros Hloop. rewrite (IH _ _ _ _ _ Hloop). by eapply Hrec.
Qed.

Lemma build_profile_stack rec sale :
  keeps_stack rec →
  ∀ st p st', build_profile rec self sale st = Some (p, st') → stack st' = stack st.
Proof.
  intros Hrec st p st'. unfold build_profile, _build_furniture_profile.
  repeat case_match; intros; simplify_eq; try done.
  by eapply furniture_loop_stack.
Qed.

Lemma _compute_profile_body_stack rec :
  keeps_stack rec → keeps_stack (_compute_profile_body rec self).
Proof.
  intros Hrec item_id st r st'. unfold _compute_profile_body.
  destruct (_profile_cache st !! item_id); [by intros [= _ <-]|].
  destruct (decide (item_id ∈ stack st)) as [|Hfresh]; [by intros [= _ <-]|].
  destruct (sale_items self !! item_id) as [sale|]; [|by intros [= _ <-]].
  destruct (build_profile rec self sale _) as [[p st2]|] eqn:Hbuild; [|done].
  intros [= _ <-]. simpl.
  apply (build_profile_stack _ _ Hrec) in Hbuild. rewrite Hbuild. simpl.
  set_solver.
Qed.

Lemma _compute_profile_stack fuel : keeps_stack (_compute_profile fuel self).
Proof.
  induction fuel as [|fuel IH]; [done|]. by apply _compute_profile_body_stack.
Qed.

(** *** Enough fuel: the resolution returns *)

Lemma furniture_loop_total rec S materials :
  keeps_stack rec → total_on rec S →
  ∀ fm comps st, stack st = S →
    ∃ res st', furniture_loop rec self materials fm comps st = Some (res, st').
Proof.
  intros Hkeep Htotal. induction materials as [|req rest IH]; intros fm comps st HS; simpl.
  - eauto.
  - destruct (Htotal (MaterialRequirement.item_id req) st HS) as (cp & st1 & Hcall).
    rewrite Hcall. apply IH. rewrite <- HS. by eapply Hkeep.
Qed.

Lemma build_profile_total rec S sale :
  keeps_stack rec → total_on rec S →
  ∀ st, stack st = S → ∃ p st', build_profile rec self sale st = Some (p, st').
Proof.
  intros Hkeep Htotal st HS. unfold build_profile, _build_furniture_profile.
  repeat case_match; eauto.
  edestruct (furniture_loop_total rec S) as (res & st' & Hloop); [done..|].
  rewrite Hloop in *. simplify_eq.
Qed.

Lemma _compute_profile_total fuel :
  ∀ S, (size (dom (sale_items self) ∖ S) < fuel)%nat →
       total_on (_compute_profile fuel self) S.
Proof.
  induction fuel as [|fuel IH]; intros S Hsize; [lia|].
  intros item_id st HS. simpl. unfold _compute_profile_body.
  destruct (_profile_cache st !! item_id); [eauto|].
  destruct (decide (item_id ∈ stack st)) as [|Hfresh]; [eauto|].
  destruct (sale_items self !! item_id) as [sale|] eqn:Hsale; [|eauto].
  edestruct (build_profile_total (_compute_profile fuel self) ({[item_id]} ∪ S) sale)
    as (p & st2 & Hbuild); [apply _compute_profile_stack | | | rewrite Hbuild; eauto].
  - apply IH.
    assert (dom (sale_items self) ∖ ({[item_id]} ∪ S) ⊂ dom (sale_items self) ∖ S) as Hsub.
    { assert (item_id ∈ dom (sale_items self)) by (apply elem_of_dom; eauto).
      set_solver. }
    apply subset_size in Hsub. lia.
  - simpl. by rewrite HS.
Qed.

Lemma compute_profile_total cache item_id :
  ∃ r cache', compute_profile self cache item_id = Some (r, cache').
Proof.
  unfold compute_profile.
  edestruct (_compute_profile_total (recursion_budget self) ∅) as (r & st' & Hrun);
    [| | rewrite Hrun; eauto].
  - unfold recursion_budget. rewrite difference_empty_L, size_dom. lia.
  - done.
Qed.

(** *** What a call leaves behind *)

Lemma furniture_loop_resolves rec materials :
  resolves self rec →
  ∀ fm comps st fm' comps' st',
    state_ok self st →
    furniture_loop rec self materials fm comps st = Some ((fm', comps'), st') →
    state_ok self st' ∧ stack st' = stack st
    ∧ ∃ resolved,
        length resolved = length materials
        ∧ (∀ i p, resolved !! i = Some (Some p) → built self p)
        ∧ fm' = fold_left (fun acc rc => step_minutes rc.1 rc.2 acc)
                          (zip materials resolved) fm
        ∧ comps' = comps ++ zip_with (component_of self) materials resolved
        ∧ (∀ i req, materials !! i = Some req →
             MaterialRequirement.item_id req ∈ stack st → resolved !! i = Some None).
Proof.
  intros Hrec. induction materials as [|req rest IH];
    intros fm comps st fm' comps' st' Hok; simpl.
  - intros [= <- <- <-]. split_and!; [done..|].
    exists []. split_and!; [done | done | done | by rewrite app_nil_r | done].
  - destruct (rec _ st) as [[cp st1]|] eqn:Hcall; [|done]. intros Hloop.
    destruct (Hrec _ _ _ _ Hok Hcall) as (Hok1 & Hstack1 & Hres & Hcyc).
    destruct (IH _ _ _ _ _ _ Hok1 Hloop)
      as (Hok' & Hstack' & resolved & Hlen & Hbuilt & Hfm & Hcomps & Hcycs).
    split_and!; [done | congruence |].
    exists (cp :: resolved). split_and!.
    + simpl. by rewrite Hlen.
    + intros [|i] p Hi; simpl in Hi.
      * injection Hi as ->. by destruct Hres.
      * by eapply Hbuilt.
    + done.
    + rewrite Hcomps, <- app_assoc. done.
    + intros [|i] req' Hi Hin; simpl in *.
      * injection Hi as <-. by rewrite (Hcyc Hin).
      * eapply Hcycs; [done|]. by rewrite Hstack1.
Qed.

Lemma build_profile_resolves rec sale :
  resolves self rec →
  ∀ st p st',
    state_ok self st → build_profile rec self sale st = Some (p, st') →
    state_ok self st' ∧ stack st' = stack st ∧ built self p ∧ made_for sale p.
Proof.
  intros Hrec st p st' Hok. unfold build_profile.
  destruct (String.eqb_spec (SaleItem.category sale) "plant") as [Hplant|Hplant].
  { intros [= <- <-]. split; [done|]. split; [done|]. split; [by constructor | done]. }
  destruct (String.eqb_spec (SaleItem.category sale) "fish") as [Hfish|Hfish].
  { intros [= <- <-]. split; [done|]. split; [done|]. split; [by constructor | done]. }
  destruct (String.eqb_spec (SaleItem.category sale) "furniture") as [Hfurn|Hfurn].
  - unfold _build_furniture_profile.
    destruct (furniture_loop _ _ _ _ _ _) as [[[fm' comps'] st1]|] eqn:Hloop; [|done].
    intros [= <- <-].
    destruct (furniture_loop_resolves _ _ Hrec _ _ _ _ _ _ Hok Hloop)
      as (Hok' & Hstack' & resolved & Hlen & Hbuilt & -> & -> & _).
    split; [done|]. split; [done|]. split; [|done].
    by apply (built_furniture self sale resolved).
  - intros [= <- <-]. split; [done|]. split; [done|]. split; [by constructor | done].
Qed.

Lemma _compute_profile_body_resolves rec :
  resolves self rec → resolves self (_compute_profile_body rec self).
Proof.
  intros Hrec item_id st r st' [Hcache Hfree]. unfold _compute_profile_body.
  destruct (_profile_cache st !! item_id) as [cached|] eqn:Hhit.
  { intros [= <- <-]. split; [done|]. split; [done|]. split.
    - split; [by apply (Hcache item_id) | done].
    - intros Hin. apply Hfree in Hin. congruence. }
  destruct (decide (item_id ∈ stack st)) as [Hin|Hfresh].
  { by intros [= <- <-]. }
  destruct (sale_items self !! item_id) as [sale|] eqn:Hsale.
  2: { by intros [= <- <-]. }
  destruct (build_profile rec self sale _) as [[p st2]|] eqn:Hbuild; [|done].
  intros [= <- <-].
  apply (build_profile_resolves _ _ Hrec) in Hbuild
    as ([Hcache2 Hfree2] & Hstack2 & Hbuilt & Hmade).
  2: { split; simpl; [done|]. intros i [->%elem_of_singleton|Hi]%elem_of_union; auto. }
  simpl in Hstack2. split; [|split; [|split]]; simpl.
  - split; simpl.
    + intros i q. rewrite lookup_insert. case_decide as Hi.
      * intros [= <-]. subst i. eauto.
      * apply Hcache2.
    + intros i Hi.
      apply elem_of_difference in Hi as [Hi Hne].
      apply not_elem_of_singleton in Hne.
      rewrite lookup_insert_ne by done. by apply Hfree2.
  - rewrite Hstack2. set_solver.
  - split; [done | by rewrite lookup_insert_eq].
  - done.
Qed.

Lemma _compute_profile_resolves fuel : resolves self (_compute_profile fuel self).
Proof.
  induction fuel as [|fuel IH]; [by intros ? ? ? ? ?|].
  by apply _compute_profile_body_resolves.
Qed.

(** *** The public entry point *)

Lemma compute_profile_ok cache item_id r cache' :
  cache_ok self cache →
  compute_profile self cache item_id = Some (r, cache') →
  cache_ok self cache'
  ∧ match r with
    | Some p => built self p ∧ cache' !! item_id = Some p
    | None => cache' = cache
    end.
Proof.
  intros Hcache. unfold compute_profile.
  destruct (_compute_profile _ _ _ _) as [[r' st']|] eqn:Hrun; [|done].
  intros [= <- <-].
  apply _compute_profile_resolves in Hrun as ([Hok _] & _ & Hres & _).
  2: { split; [done|]. intros i Hi. by apply not_elem_of_empty in Hi. }
  split; [done|]. destruct r' as [p|]; [done|]. by subst st'.
Qed.

Lemma cache_ok_empty : cache_ok self ∅.
Proof. intros i p Hi. by rewrite lookup_empty in Hi. Qed.

Lemma reachable_cache_ok cache : reachable self cache → cache_ok self cache.
Proof.
  induction 1 as [|cache item_id r cache' _ IH Hcall]; [apply cache_ok_empty|].
  by apply (compute_profile_ok _ _ _ _ IH) in Hcall as [? _].
Qed.

(** A resolved profile is the one made for the sale item asked for. *)
Lemma compute_profile_made_for cache item_id p cache' :
  cache_ok self cache →
  compute_profile self cache item_id = Some (Some p, cache') →
  built self p ∧ ∃ sale, sale_items self !! item_id = Some sale ∧ made_for sale p.
Proof.
  intros Hcache Hcall.
  apply (compute_profile_ok _ _ _ _ Hcache) in Hcall as (Hcache' & _ & Hhit).
  by apply Hcache'.
Qed.

(** A sale item always resolves to a profile. *)
Lemma compute_profile_sale cache item_id sale :
  cache_ok self cache →
  sale_items self !! item_id = Some sale →
  ∃ p cache', compute_profile self cache item_id = Some (Some p, cache').
Proof.
  intros Hcache Hsale.
  destruct (compute_profile_total cache item_id) as ([p|] & cache' & Hcall); [eauto|].
  exfalso. revert Hcall. unfold compute_profile, recursion_budget. simpl.
  unfold _compute_profile_body. simpl.
  destruct (cache !! item_id); [by intros [= ]|].
  destruct (decide (item_id ∈ (∅ : gset Z))) as [Hin|_]; [by apply not_elem_of_empty in Hin|].
  rewrite Hsale. by destruct (build_profile _ _ _ _) as [[? ?]|].
Qed.

End resolution.

End ResolveFacts.

(** ** More about resolved profiles *)

Module ShapeFacts.

Import Calculator Resolve Built Shape ResolveFacts.

Section shape.

Variable self : Calculator.t.

(** *** The cache only grows *)

Lemma furniture_loop_grows rec materials :
  grows_cache rec →
  ∀ fm comps st res st',
    furniture_loop rec self materials fm comps st = Some (res, st') →
    _profile_cache st ⊆ _profile_cache st'.
Proof.
  intros Hrec. induction materials as [|req rest IH]; intros fm comps st res st'; simpl.
  - by intros [= _ <-].
  - destruct (rec _ st) as [[cp st1]|] eqn:Hcall; [|done].
    intros Hloop. etrans; [by eapply Hrec | by eapply IH].
Qed.

Lemma build_profile_grows rec sale :
  grows_cache rec →
  ∀ st p st', build_profile rec self sale st = Some (p, st') →
              _profile_cache st ⊆ _profile_cache st'.
Proof.
  intros Hrec st p st'. unfold build_profile, _build_furniture_profile.
  repeat case_match; intros; simplify_eq; try done.
  by eapply furniture_loop_grows.
Qed.

Lemma _compute_profile_body_grows rec :
  grows_cache rec → grows_cache (_compute_profile_body rec self).
Proof.
  intros Hrec item_id st r st'. unfold _compute_profile_body.
  destruct (_profile_cache st !! item_id) eqn:Hmiss; [by intros [= _ <-]|].
  destruct (decide (item_id ∈ stack st)); [by intros [= _ <-]|].
  destruct (sale_items self !! item_id) as [sale|]; [|by intros [= _ <-]].
  destruct (build_profile rec self sale _) as [[p st2]|] eqn:Hbuild; [|done].
  intros [= _ <-]. simpl.
  apply (build_profile_grows _ _ Hrec) in Hbuild. simpl in Hbuild.
  apply map_subseteq_spec. intros k v Hk.
  rewrite lookup_insert_ne by congruence.
  by apply (lookup_weaken _ _ _ _ Hk).
Qed.

Lemma _compute_profile_grows fuel : grows_cache (_compute_profile fuel self).
Proof.
  induction fuel as [|fuel IH]; [done | by apply _compute_profile_body_grows].
Qed.

(** *** The shape of a profile *)

Lemma furniture_loop_shape rec materials :
  keeps_shape self rec →
  ∀ fm comps st fm' comps' st',
    cache_shaped self (_profile_cache st) →
    furniture_loop rec self materials fm comps st = Some ((fm', comps'), st') →
    cache_shaped self (_profile_cache st')
    ∧ map (fun c => (ComponentRequirement.item_id c, ComponentRequirement.quantity c)) comps'
      = map (fun c => (ComponentRequirement.item_id c, ComponentRequirement.quantity c)) comps
        ++ map (fun m => (MaterialRequirement.item_id m, MaterialRequirement.quantity m))
               materials.
Proof.
  intros Hrec. induction materials as [|req rest IH];
    intros fm comps st fm' comps' st' Hcache; simpl.
  - intros [= <- <- <-]. by rewrite app_nil_r.
  - destruct (rec _ st) as [[cp st1]|] eqn:Hcall; [|done]. intros Hloop.
    destruct (Hrec _ _ _ _ Hcache Hcall) as [Hcache1 _].
    destruct (IH _ _ _ _ _ _ Hcache1 Hloop) as [Hcache' Hcomps].
    split; [done|]. rewrite Hcomps, map_app, <- app_assoc. done.
Qed.

Lemma build_profile_shape rec sale :
  keeps_shape self rec →
  ∀ st p st',
    cache_shaped self (_profile_cache st) →
    build_profile rec self sale st = Some (p, st') →
    cache_shaped self (_profile_cache st') ∧ shaped self sale p.
Proof.
  intros Hrec st p st' Hcache. unfold build_profile, shaped.
  destruct (String.eqb_spec (SaleItem.category sale) "plant") as [Hplant|Hplant].
  { intros [= <- <-]. split; [done|]. split; [done|].
    rewrite Hplant. simpl.
    destruct (plant_growth self !! SaleItem.item_id sale); simpl.
    - split; [done|]. split; [lia|]. split; [|done].
      intros _ Hempty. by apply (map_non_empty_singleton (M:=gmap string)) in Hempty.
    - split; [done|]. split; [lia|]. split; [done | intros Hne; by destruct Hne]. }
  destruct (String.eqb_spec (SaleItem.category sale) "fish") as [Hfish|Hfish].
  { intros [= <- <-]. split; [done|]. split; [done|].
    rewrite Hfish. simpl.
    destruct (fish_growth self !! SaleItem.item_id sale); simpl.
    - split; [done|]. split; [lia|]. split; [|done].
      intros _ Hempty. by apply (map_non_empty_singleton (M:=gmap string)) in Hempty.
    - split; [done|]. split; [lia|]. split; [done | intros Hne; by destruct Hne]. }
  destruct (String.eqb_spec (SaleItem.category sale) "furniture") as [Hfurn|Hfurn].
  - unfold _build_furniture_profile.
    destruct (furniture_loop _ _ _ _ _ _) as [[[fm' comps'] st1]|] eqn:Hloop; [|done].
    intros [= <- <-].
    destruct (furniture_loop_shape _ _ Hrec _ _ _ _ _ _ Hcache Hloop) as [Hcache' Hcomps].
    split; [done|]. split; [done|]. simpl. split; [exact Hcomps | done].
  - intros [= <- <-]. split; [done|]. split; [done|]. simpl.
    split; [done|]. split; [lia|]. split; [done | intros Hne; by destruct Hne].
Qed.

Lemma _compute_profile_body_shape rec :
  keeps_shape self rec → keeps_shape self (_compute_profile_body rec self).
Proof.
  intros Hrec item_id st r st' Hcache. unfold _compute_profile_body.
  destruct (_profile_cache st !! item_id) as [cached|] eqn:Hhit.
  { intros [= <- <-]. split; [done|]. intros p [= <-]. by apply Hcache. }
  destruct (decide (item_id ∈ stack st)); [by intros [= <- <-]|].
  destruct (sale_items self !! item_id) as [sale|] eqn:Hsale; [|by intros [= <- <-]].
  destruct (build_profile rec self sale _) as [[p st2]|] eqn:Hbuild; [|done].
  intros [= <- <-].
  apply (build_profile_shape _ _ Hrec) in Hbuild as [Hcache2 Hshaped]; [|done].
  simpl. split.
  - intros k q. rewrite lookup_insert. case_decide as Hk.
    + intros [= <-]. subst k. eauto.
    + apply Hcache2.
  - intros q [= <-]. eauto.
Qed.

Lemma _compute_profile_shape fuel : keeps_shape self (_compute_profile fuel self).
Proof.
  induction fuel as [|fuel IH]; [by intros ? ? ? ? ?|].
  by apply _compute_profile_body_shape.
Qed.

Lemma compute_profile_shape cache item_id r cache' :
  cache_shaped self cache →
  compute_profile self cache item_id = Some (r, cache') →
  cache_shaped self cache'
  ∧ ∀ p, r = Some p → ∃ sale, sale_items self !! item_id = Some sale ∧ shaped self sale p.
Proof.
  intros Hcache. unfold compute_profile.
  destruct (_compute_profile _ _ _ _) as [[r' st']|] eqn:Hrun; [|done].
  intros [= <- <-].
  by apply (_compute_profile_shape (recursion_budget self) item_id
              {| _profile_cache := cache; stack := ∅ |}).
Qed.

Lemma compute_profile_grows cache item_id r cache' :
  compute_profile self cache item_id = Some (r, cache') → cache ⊆ cache'.
Proof.
  unfold compute_profile.
  destruct (_compute_profile _ _ _ _) as [[r' st']|] eqn:Hrun; [|done].
  intros [= <- <-]. by apply _compute_profile_grows in Hrun.
Qed.

Lemma reachable_cache_shaped cache : reachable self cache → cache_shaped self cache.
Proof.
  induction 1 as [|cache item_id r cache' _ IH Hcall].
  - intros i p Hi. by rewrite lookup_empty in Hi.
  - by apply (compute_profile_shape _ _ _ _ IH) in Hcall as [? _].
Qed.

End shape.

End ShapeFacts.

(** ** The additive rule, in the order the code adds *)

Module AdditiveFacts.

Import Calculator Resolve Built Shape Accumulate ResolveFacts ShapeFacts.

Lemma add_component_minutes_entry (cm fm : gmap string float) (q : float) (f : string) :
  add_component_minutes cm q fm !! f
  = match cm !! f with
    | Some minutes => Some (default zero (fm !! f) + minutes * q)%float
    | None => fm !! f
    end.
Proof.
  unfold add_component_minutes. revert f.
  apply (map_fold_weak_ind
    (λ r m, ∀ f, r !! f = match m !! f with
                          | Some minutes => Some (default zero (fm !! f) + minutes * q)%float
                          | None => fm !! f
                          end)).
  - intros f. by rewrite lookup_empty.
  - intros i x m r Hfresh IH f. rewrite !lookup_insert. case_decide as Hi.
    + subst i. by rewrite (IH f), Hfresh.
    + apply IH.
Qed.

Lemma step_minutes_entry (self : Calculator.t) (req : MaterialRequirement)
    (cp : option ProductionProfile) (fm : gmap string float) (f : string) :
  step_minutes req cp fm !! f = entry_step f (fm !! f) (component_of self req cp).
Proof.
  unfold step_minutes, entry_step. cbn [ComponentRequirement.profile component_of
    ComponentRequirement.quantity].
  destruct cp as [p|]; [|done]. apply add_component_minutes_entry.
Qed.

(** Reading an entry with [.get(f, 0.0)] commutes with the steps. *)
Lemma entry_steps_default (f : string) (comps : list ComponentRequirement) :
  ∀ entry : option float,
    default zero (fold_left (entry_step f) comps entry)
    = fold_left (add_contribution f) comps (default zero entry).
Proof.
  induction comps as [|c rest IH]; intros entry; cbn [fold_left]; [done|].
  rewrite IH. f_equal. unfold entry_step, add_contribution.
  destruct (ComponentRequirement.profile c) as [cp|]; [|done].
  by destruct (ProductionProfile.facility_minutes cp !! f).
Qed.

Lemma additive_weaken (self : Calculator.t) (sale : SaleItem)
    (cache cache' : gmap Z ProductionProfile) (p : ProductionProfile) :
  cache ⊆ cache' → additive self sale cache p → additive self sale cache' p.
Proof.
  intros Hsub (Hmirror & Hcached & Hentries). split; [done|]. split; [|done].
  intros c q Hc Hq. eapply lookup_weaken; [by eapply Hcached | done].
Qed.

Lemma cache_additive_insert (self : Calculator.t) (cache : gmap Z ProductionProfile)
    (item_id : Z) (sale : SaleItem) (p : ProductionProfile) :
  cache !! item_id = None →
  sale_items self !! item_id = Some sale →
  cache_additive self cache →
  (SaleItem.category sale = "furniture" → additive self sale cache p) →
  cache_additive self (<[item_id := p]> cache).
Proof.
  intros Hfresh Hsale Hcache Hp k q. rewrite lookup_insert.
  assert (cache ⊆ <[item_id := p]> cache) as Hsub by by apply insert_subseteq.
  case_decide as Hk.
  - intros [= <-]. subst k. exists sale. split; [done|].
    intros Hcat. by eapply additive_weaken; [|apply Hp].
  - intros (sale' & Hsale' & Hadd)%Hcache. exists sale'. split; [done|].
    intros Hcat. by eapply additive_weaken; [|apply Hadd].
Qed.

Section additive.

Variable self : Calculator.t.

Lemma furniture_loop_additive rec materials (start : string → option float) :
  resolves self rec → grows_cache rec → keeps_additive self rec →
  ∀ fm comps st fm' comps' st',
    state_ok self st →
    cache_additive self (_profile_cache st) →
    furniture_loop rec self materials fm comps st = Some ((fm', comps'), st') →
    (∀ f, fm !! f = fold_left (entry_step f) comps (start f)) →
    (∀ c q, c ∈ comps → ComponentRequirement.profile c = Some q →
            _profile_cache st !! ComponentRequirement.item_id c = Some q) →
    cache_additive self (_profile_cache st')
    ∧ (∀ f, fm' !! f = fold_left (entry_step f) comps' (start f))
    ∧ (∀ c q, c ∈ comps' → ComponentRequirement.profile c = Some q →
              _profile_cache st' !! ComponentRequirement.item_id c = Some q)
    ∧ map (fun c => (ComponentRequirement.item_id c, ComponentRequirement.quantity c)) comps'
      = map (fun c => (ComponentRequirement.item_id c, ComponentRequirement.quantity c)) comps
        ++ map (fun m => (MaterialRequirement.item_id m, MaterialRequirement.quantity m))
               materials.
Proof.
  intros Hres Hgrow Hadd. induction materials as [|req rest IH];
    intros fm comps st fm' comps' st' Hok Hcache; simpl.
  - intros [= <- <- <-] Hfm Hcached. by rewrite app_nil_r.
  - destruct (rec _ st) as [[cp st1]|] eqn:Hcall; [|done]. intros Hloop Hfm Hcached.
    destruct (Hres _ _ _ _ Hok Hcall) as (Hok1 & _ & Hcp & _).
    pose proof (Hgrow _ _ _ _ Hcall) as Hsub.
    pose proof (Hadd _ _ _ _ Hok Hcache Hcall) as Hcache1.
    destruct (IH _ _ _ _ _ _ Hok1 Hcache1 Hloop)
      as (Hcache' & Hfm' & Hcached' & Hmap).
    + intros f. rewrite fold_left_app. cbn [fold_left].
      rewrite <- Hfm. apply step_minutes_entry.
    + intros c q [Hc|Hc]%elem_of_app Hq.
      * eapply lookup_weaken; [by eapply Hcached | done].
      * apply list_elem_of_singleton in Hc as ->.
        cbn [component_of ComponentRequirement.profile ComponentRequirement.item_id] in *.
        subst cp. by destruct Hcp.
    + split; [done|]. split; [done|]. split; [done|].
      rewrite Hmap, map_app, <- app_assoc. done.
Qed.

Lemma build_profile_additive rec sale :
  resolves self rec → grows_cache rec → keeps_additive self rec →
  ∀ st p st',
    state_ok self st → cache_additive self (_profile_cache st) →
    build_profile rec self sale st = Some (p, st') →
    cache_additive self (_profile_cache st')
    ∧ (SaleItem.category sale = "furniture" → additive self sale (_profile_cache st') p).
Proof.
  intros Hres Hgrow Hadd st p st' Hok Hcache. unfold build_profile.
  destruct (String.eqb_spec (SaleItem.category sale) "plant") as [Hplant|Hplant].
  { intros [= <- <-]. split; [done|]. congruence. }
  destruct (String.eqb_spec (SaleItem.category sale) "fish") as [Hfish|Hfish].
  { intros [= <- <-]. split; [done|]. congruence. }
  destruct (String.eqb_spec (SaleItem.category sale) "furniture") as [Hfurn|Hfurn].
  - unfold _build_furniture_profile.
    destruct (furniture_loop _ _ _ _ _ _) as [[[fm' comps'] st1]|] eqn:Hloop; [|done].
    intros [= <- <-].
    destruct (furniture_loop_additive rec (materials_of self sale)
                (craft_entry self (SaleItem.item_id sale)) Hres Hgrow Hadd
                _ _ _ _ _ _ Hok Hcache Hloop)
      as (Hcache' & Hfm' & Hcached' & Hmap).
    + intros f. cbn [fold_left]. unfold craft_entry. case_decide as Hf.
      * subst f. by rewrite lookup_singleton_eq.
      * by rewrite lookup_singleton_ne.
    + intros c q Hc. by apply elem_of_nil in Hc.
    + split; [done|]. intros _. split; [exact Hmap|]. split; [exact Hcached' | exact Hfm'].
  - intros [= <- <-]. split; [done|]. congruence.
Qed.

Lemma _compute_profile_body_additive rec :
  resolves self rec → grows_cache rec → keeps_additive self rec →
  keeps_additive self (_compute_profile_body rec self).
Proof.
  intros Hres Hgrow Hadd item_id st r st' [Hcok Hfree] Hcache. unfold _compute_profile_body.
  destruct (_profile_cache st !! item_id) as [cached|] eqn:Hhit; [by intros [= <- <-]|].
  destruct (decide (item_id ∈ stack st)); [by intros [= <- <-]|].
  destruct (sale_items self !! item_id) as [sale|] eqn:Hsale; [|by intros [= <- <-]].
  destruct (build_profile rec self sale _) as [[p st2]|] eqn:Hbuild; [|done].
  intros [= <- <-]. cbn [_profile_cache].
  assert (state_ok self {| _profile_cache := _profile_cache st;
                           stack := {[item_id]} ∪ stack st |}) as Hok1.
  { split; simpl; [done|]. intros i [->%elem_of_singleton|Hi]%elem_of_union; auto. }
  destruct (build_profile_resolves self _ _ Hres _ _ _ Hok1 Hbuild)
    as ([_ Hfree2] & Hstack2 & _ & _).
  destruct (build_profile_additive rec sale Hres Hgrow Hadd _ _ _ Hok1 Hcache Hbuild)
    as [Hcache2 Hp].
  apply (cache_additive_insert self _ item_id sale); [|done..].
  apply Hfree2. rewrite Hstack2. simpl. set_solver.
Qed.

Lemma _compute_profile_additive fuel : keeps_additive self (_compute_profile fuel self).
Proof.
  induction fuel as [|fuel IH]; [by intros ? ? ? ? ? ?|].
  apply _compute_profile_body_additive;
    [apply _compute_profile_resolves | apply _compute_profile_grows | done].
Qed.

Lemma compute_profile_additive cache item_id r cache' :
  cache_ok self cache → cache_additive self cache →
  compute_profile self cache item_id = Some (r, cache') →
  cache_additive self cache'.
Proof.
  intros Hok Hcache. unfold compute_profile.
  destruct (_compute_profile _ _ _ _) as [[r' st']|] eqn:Hrun; [|done].
  intros [= <- <-].
  apply (_compute_profile_additive (recursion_budget self) item_id
           {| _profile_cache := cache; stack := ∅ |} r' st'); [|done..].
  split; [done|]. intros i Hi. by apply not_elem_of_empty in Hi.
Qed.

Lemma reachable_cache_additive cache : reachable self cache → cache_additive self cache.
Proof.
  induction 1 as [|cache item_id r cache' Hreach IH Hcall].
  - intros i p Hi. by rewrite lookup_empty in Hi.
  - by apply (compute_profile_additive _ _ _ _ (reachable_cache_ok self _ Hreach) IH) in Hcall.
Qed.

(** A cached profile is what [compute_profile] returns, the cache staying
    as it is. *)
Lemma compute_profile_hit cache item_id p :
  cache !! item_id = Some p →
  compute_profile self cache item_id = Some (Some p, cache).
Proof.
  intros Hhit. unfold compute_profile, recursion_budget. cbn [_compute_profile].
  unfold _compute_profile_body. cbn [_profile_cache]. by rewrite Hhit.
Qed.

End additive.

End AdditiveFacts.

(** ** Memoisation, cycles and the additive rule *)

Module ResolveClaims.

Import Calculator Resolve Built Shape Accumulate Samples FloatFacts ResolveFacts ShapeFacts
       AdditiveFacts.

(** *** Memoisation *)

Lemma _compute_profile_body_memo rec self item_id st r st' :
  _compute_profile_body rec self item_id st = Some (r, st') →
  match r with
  | Some p => _profile_cache st' !! item_id = Some p
  | None => st' = st
  end.
Proof.
  unfold _compute_profile_body.
  destruct (_profile_cache st !! item_id) as [cached|] eqn:Hhit; [by intros [= <- <-]|].
  destruct (decide (item_id ∈ stack st)); [by intros [= <- <-]|].
  destruct (sale_items self !! item_id) as [sale|]; [|by intros [= <- <-]].
  destruct (build_profile rec self sale _) as [[p st2]|]; [|done].
  intros [= <- <-]. simpl. by rewrite lookup_insert_eq.
Qed.

(** C5. A call of [compute_profile] returns, and the same call made again
    on the calculator as the first call left it returns the same result
    and leaves the cache as it is; a profile that came back is the one now
    cached under the item id. *)
Theorem compute_profile_idempotent (self : Calculator.t)
    (cache : gmap Z ProductionProfile) (item_id : Z) :
  ∃ r cache',
    compute_profile self cache item_id = Some (r, cache')
    ∧ compute_profile self cache' item_id = Some (r, cache')
    ∧ (∀ p, r = Some p → cache' !! item_id = Some p).
Proof.
  destruct (compute_profile_total self cache item_id) as (r & cache' & Hfirst).
  exists r, cache'. split; [done|].
  revert Hfirst. unfold compute_profile.
  destruct (_compute_profile _ _ _ _) as [[r' st']|] eqn:Hrun; [|done].
  intros [= <- <-].
  assert (Hmemo := Hrun). unfold recursion_budget in Hmemo.
  apply _compute_profile_body_memo in Hmemo.
  destruct r' as [p|].
  - split; [|by intros ? [= <-]].
    unfold recursion_budget, _compute_profile, _compute_profile_body.
    cbn [_profile_cache]. by rewrite Hmemo.
  - subst st'. cbn [_profile_cache]. by rewrite Hrun.
Qed.

(** *** The additive rule *)

Lemma add_component_minutes_lookup (cm fm : gmap string float) (q : float) (f : string) :
  add_component_minutes cm q fm !! f
  = match cm !! f with
    | Some minutes => Some (minutes_at fm f + minutes * q)%float
    | None => fm !! f
    end.
Proof.
  unfold add_component_minutes. revert f.
  apply (map_fold_weak_ind
    (λ r m, ∀ f, r !! f = match m !! f with
                          | Some minutes => Some (minutes_at fm f + minutes * q)%float
                          | None => fm !! f
                          end)).
  - intros f. by rewrite lookup_empty.
  - intros i x m r Hfresh IH f. rewrite !lookup_insert. case_decide as Hi.
    + subst i. unfold minutes_at. by rewrite (IH f), Hfresh.
    + apply IH.
Qed.

(** C1. For a furniture sale item, [compute_profile] returns a profile
    whose components are the materials of the item's recipe, one for one,
    each component's profile being the profile [compute_profile] returns
    for the material; and whose minutes at every facility are the item's
    own craft time (under the crafting queue, 0 elsewhere) plus, added one
    after the other in recipe order, the component profile's minutes at
    that facility times the component's quantity, for every component with
    a resolved profile that has an entry for the facility.  A facility
    without an entry reads as 0, as with [facility_minutes.get(f, 0.0)];
    the entry itself is there for the crafting queue and for every
    facility some resolved component has. *)
Theorem furniture_minutes_additive (self : Calculator.t)
    (cache : gmap Z ProductionProfile) (item_id : Z) (sale : SaleItem) :
  reachable self cache →
  sale_items self !! item_id = Some sale →
  SaleItem.category sale = "furniture" →
  ∃ p cache',
    compute_profile self cache item_id = Some (Some p, cache')
    ∧ mirrors (materials_of self sale) (ProductionProfile.components p)
    ∧ (∀ c q, c ∈ ProductionProfile.components p →
         ComponentRequirement.profile c = Some q →
         compute_profile self cache' (ComponentRequirement.item_id c)
         = Some (Some q, cache'))
    ∧ (∀ facility,
         ProductionProfile.facility_minutes p !! facility
         = fold_left (entry_step facility) (ProductionProfile.components p)
                     (craft_entry self (ProductionProfile.item_id p) facility))
    ∧ (∀ facility,
         minutes_at (ProductionProfile.facility_minutes p) facility
         = fold_left (add_contribution facility) (ProductionProfile.components p)
                     (own_craft_minutes self p facility)).
Proof.
  intros Hreach Hsale Hcat.
  pose proof (reachable_cache_ok self _ Hreach) as Hok.
  destruct (compute_profile_sale self cache item_id sale Hok Hsale)
    as (p & cache' & Hcall).
  exists p, cache'. split; [done|].
  assert (reachable self cache') as Hreach' by (by econstructor).
  destruct (compute_profile_ok self _ _ _ _ Hok Hcall) as (Hok' & _ & Hhit).
  destruct (Hok' _ _ Hhit) as (_ & sale1 & Hsale1 & Hid & _).
  destruct (reachable_cache_additive self _ Hreach' _ _ Hhit) as (sale2 & Hsale2 & Hadd).
  rewrite Hsale in Hsale1, Hsale2. injection Hsale1 as <-. injection Hsale2 as <-.
  destruct (Hadd Hcat) as (Hmirror & Hcached & Hentries).
  split; [done|]. split; [|split].
  - intros c q Hc Hq. apply compute_profile_hit. by apply Hcached.
  - intros f. by rewrite Hid.
  - intros f. unfold minutes_at. rewrite Hentries, entry_steps_default. f_equal.
    unfold craft_entry, own_craft_minutes. rewrite Hid. by case_decide.
Qed.

Lemma furniture_minutes_additive_witness :
  ∃ p cache',
    compute_profile sample_calculator ∅ 301 = Some (Some p, cache')
    ∧ map ComponentRequirement.item_id (ProductionProfile.components p) = [101; 201]
    ∧ minutes_at (ProductionProfile.facility_minutes p) CRAFT_FACILITY = of_Z 60
    ∧ minutes_at (ProductionProfile.facility_minutes p) PLANT_FACILITY = of_Z 100
    ∧ minutes_at (ProductionProfile.facility_minutes p) FISH_FACILITY = of_Z 3000.
Proof.
  destruct (furniture_minutes_additive sample_calculator ∅ 301
              (sale_item_of sample_localization (sale_row 301 22 900)))
    as (p & cache' & Hcall & Hmirror & _ & _ & Hminutes).
  - apply reachable_init.
  - vm_compute. reflexivity.
  - reflexivity.
  - exists p, cache'. split; [exact Hcall|].
    rewrite !Hminutes.
    vm_compute in Hcall. injection Hcall as <- _.
    split; [reflexivity|]. split; [float_eq|]. split; float_eq.
Defined.

(** *** Cyclic recipes *)

(** C6, as the claim states it, fails: in the sample game items 302 and
    303 need each other.  Resolving 302 resolves 303 on the way; the edge
    from 303 back to 302 gets no profile, 303 still gets a profile, but
    that profile carries no note at all. *)
Lemma cyclic_edge_has_no_note :
  ∃ p302 c303 p303 c302 cache',
    compute_profile sample_calculator ∅ 302 = Some (Some p302, cache')
    ∧ ProductionProfile.components p302 = [c303]
    ∧ ComponentRequirement.profile c303 = Some p303
    ∧ ProductionProfile.item_id p303 = 303
    ∧ ProductionProfile.components p303 = [c302]
    ∧ ComponentRequirement.item_id c302 = 302
    ∧ ComponentRequirement.profile c302 = None
    ∧ ProductionProfile.notes p303 = [].
Proof.
  do 5 eexists. split; [vm_compute; reflexivity|].
  split; [reflexivity|]. split; [reflexivity|]. split; [reflexivity|].
  split; [reflexivity|]. split; [reflexivity|]. split; reflexivity.
Qed.

(** C6 (amended). In a resolution in progress, building a furniture
    profile returns a profile with one component per material; a material
    that refers to an item under resolution (an item on the stack) gets a
    component without profile, nothing is raised, and the profile built
    carries no note: the only note a furniture profile can carry is the one
    for an empty or missing recipe. *)
Theorem cyclic_edge_truncated (self : Calculator.t) (fuel : nat) (sale : SaleItem)
    (st : State) :
  state_ok self st →
  (size (dom (sale_items self) ∖ stack st) < fuel)%nat →
  ∃ p st',
    _build_furniture_profile (_compute_profile fuel self) self sale st = Some (p, st')
    ∧ length (ProductionProfile.components p) = length (materials_of self sale)
    ∧ ∀ i req,
        materials_of self sale !! i = Some req →
        MaterialRequirement.item_id req ∈ stack st →
        (∃ c, ProductionProfile.components p !! i = Some c
              ∧ ComponentRequirement.item_id c = MaterialRequirement.item_id req
              ∧ ComponentRequirement.profile c = None)
        ∧ ProductionProfile.notes p = [].
Proof.
  intros Hok Hfuel. unfold _build_furniture_profile.
  destruct (furniture_loop_total self (_compute_profile fuel self) (stack st)
              (materials_of self sale) (_compute_profile_stack self fuel)
              (_compute_profile_total self fuel _ Hfuel)
              {[ CRAFT_FACILITY := craft_minutes self (SaleItem.item_id sale) ]} [] st eq_refl)
    as ([fm' comps'] & st' & Hloop).
  rewrite Hloop. eexists _, st'. split; [done|].
  destruct (furniture_loop_resolves self _ _ (_compute_profile_resolves self fuel)
              _ _ _ _ _ _ Hok Hloop)
    as (_ & _ & resolved & Hlen & _ & _ & -> & Hcyc).
  simpl. split.
  - rewrite length_zip_with. lia.
  - intros i req Hreq Hin. split.
    + exists (component_of self req None). split; [|done].
      rewrite lookup_zip_with, Hreq. simpl. by rewrite (Hcyc i req Hreq Hin).
    + by destruct (materials_of self sale).
Qed.

Lemma cyclic_edge_truncated_witness :
  let sale := sale_item_of sample_localization (sale_row 303 22 500) in
  let st := {| _profile_cache := ∅; stack := {[ 302; 303 ]} |} in
  ∃ p st',
    _build_furniture_profile (_compute_profile 10 sample_calculator)
      sample_calculator sale st = Some (p, st')
    ∧ (∃ c, ProductionProfile.components p !! 0%nat = Some c
            ∧ ComponentRequirement.item_id c = 302
            ∧ ComponentRequirement.profile c = None)
    ∧ ProductionProfile.notes p = [].
Proof.
  intros sale st.
  destruct (cyclic_edge_truncated sample_calculator 10 sale st)
    as (p & st' & Hrun & _ & Hedge).
  - split; simpl; [apply cache_ok_empty | intros; apply lookup_empty].
  - vm_compute. lia.
  - exists p, st'. split; [exact Hrun|].
    apply (Hedge 0%nat (material_of (Raw.mkMaterial 302 (Some (of_Z 2))))).
    + vm_compute. reflexivity.
    + vm_compute. reflexivity.
Defined.

End ResolveClaims.

(** ** Growth data and minutes per unit *)

Module GrowthFacts.

Import Calculator Resolve Built Loaded Samples FloatFacts ResolveFacts.

(** *** Signs *)

Lemma finite_nonneg_nonneg x : finite_nonneg x → nonneg x.
Proof. intros (a & -> & Ha). by apply Qc_leb_le. Qed.

Lemma nonneg_zero : nonneg zero.
Proof. by apply Qc_leb_le. Qed.

Lemma Qc_of_Z_nonneg z : 0 ≤ z → (0 ≤ Qc_of_Z z)%Qc.
Proof. intros Hz. rewrite <- Z2Qc_inj_0. by apply (proj1 (Z2Qc_inj_le 0 z)). Qed.

Lemma Qc_of_Z_pos z : 0 < z → (0 < Qc_of_Z z)%Qc.
Proof. intros Hz. rewrite <- Z2Qc_inj_0. by apply (proj1 (Z2Qc_inj_lt 0 z)). Qed.

Lemma finite_nonneg_of_Z z : 0 ≤ z → finite_nonneg (of_Z z).
Proof. intros Hz. exists (Qc_of_Z z). split; [done | by apply Qc_of_Z_nonneg]. Qed.

Lemma finite_nonneg_fadd x y : finite_nonneg x → finite_nonneg y → finite_nonneg (x + y)%float.
Proof.
  intros (a & -> & Ha) (b & -> & Hb). exists (a + b)%Qc. split; [done|].
  by apply Qcplus_nonneg_nonneg.
Qed.

Lemma finite_nonneg_fold_fadd xs a :
  finite_nonneg a → Forall finite_nonneg xs → finite_nonneg (fold_left fadd xs a).
Proof.
  intros Ha Hxs. revert a Ha. induction Hxs as [|x xs Hx _ IH]; intros a Ha; simpl; [done|].
  apply IH. by apply finite_nonneg_fadd.
Qed.

Lemma finite_nonneg_fsum xs : Forall finite_nonneg xs → finite_nonneg (fsum xs).
Proof. apply finite_nonneg_fold_fadd. exists 0%Qc. done. Qed.

Lemma Qc_eqb_false_pos (b : Qc) : (0 < b)%Qc → Qc_eqb b 0 = false.
Proof.
  intros Hb. apply not_true_iff_false. intros ->%Qc_eqb_eq.
  by apply Qclt_not_eq in Hb.
Qed.

Lemma Qcdiv_nonneg (a b : Qc) : (0 ≤ a)%Qc → (0 < b)%Qc → (0 ≤ a / b)%Qc.
Proof.
  intros Ha Hb. unfold Qcdiv. apply Qcmult_nonneg_nonneg; [done|].
  by apply Qclt_le_weak, Qcinv_pos.
Qed.

Lemma finite_nonneg_fdiv x y : finite_nonneg x → finite_positive y → finite_nonneg (x / y)%float.
Proof.
  intros (a & -> & Ha) (b & -> & Hb). simpl. rewrite (Qc_eqb_false_pos b Hb).
  exists (a / b)%Qc. split; [done|]. by apply Qcdiv_nonneg.
Qed.

Lemma finite_positive_of_Z z : 0 < z → finite_positive (of_Z z).
Proof.
  intros Hz. exists (Qc_of_Z z). split; [done | by apply Qc_of_Z_pos].
Qed.

(** A finite value that is not [<= 0] is above zero. *)
Lemma finite_nonneg_not_le_zero x :
  finite_nonneg x → fle x zero = false → finite_positive x.
Proof.
  intros (a & -> & Ha) Hle. exists a. split; [done|].
  apply Qc_ltb_lt. unfold Qc_ltb. simpl in Hle. unfold Qc_leb in Hle. by rewrite Hle.
Qed.

(** *** The yield parser *)

Lemma digit_value_nonneg c d : digit_value c = Some d → 0 ≤ d.
Proof.
  unfold digit_value. case_match eqn:Hrange; [|done]. intros [= <-].
  apply andb_true_iff in Hrange as [Hlo _]. apply Nat.leb_le in Hlo. lia.
Qed.

Lemma token_float_nonneg st : scan_state_ok st → Forall finite_nonneg (token_float st).
Proof.
  destruct st as [|n|n f k]; simpl; [constructor | |].
  - intros Hn. constructor; [by apply finite_nonneg_of_Z | constructor].
  - intros [Hn Hf]. constructor; [|constructor].
    eexists. split; [done|]. apply Qcplus_nonneg_nonneg.
    + by apply Qc_of_Z_nonneg.
    + apply Qcdiv_nonneg; [by apply Qc_of_Z_nonneg|].
      apply Qc_of_Z_pos. lia.
Qed.

Lemma scan_numbers_nonneg (bound : nat) :
  ∀ text st, (String.length text ≤ bound)%nat → scan_state_ok st →
             Forall finite_nonneg (scan_numbers st text).
Proof.
  induction bound as [|bound IH]; intros [|c rest] st Hlen Hst;
    try (by apply token_float_nonneg); simpl in Hlen; [lia|].
  assert (Hrest : (String.length rest ≤ bound)%nat) by lia.
  simpl. destruct (digit_value c) as [d|] eqn:Hd.
  - apply digit_value_nonneg in Hd.
    destruct st as [|n|n f k]; apply IH; simpl in *; try done; try lia.
  - destruct st as [|n|n f k].
    + by apply IH.
    + simpl in Hst. case_match.
      * destruct rest as [|c' rest'].
        { constructor; [by apply finite_nonneg_of_Z | constructor]. }
        destruct (digit_value c') as [d'|] eqn:Hd'.
        -- apply digit_value_nonneg in Hd'. apply IH; simpl in *; [lia | done].
        -- constructor; [by apply finite_nonneg_of_Z | by apply IH].
      * constructor; [by apply finite_nonneg_of_Z | by apply IH].
    + apply Forall_app. split; [by apply token_float_nonneg | by apply IH].
Qed.

Lemma _parse_numbers_nonneg text : Forall finite_nonneg (_parse_numbers text).
Proof. by apply (scan_numbers_nonneg (String.length text)). Qed.

Lemma _parse_average_nonneg text fallback :
  finite_nonneg fallback → finite_nonneg (_parse_average text fallback).
Proof.
  intros Hfb. unfold _parse_average.
  pose proof (_parse_numbers_nonneg text) as Hnums.
  destruct (_parse_numbers text) as [|x xs] eqn:Hparse; [done|].
  apply finite_nonneg_fdiv; [by apply finite_nonneg_fsum|].
  apply finite_positive_of_Z. simpl. lia.
Qed.

Lemma plant_yield_nonneg entry : finite_nonneg (plant_yield entry).
Proof. apply _parse_average_nonneg, finite_nonneg_of_Z. lia. Qed.

(** *** What the loaders put in the tables *)

Lemma fold_insert_lookup {A B : Type} (key : A → Z) (val : A → B) (rows : list A) :
  ∀ (acc : gmap Z B) k v,
    fold_left (fun acc r => <[key r := val r]> acc) rows acc !! k = Some v →
    acc !! k = Some v ∨ ∃ r, r ∈ rows ∧ key r = k ∧ val r = v.
Proof.
  induction rows as [|r rows IH]; intros acc k v; simpl; [by left|].
  intros [Hacc|(r' & Hr' & Hk & Hv)]%IH.
  - rewrite lookup_insert in Hacc. case_decide as Hkey.
    + right. exists r. split; [by left|]. split; [done | congruence].
    + by left.
  - right. exists r'. split; [by right | done].
Qed.

Lemma _load_plant_growth_lookup growth_data nutrient_data h g :
  _load_plant_growth growth_data nutrient_data !! h = Some g →
  ∃ entry, entry ∈ growth_data ∧ Raw.pp_harvest_item entry = Some h
           ∧ g = plant_growth_of (plant_default_speedup nutrient_data) entry h.
Proof.
  unfold _load_plant_growth.
  set (speedup := plant_default_speedup nutrient_data).
  enough (Hgen : ∀ acc : gmap Z PlantGrowth,
    fold_left
      (fun acc entry =>
         let harvest_item := default 0 (Raw.pp_harvest_item entry) in
         if harvest_item =? 0 then acc
         else <[harvest_item := plant_growth_of speedup entry harvest_item]> acc)
      growth_data acc !! h = Some g →
    acc !! h = Some g
    ∨ ∃ entry, entry ∈ growth_data ∧ Raw.pp_harvest_item entry = Some h
               ∧ g = plant_growth_of speedup entry h).
  { intros [Hempty|Hfound]%Hgen; [by rewrite lookup_empty in Hempty | done]. }
  induction growth_data as [|entry rows IH]; intros acc; simpl; [by left|].
  intros [Hacc|(entry' & Hin & Hh & Hg)]%IH.
  - destruct (Z.eqb_spec (default 0 (Raw.pp_harvest_item entry)) 0) as [|Hnz]; [by left|].
    rewrite lookup_insert in Hacc. case_decide as Hkey; [|by left].
    right. exists entry. split; [by left|].
    destruct (Raw.pp_harvest_item entry) as [h'|]; simpl in *; [|done].
    subst h'. split; [done | congruence].
  - right. exists entry'. split; [by right | done].
Qed.

Lemma fish_growth_by_name_lookup loc growth_data speedup key g :
  fish_growth_by_name loc growth_data speedup !! key = Some g →
  ∃ entry fish_id name,
    entry ∈ growth_data ∧ g = fish_growth_of speedup entry fish_id name.
Proof.
  unfold fish_growth_by_name.
  enough (Hgen : ∀ acc : gmap string FishGrowth,
    fold_left
      (fun acc entry =>
         let fish_id := default 0 (Raw.fc_fish_id entry) in
         match Localization.get loc ("FISH_" +:+ Localization.str_of_int fish_id) with
         | None => acc
         | Some name =>
             if String.eqb name "" then acc
             else <[Localization.lower name :=
                      fish_growth_of speedup entry fish_id name]> acc
         end)
      growth_data acc !! key = Some g →
    acc !! key = Some g
    ∨ ∃ entry fish_id name,
        entry ∈ growth_data ∧ g = fish_growth_of speedup entry fish_id name).
  { intros [Hempty|Hfound]%Hgen; [by rewrite lookup_empty in Hempty | done]. }
  induction growth_data as [|entry rows IH]; intros acc; simpl; [by left|].
  intros [Hacc|(entry' & fish_id & name & Hin & Hg)]%IH.
  - destruct (Localization.get loc _) as [name|]; [|by left].
    destruct (String.eqb name ""); [by left|].
    rewrite lookup_insert in Hacc. case_decide as Hkey; [|by left].
    right. exists entry, (default 0 (Raw.fc_fish_id entry)), name.
    split; [by left | congruence].
  - right. exists entry', fish_id, name. split; [by right | done].
Qed.

Lemma _load_fish_growth_lookup loc sales growth_data nutrient_data item_id g :
  _load_fish_growth loc sales growth_data nutrient_data !! item_id = Some g →
  ∃ entry fish_id name,
    entry ∈ growth_data
    ∧ g = fish_growth_of (fish_default_speedup nutrient_data) entry fish_id name.
Proof.
  unfold _load_fish_growth. revert item_id g.
  apply (map_fold_weak_ind
    (λ (r : gmap Z FishGrowth) (_ : gmap Z SaleItem), ∀ item_id g,
       r !! item_id = Some g →
       ∃ entry fish_id name,
         entry ∈ growth_data
         ∧ g = fish_growth_of (fish_default_speedup nutrient_data) entry fish_id name)).
  - intros item_id g Hempty. by rewrite lookup_empty in Hempty.
  - intros k sale m r _ IH item_id g.
    destruct (negb _); [apply IH|].
    destruct (fish_growth_by_name _ _ _ !! _) as [growth|] eqn:Hname; [|apply IH].
    rewrite lookup_insert. case_decide; [|apply IH].
    intros [= <-]. by eapply fish_growth_by_name_lookup.
Qed.

(** *** Minutes per unit *)

(** *** Fish growth, by name *)

Lemma _load_sale_items_item_id (loc : Localization) (raw : list Raw.SaleInfo)
    (item_id : Z) (sale : SaleItem) :
  _load_sale_items loc raw !! item_id = Some sale → SaleItem.item_id sale = item_id.
Proof.
  intros Hsale. apply fold_insert_lookup in Hsale as [Hempty|(entry & _ & <- & <-)]; [|done].
  by rewrite lookup_empty in Hempty.
Qed.

Lemma fish_growth_by_name_key (loc : Localization) (growth_data : list Raw.FishConfig)
    (speedup : Z) (key : string) (growth : FishGrowth) :
  fish_growth_by_name loc growth_data speedup !! key = Some growth →
  FishGrowth.yield_per_cycle growth = of_Z 1
  ∧ Localization.lower (FishGrowth.name growth) = key.
Proof.
  unfold fish_growth_by_name.
  enough (Hgen : ∀ acc : gmap string FishGrowth,
    (∀ k g, acc !! k = Some g →
       FishGrowth.yield_per_cycle g = of_Z 1 ∧ Localization.lower (FishGrowth.name g) = k) →
    ∀ k g,
    fold_left
      (fun acc entry =>
         let fish_id := default 0 (Raw.fc_fish_id entry) in
         match Localization.get loc ("FISH_" +:+ Localization.str_of_int fish_id) with
         | None => acc
         | Some name =>
             if String.eqb name "" then acc
             else <[Localization.lower name :=
                      fish_growth_of speedup entry fish_id name]> acc
         end)
      growth_data acc !! k = Some g →
    FishGrowth.yield_per_cycle g = of_Z 1 ∧ Localization.lower (FishGrowth.name g) = k).
  { apply Hgen. intros k g Hk. by rewrite lookup_empty in Hk. }
  induction growth_data as [|entry rest IH]; intros acc Hacc k g; simpl; [apply Hacc|].
  apply IH. intros k' g'.
  destruct (Localization.get loc _) as [name|]; [|apply Hacc].
  destruct (String.eqb name ""); [apply Hacc|].
  rewrite lookup_insert. case_decide as Hkey; [|apply Hacc].
  intros [= <-]. by subst.
Qed.

Lemma _load_fish_growth_by_sale (loc : Localization) (sales : gmap Z SaleItem)
    (growth_data : list Raw.FishConfig) (nutrient_data : list Raw.FishNutrient) :
  (∀ k sale, sales !! k = Some sale → SaleItem.item_id sale = k) →
  ∀ item_id,
    _load_fish_growth loc sales growth_data nutrient_data !! item_id
    = sales !! item_id ≫= fish_growth_for loc growth_data nutrient_data.
Proof.
  unfold _load_fish_growth.
  apply (map_fold_weak_ind
    (λ (r : gmap Z FishGrowth) (m : gmap Z SaleItem),
       (∀ k sale, m !! k = Some sale → SaleItem.item_id sale = k) →
       ∀ item_id,
         r !! item_id = m !! item_id ≫= fish_growth_for loc growth_data nutrient_data)).
  - intros _ item_id. by rewrite !lookup_empty.
  - intros i sale m r Hfresh IH Hkeyed item_id.
    assert (SaleItem.item_id sale = i) as Hi.
    { apply Hkeyed. by rewrite lookup_insert_eq. }
    assert (∀ item_id, r !! item_id
              = m !! item_id ≫= fish_growth_for loc growth_data nutrient_data) as Hr.
    { apply IH. intros k s Hk. apply Hkeyed.
      rewrite lookup_insert_ne; [done|]. intros <-. by rewrite Hfresh in Hk. }
    destruct (decide (item_id = i)) as [->|Hne].
    + rewrite lookup_insert_eq. cbn [mbind option_bind]. unfold fish_growth_for.
      destruct (String.eqb (SaleItem.category sale) "fish"); cbn [negb].
      * destruct (fish_growth_by_name _ _ _ !! _).
        -- by rewrite Hi, lookup_insert_eq.
        -- by rewrite Hr, Hfresh.
      * by rewrite Hr, Hfresh.
    + rewrite (lookup_insert_ne m) by done. rewrite <- Hr.
      destruct (negb _); [done|].
      destruct (fish_growth_by_name _ _ _ !! _); [|done].
      rewrite Hi. by rewrite lookup_insert_ne.
Qed.

(** A growth record filed under a name comes from a row of the table
    whose fish has that name, lower-cased, in the localisation. *)
Lemma fish_growth_by_name_entry (loc : Localization) (growth_data : list Raw.FishConfig)
    (speedup : Z) (key : string) (growth : FishGrowth) :
  fish_growth_by_name loc growth_data speedup !! key = Some growth →
  ∃ entry name,
    entry ∈ growth_data
    ∧ Localization.get loc
        ("FISH_" +:+ Localization.str_of_int (default 0 (Raw.fc_fish_id entry))) = Some name
    ∧ name ≠ ""
    ∧ Localization.lower name = key
    ∧ growth = fish_growth_of speedup entry (default 0 (Raw.fc_fish_id entry)) name.
Proof.
  unfold fish_growth_by_name.
  enough (Hgen : ∀ acc : gmap string FishGrowth,
    fold_left
      (fun acc entry =>
         let fish_id := default 0 (Raw.fc_fish_id entry) in
         match Localization.get loc ("FISH_" +:+ Localization.str_of_int fish_id) with
         | None => acc
         | Some name =>
             if String.eqb name "" then acc
             else <[Localization.lower name :=
                      fish_growth_of speedup entry fish_id name]> acc
         end)
      growth_data acc !! key = Some growth →
    acc !! key = Some growth
    ∨ ∃ entry name,
        entry ∈ growth_data
        ∧ Localization.get loc
            ("FISH_" +:+ Localization.str_of_int (default 0 (Raw.fc_fish_id entry)))
          = Some name
        ∧ name ≠ ""
        ∧ Localization.lower name = key
        ∧ growth = fish_growth_of speedup entry (default 0 (Raw.fc_fish_id entry)) name).
  { intros [Hempty|?]%Hgen; [|done]. by rewrite lookup_empty in Hempty. }
  induction growth_data as [|entry rest IH]; intros acc; simpl; [by left|].
  intros [Hacc|(entry' & name & Hin & ?)]%IH.
  - destruct (Localization.get loc _) as [name|] eqn:Hname; [|by left].
    destruct (String.eqb_spec name "") as [|Hne]; [by left|].
    rewrite lookup_insert in Hacc. case_decide as Hkey; [|by left].
    injection Hacc as <-. right. exists entry, name.
    split; [apply list_elem_of_here | done].
  - right. exists entry', name. split; [by apply list_elem_of_further | done].
Qed.

Lemma clamped_minutes_nonneg cycle_seconds speedup yield :
  finite_nonneg yield → nonneg (clamped_minutes_per_unit cycle_seconds speedup yield).
Proof.
  intros Hy. unfold clamped_minutes_per_unit.
  destruct (fle yield zero) eqn:Hle; [done|].
  apply finite_nonneg_nonneg, finite_nonneg_fdiv.
  - apply finite_nonneg_fdiv; [apply finite_nonneg_of_Z; lia | by apply finite_positive_of_Z].
  - by apply finite_nonneg_not_le_zero.
Qed.

(** With a speed-up that does not exceed the raw time the clamp is idle
    and the specification's formula is the code's. *)
Lemma clamped_minutes_spec cycle_seconds speedup yield :
  speedup ≤ cycle_seconds →
  clamped_minutes_per_unit cycle_seconds speedup yield
  = spec_minutes_per_unit cycle_seconds speedup yield.
Proof.
  intros Hle. unfold clamped_minutes_per_unit, spec_minutes_per_unit.
  by rewrite Z.max_r by lia.
Qed.

Lemma Qc_of_Z_zero_div (b : Qc) : (Qc_of_Z 0 / b = 0)%Qc.
Proof. rewrite Z2Qc_inj_0. unfold Qcdiv. apply Qcmult_0_l. Qed.

(** With a speed-up at or above the raw time the unit costs no time when
    the yield is above zero. *)
Lemma clamped_minutes_zero cycle_seconds speedup yield :
  cycle_seconds ≤ speedup → finite_positive yield →
  clamped_minutes_per_unit cycle_seconds speedup yield = zero.
Proof.
  intros Hle (y & -> & Hy). unfold clamped_minutes_per_unit.
  assert (Hnle : fle (Fin y) zero = false).
  { simpl. apply not_true_iff_false. intros Hc%Qc_leb_le.
    by apply Qclt_not_le in Hy. }
  rewrite Hnle, Z.max_l by lia. simpl.
  rewrite (Qc_eqb_false_pos y Hy). unfold zero. f_equal.
  rewrite Qc_of_Z_zero_div. unfold Qcdiv. apply Qcmult_0_l.
Qed.

Lemma plant_minutes_per_item speedup entry h :
  PlantGrowth.minutes_per_item (plant_growth_of speedup entry h)
  = clamped_minutes_per_unit (plant_growth_time entry) speedup (plant_yield entry).
Proof. done. Qed.

Lemma fish_minutes_per_item speedup entry fish_id name :
  FishGrowth.minutes_per_item (fish_growth_of speedup entry fish_id name)
  = clamped_minutes_per_unit (default 0 (Raw.fc_growth_time entry)) speedup (of_Z 1).
Proof. done. Qed.

End GrowthFacts.

(** ** Plant and fish profiles *)

Module GrowthClaims.

Import Calculator Resolve Built Loaded Samples FloatFacts ResolveFacts ResolveClaims GrowthFacts.

(** What [compute_profile] returns for a plant and for a fish. *)
Lemma compute_profile_plant self cache item_id sale :
  cache_ok self cache →
  sale_items self !! item_id = Some sale →
  SaleItem.category sale = "plant" →
  ∃ p cache',
    compute_profile self cache item_id = Some (Some p, cache')
    ∧ ProductionProfile.facility_minutes p
      = ProductionProfile.facility_minutes (_build_plant_profile self sale)
    ∧ ProductionProfile.notes p = ProductionProfile.notes (_build_plant_profile self sale).
Proof.
  intros Hcache Hsale Hcat.
  destruct (compute_profile_sale self cache item_id sale Hcache Hsale) as (p & cache' & Hcall).
  exists p, cache'. split; [done|].
  destruct (compute_profile_made_for self _ _ _ _ Hcache Hcall)
    as (Hbuilt & sale' & Hsale' & Hid & Hcat' & _).
  rewrite Hsale in Hsale'. injection Hsale' as <-. rewrite Hcat in Hcat'.
  destruct Hbuilt as [s Hs|s Hs|s resolved Hs Hlen Hres|s Hp Hf Hfu];
    simpl in Hcat', Hid; try congruence.
  simpl. by rewrite Hid.
Qed.

Lemma compute_profile_fish self cache item_id sale :
  cache_ok self cache →
  sale_items self !! item_id = Some sale →
  SaleItem.category sale = "fish" →
  ∃ p cache',
    compute_profile self cache item_id = Some (Some p, cache')
    ∧ ProductionProfile.facility_minutes p
      = ProductionProfile.facility_minutes (_build_fish_profile self sale)
    ∧ ProductionProfile.notes p = ProductionProfile.notes (_build_fish_profile self sale).
Proof.
  intros Hcache Hsale Hcat.
  destruct (compute_profile_sale self cache item_id sale Hcache Hsale) as (p & cache' & Hcall).
  exists p, cache'. split; [done|].
  destruct (compute_profile_made_for self _ _ _ _ Hcache Hcall)
    as (Hbuilt & sale' & Hsale' & Hid & Hcat' & _).
  rewrite Hsale in Hsale'. injection Hsale' as <-. rewrite Hcat in Hcat'.
  destruct Hbuilt as [s Hs|s Hs|s resolved Hs Hlen Hres|s Hp Hf Hfu];
    simpl in Hcat', Hid; try congruence.
  simpl. by rewrite Hid.
Qed.

(** C2, as the claim states it, fails: plant 104 of the sample game
    grows in 300 seconds and the free nutrient takes 600 seconds off.  The
    profile's plant-plot minutes are 0, where the unclamped formula
    (300 − 600)/60/1 gives −5. *)
Lemma unclamped_formula_fails :
  let entry := Raw.mkPlantProcess (Some 104) [Some 300] (Some "1") 4 [] in
  entry ∈ Raw.TbPlantingGrowthProcess sample_datasets
  ∧ ∃ p cache',
      compute_profile sample_calculator ∅ 104 = Some (Some p, cache')
      ∧ ProductionProfile.facility_minutes p !! PLANT_FACILITY = Some zero
      ∧ spec_minutes_per_unit (plant_growth_time entry)
          (plant_default_speedup (Raw.TbPlantingNutrient sample_datasets))
          (plant_yield entry) = of_Z (-5)
      ∧ zero ≠ of_Z (-5).
Proof.
  intros entry. split.
  { cbn. do 2 apply list_elem_of_further. apply list_elem_of_here. }
  do 2 eexists. split; [vm_compute; reflexivity|].
  split; [|split].
  - float_eq.
  - float_eq.
  - intros [=].
Qed.

(** C2 (amended). For a calculator loaded from any datasets: a plant with
    growth data costs, per unit, max(0, summed stage seconds − default
    plant speed-up)/60 divided by the average yield at the plant plot, the
    seconds and the yield being those of a row of the growth table that
    names the plant and makes its growth record; a fish matched to growth
    data costs max(0, growth seconds − default fish speed-up)/60 at the
    fish pond, the yield being 1 and the seconds those of the row that
    makes the fish's growth record, a row whose fish has, in the
    localisation, a non-empty name equal to the sale item's name up to
    case; the value is +infinity whenever the yield is <= 0; whenever the
    speed-up does not exceed the raw time this is the unclamped formula;
    and 6600 seconds with a 600-second speed-up and yield 3 give
    100/3 = 33.33… minutes. *)
Theorem minutes_per_unit_clamped (loader : Raw.Datasets) (loc : Localization)
    (cache : gmap Z ProductionProfile) (item_id : Z) (sale : SaleItem) :
  let self := Calculator.init loader loc in
  reachable self cache →
  sale_items self !! item_id = Some sale →
  (SaleItem.category sale = "plant" →
   is_Some (plant_growth self !! SaleItem.item_id sale) →
   ∃ entry p cache',
     entry ∈ Raw.TbPlantingGrowthProcess loader
     ∧ Raw.pp_harvest_item entry = Some (SaleItem.item_id sale)
     ∧ plant_growth self !! SaleItem.item_id sale
       = Some (plant_growth_of (plant_default_speedup (Raw.TbPlantingNutrient loader))
                 entry (SaleItem.item_id sale))
     ∧ compute_profile self cache item_id = Some (Some p, cache')
     ∧ ProductionProfile.facility_minutes p !! PLANT_FACILITY
       = Some (clamped_minutes_per_unit (plant_growth_time entry)
                 (plant_default_speedup (Raw.TbPlantingNutrient loader))
                 (plant_yield entry)))
  ∧ (SaleItem.category sale = "fish" →
     is_Some (fish_growth self !! SaleItem.item_id sale) →
     ∃ entry name p cache',
       entry ∈ Raw.TbHomeFishGrowthConfig loader
       ∧ Localization.get loc
           ("FISH_" +:+ Localization.str_of_int (default 0 (Raw.fc_fish_id entry)))
         = Some name
       ∧ name ≠ ""
       ∧ Localization.lower name = Localization.lower (SaleItem.name sale)
       ∧ fish_growth self !! SaleItem.item_id sale
         = Some (fish_growth_of (fish_default_speedup (Raw.TbHomeFishNutrientConfig loader))
                   entry (default 0 (Raw.fc_fish_id entry)) name)
       ∧ compute_profile self cache item_id = Some (Some p, cache')
       ∧ ProductionProfile.facility_minutes p !! FISH_FACILITY
         = Some (clamped_minutes_per_unit (default 0 (Raw.fc_growth_time entry))
                   (fish_default_speedup (Raw.TbHomeFishNutrientConfig loader))
                   (of_Z 1)))
  ∧ (∀ seconds speedup yield,
       fle yield zero = true → clamped_minutes_per_unit seconds speedup yield = PInf)
  ∧ (∀ seconds speedup yield,
       speedup ≤ seconds →
       clamped_minutes_per_unit seconds speedup yield
       = spec_minutes_per_unit seconds speedup yield)
  ∧ clamped_minutes_per_unit 6600 600 (of_Z 3) = of_Q (100 # 3).
Proof.
  intros self Hreach Hsale. apply reachable_cache_ok in Hreach.
  split; [|split; [|split; [|split]]].
  - intros Hcat [g Hg].
    destruct (compute_profile_plant self cache item_id sale Hreach Hsale Hcat)
      as (p & cache' & Hcall & Hfm & _).
    destruct (_load_plant_growth_lookup _ _ _ _ Hg) as (entry & Hin & Hh & ->).
    exists entry, p, cache'. split; [done|]. split; [done|]. split; [done|].
    split; [done|].
    rewrite Hfm. unfold _build_plant_profile. cbn [ProductionProfile.facility_minutes].
    rewrite Hg. by rewrite lookup_singleton_eq.
  - intros Hcat [g Hg].
    destruct (compute_profile_fish self cache item_id sale Hreach Hsale Hcat)
      as (p & cache' & Hcall & Hfm & _).
    assert (Hmatch := Hg). cbn [fish_growth self Calculator.init] in Hmatch.
    rewrite (_load_fish_growth_by_sale loc _ _ _ (_load_sale_items_item_id loc _)) in Hmatch.
    assert (SaleItem.item_id sale = item_id) as Hid.
    { by apply (_load_sale_items_item_id loc (Raw.TbHomeProductsSaleInfo loader)). }
    rewrite Hid in Hmatch. cbn [sale_items self Calculator.init] in Hsale.
    rewrite Hsale in Hmatch. cbn [mbind option_bind] in Hmatch.
    unfold fish_growth_for in Hmatch.
    destruct (String.eqb (SaleItem.category sale) "fish"); [|done].
    apply fish_growth_by_name_entry in Hmatch as (entry & name & Hin & Hname & Hne & Hlow & ->).
    exists entry, name, p, cache'.
    split; [done|]. split; [done|]. split; [done|]. split; [done|]. split; [done|].
    split; [done|].
    rewrite Hfm. unfold _build_fish_profile. cbn [ProductionProfile.facility_minutes].
    rewrite Hg. by rewrite lookup_singleton_eq.
  - intros seconds speedup yield Hle. unfold clamped_minutes_per_unit. by rewrite Hle.
  - apply clamped_minutes_spec.
  - float_eq.
Qed.

Lemma minutes_per_unit_clamped_witness :
  (∃ p cache',
     compute_profile sample_calculator ∅ 101 = Some (Some p, cache')
     ∧ ProductionProfile.facility_minutes p !! PLANT_FACILITY = Some (of_Q (100 # 3)))
  ∧ (∃ p cache',
       compute_profile sample_calculator ∅ 201 = Some (Some p, cache')
       ∧ ProductionProfile.facility_minutes p !! FISH_FACILITY = Some (of_Z 100)).
Proof.
  split.
  - destruct (minutes_per_unit_clamped sample_datasets sample_localization ∅ 101
                (sale_item_of sample_localization (sale_row 101 34 10)))
      as (Hplant & _).
    + apply reachable_init.
    + vm_compute. reflexivity.
    + destruct Hplant as (entry & p & cache' & Hin & Hh & _ & Hcall & Hfm).
      * reflexivity.
      * vm_compute. eauto.
      * exists p, cache'. split; [exact Hcall|].
        rewrite Hfm. f_equal.
        cbn in Hin.
        apply elem_of_cons in Hin as [->|Hin]; [float_eq|].
        apply elem_of_cons in Hin as [->|Hin]; [discriminate Hh|].
        apply elem_of_cons in Hin as [->|Hin]; [discriminate Hh|].
        by apply elem_of_nil in Hin.
  - destruct (minutes_per_unit_clamped sample_datasets sample_localization ∅ 201
                (sale_item_of sample_localization (sale_row 201 47 40)))
      as (_ & Hfish & _).
    + apply reachable_init.
    + vm_compute. reflexivity.
    + destruct Hfish as (entry & name & p & cache' & Hin & _ & _ & _ & _ & Hcall & Hfm).
      * reflexivity.
      * vm_compute. eauto.
      * exists p, cache'. split; [exact Hcall|].
        rewrite Hfm. f_equal.
        cbn in Hin.
        apply elem_of_cons in Hin as [->|Hin]; [float_eq|].
        by apply elem_of_nil in Hin.
Defined.

(** C7, as the claim states it, fails: plant 102 of the sample game has
    growth data whose harvest estimate reads "0".  Its yield computes to
    0, its plant-plot minutes are +infinity, and its profile carries no
    note. *)
Lemma zero_yield_has_no_note :
  let entry := Raw.mkPlantProcess (Some 102) [Some 3600] (Some "0") 2 [] in
  entry ∈ Raw.TbPlantingGrowthProcess sample_datasets
  ∧ plant_yield entry = zero
  ∧ ∃ p cache',
      compute_profile sample_calculator ∅ 102 = Some (Some p, cache')
      ∧ ProductionProfile.category p = "plant"
      ∧ ProductionProfile.facility_minutes p !! PLANT_FACILITY = Some PInf
      ∧ ProductionProfile.notes p = [].
Proof.
  intros entry. split; [|split].
  { cbn. apply list_elem_of_further, list_elem_of_here. }
  { float_eq. }
  do 2 eexists. split; [vm_compute; reflexivity|].
  split; [reflexivity|]. split; reflexivity.
Qed.

(** C7 (amended). A plant or fish sale item always resolves to a profile.
    Without growth data the profile has no facility entry and carries the
    explanatory note.  With growth data the profile carries no note, and
    its one facility entry is the growth record's minutes per item, which
    is +infinity when the yield is <= 0. *)
Theorem missing_growth_note (self : Calculator.t) (cache : gmap Z ProductionProfile)
    (item_id : Z) (sale : SaleItem) :
  reachable self cache →
  sale_items self !! item_id = Some sale →
  (SaleItem.category sale = "plant" →
   ∃ p cache',
     compute_profile self cache item_id = Some (Some p, cache')
     ∧ match plant_growth self !! SaleItem.item_id sale with
       | None =>
           ProductionProfile.facility_minutes p = ∅
           ∧ ProductionProfile.notes p
             = ["No planting data available; timing estimates missing."]
       | Some g =>
           ProductionProfile.facility_minutes p
           = {[ PLANT_FACILITY := PlantGrowth.minutes_per_item g ]}
           ∧ ProductionProfile.notes p = []
           ∧ (fle (PlantGrowth.average_yield g) zero = true →
              ProductionProfile.facility_minutes p !! PLANT_FACILITY = Some PInf)
       end)
  ∧ (SaleItem.category sale = "fish" →
     ∃ p cache',
       compute_profile self cache item_id = Some (Some p, cache')
       ∧ match fish_growth self !! SaleItem.item_id sale with
         | None =>
             ProductionProfile.facility_minutes p = ∅
             ∧ ProductionProfile.notes p
               = ["No fish growth data available; timing estimates missing."]
         | Some g =>
             ProductionProfile.facility_minutes p
             = {[ FISH_FACILITY := FishGrowth.minutes_per_item g ]}
             ∧ ProductionProfile.notes p = []
             ∧ (fle (FishGrowth.yield_per_cycle g) zero = true →
                ProductionProfile.facility_minutes p !! FISH_FACILITY = Some PInf)
         end).
Proof.
  intros Hreach Hsale. apply reachable_cache_ok in Hreach. split; intros Hcat.
  - destruct (compute_profile_plant self cache item_id sale Hreach Hsale Hcat)
      as (p & cache' & Hcall & Hfm & Hnotes).
    exists p, cache'. split; [done|]. rewrite Hfm, Hnotes. simpl.
    destruct (plant_growth self !! SaleItem.item_id sale) as [g|]; [|done].
    split; [done|]. split; [done|]. intros Hle.
    rewrite lookup_singleton_eq. unfold PlantGrowth.minutes_per_item. by rewrite Hle.
  - destruct (compute_profile_fish self cache item_id sale Hreach Hsale Hcat)
      as (p & cache' & Hcall & Hfm & Hnotes).
    exists p, cache'. split; [done|]. rewrite Hfm, Hnotes. simpl.
    destruct (fish_growth self !! SaleItem.item_id sale) as [g|]; [|done].
    split; [done|]. split; [done|]. intros Hle.
    rewrite lookup_singleton_eq. unfold FishGrowth.minutes_per_item. by rewrite Hle.
Qed.

Lemma missing_growth_note_witness :
  (∃ p cache',
     compute_profile sample_calculator ∅ 103 = Some (Some p, cache')
     ∧ ProductionProfile.facility_minutes p = ∅
     ∧ ProductionProfile.notes p
       = ["No planting data available; timing estimates missing."])
  ∧ (∃ p cache',
       compute_profile sample_calculator ∅ 202 = Some (Some p, cache')
       ∧ ProductionProfile.facility_minutes p = ∅
       ∧ ProductionProfile.notes p
         = ["No fish growth data available; timing estimates missing."]).
Proof.
  split.
  - destruct (missing_growth_note sample_calculator ∅ 103
                (sale_item_of sample_localization (sale_row 103 34 10)))
      as ((p & cache' & Hcall & Hgrowth) & _);
      [apply reachable_init | vm_compute; reflexivity | reflexivity |].
    exists p, cache'. split; [exact Hcall | exact Hgrowth].
  - destruct (missing_growth_note sample_calculator ∅ 202
                (sale_item_of sample_localization (sale_row 202 47 40)))
      as (_ & (p & cache' & Hcall & Hgrowth));
      [apply reachable_init | vm_compute; reflexivity | reflexivity |].
    exists p, cache'. split; [exact Hcall | exact Hgrowth].
Defined.

(** *** No negative minutes *)

Lemma nonneg_inv x : nonneg x → x = PInf ∨ finite_nonneg x.
Proof.
  unfold nonneg. destruct x as [a| | |]; simpl; try done; [|by left].
  intros Ha%Qc_leb_le. right. by exists a.
Qed.

Lemma nonneg_fadd x y : nonneg x → nonneg y → nonneg (x + y)%float.
Proof.
  intros [->|(a & -> & Ha)]%nonneg_inv [->|(b & -> & Hb)]%nonneg_inv; try done.
  apply finite_nonneg_nonneg, finite_nonneg_fadd; by eexists.
Qed.

Lemma nonneg_fmul x q : nonneg x → finite_positive q → nonneg (x * q)%float.
Proof.
  intros [->|(a & -> & Ha)]%nonneg_inv (b & -> & Hb); simpl.
  - unfold inf_times. rewrite (Qc_eqb_false_pos b Hb).
    by rewrite (proj2 (Qc_ltb_lt 0 b) Hb).
  - apply finite_nonneg_nonneg. eexists. split; [done|].
    apply Qcmult_nonneg_nonneg; [done | by apply Qclt_le_weak].
Qed.

Lemma nonneg_minutes_at (fm : gmap string float) f :
  (∀ f' m, fm !! f' = Some m → nonneg m) → nonneg (minutes_at fm f).
Proof.
  intros Hfm. unfold minutes_at.
  destruct (fm !! f) as [m|] eqn:Hf; [by eapply Hfm | apply nonneg_zero].
Qed.

Lemma step_minutes_nonneg req cp (fm : gmap string float) :
  finite_positive (MaterialRequirement.quantity req) →
  (∀ p, cp = Some p → minutes_nonneg p) →
  (∀ f m, fm !! f = Some m → nonneg m) →
  ∀ f m, step_minutes req cp fm !! f = Some m → nonneg m.
Proof.
  intros Hq Hcp Hfm f m. unfold step_minutes. destruct cp as [p|]; [|apply Hfm].
  rewrite add_component_minutes_lookup.
  destruct (ProductionProfile.facility_minutes p !! f) as [m'|] eqn:Hm'; [|apply Hfm].
  intros [= <-]. apply nonneg_fadd; [by apply nonneg_minutes_at|].
  apply nonneg_fmul; [|done]. by eapply (Hcp p).
Qed.

Lemma fold_step_minutes_nonneg (materials : list MaterialRequirement) :
  Forall (λ req, finite_positive (MaterialRequirement.quantity req)) materials →
  ∀ (resolved : list (option ProductionProfile)) (fm : gmap string float),
    (∀ i p, resolved !! i = Some (Some p) → minutes_nonneg p) →
    (∀ f m, fm !! f = Some m → nonneg m) →
    ∀ f m,
      fold_left (fun acc rc => step_minutes rc.1 rc.2 acc) (zip materials resolved) fm !! f
      = Some m →
      nonneg m.
Proof.
  induction 1 as [|req rest Hq _ IH]; intros [|cp resolved] fm Hres Hfm; simpl;
    try apply Hfm.
  apply IH.
  - intros i p Hi. by apply (Hres (S i)).
  - apply step_minutes_nonneg; [done | | done].
    intros p ->. by apply (Hres 0%nat).
Qed.

Section loaded.

Variables (loader : Raw.Datasets) (loc : Localization).

Local Abbreviation self := (Calculator.init loader loc).

Lemma plant_growth_clamped h g :
  plant_growth self !! h = Some g →
  let speedup := plant_default_speedup (Raw.TbPlantingNutrient loader) in
  PlantGrowth.accelerated_time_sec g = Z.max 0 (PlantGrowth.growth_time_sec g - speedup)
  ∧ nonneg (PlantGrowth.minutes_per_item g)
  ∧ (PlantGrowth.growth_time_sec g ≤ speedup →
     fle (PlantGrowth.average_yield g) zero = false →
     PlantGrowth.minutes_per_item g = zero).
Proof.
  intros Hg speedup.
  apply _load_plant_growth_lookup in Hg as (entry & _ & _ & ->).
  split; [done|]. rewrite plant_minutes_per_item. split.
  - apply clamped_minutes_nonneg, plant_yield_nonneg.
  - intros Hle Hyield. apply clamped_minutes_zero; [done|].
    apply finite_nonneg_not_le_zero; [apply plant_yield_nonneg | done].
Qed.

Lemma fish_growth_clamped item_id g :
  fish_growth self !! item_id = Some g →
  let speedup := fish_default_speedup (Raw.TbHomeFishNutrientConfig loader) in
  FishGrowth.accelerated_time_sec g = Z.max 0 (FishGrowth.growth_time_sec g - speedup)
  ∧ FishGrowth.yield_per_cycle g = of_Z 1
  ∧ nonneg (FishGrowth.minutes_per_item g)
  ∧ (FishGrowth.growth_time_sec g ≤ speedup → FishGrowth.minutes_per_item g = zero).
Proof.
  intros Hg speedup.
  apply _load_fish_growth_lookup in Hg as (entry & fish_id & name & _ & ->).
  split; [done|]. split; [done|]. rewrite fish_minutes_per_item. split.
  - apply clamped_minutes_nonneg, finite_nonneg_of_Z. lia.
  - intros Hle. apply clamped_minutes_zero; [done|]. by apply finite_positive_of_Z.
Qed.

Lemma plant_profile_nonneg sale : minutes_nonneg (_build_plant_profile self sale).
Proof.
  intros f m. unfold _build_plant_profile. cbn [ProductionProfile.facility_minutes].
  destruct (plant_growth self !! SaleItem.item_id sale) as [g|] eqn:Hg.
  - intros [Hkey Hval]%lookup_singleton_Some. subst. by apply (plant_growth_clamped _ _ Hg).
  - by rewrite lookup_empty.
Qed.

Lemma fish_profile_nonneg sale : minutes_nonneg (_build_fish_profile self sale).
Proof.
  intros f m. unfold _build_fish_profile. cbn [ProductionProfile.facility_minutes].
  destruct (fish_growth self !! SaleItem.item_id sale) as [g|] eqn:Hg.
  - intros [Hkey Hval]%lookup_singleton_Some. subst. by apply (fish_growth_clamped _ _ Hg).
  - by rewrite lookup_empty.
Qed.

Lemma craft_minutes_nonneg item_id :
  recipes_nonneg loader → nonneg (craft_minutes self item_id).
Proof.
  intros Hrecipes. unfold craft_minutes.
  destruct (_furniture_time self !! item_id) as [t|] eqn:Ht; [|apply nonneg_zero].
  apply fold_insert_lookup in Ht as [Hempty|(row & Hrow & _ & <-)].
  - by rewrite lookup_empty in Hempty.
  - by destruct (Hrecipes row Hrow).
Qed.

Lemma materials_positive sale :
  recipes_nonneg loader →
  Forall (λ req, finite_positive (MaterialRequirement.quantity req)) (materials_of self sale).
Proof.
  intros Hrecipes. unfold materials_of.
  destruct (furniture_recipes self !! SaleItem.item_id sale) as [mats|] eqn:Hm; [|constructor].
  apply fold_insert_lookup in Hm as [Hempty|(row & Hrow & _ & <-)].
  - by rewrite lookup_empty in Hempty.
  - destruct (Hrecipes row Hrow) as [_ Hmats].
    apply list.Forall_forall. intros req (material & -> & Hmat)%list_elem_of_fmap.
    by apply Hmats.
Qed.

Lemma built_nonneg p : recipes_nonneg loader → built self p → minutes_nonneg p.
Proof.
  intros Hrecipes.
  induction 1 as [sale _|sale _|sale resolved _ _ _ IH|sale _ _ _].
  - apply plant_profile_nonneg.
  - apply fish_profile_nonneg.
  - intros f m. simpl. unfold furniture_minutes.
    apply fold_step_minutes_nonneg; [by apply materials_positive | exact IH |].
    intros f' m' [Hkey Hval]%lookup_singleton_Some. subst. by apply craft_minutes_nonneg.
  - intros f m. simpl. by rewrite lookup_empty.
Qed.

Lemma built_other_nonneg p :
  built self p → ProductionProfile.category p ≠ "furniture" → minutes_nonneg p.
Proof.
  destruct 1 as [sale _|sale _|sale resolved Hcat _ _|sale _ _ _]; intros Hother.
  - apply plant_profile_nonneg.
  - apply fish_profile_nonneg.
  - done.
  - intros f m. simpl. by rewrite lookup_empty.
Qed.

End loaded.

(** C10, as the claim states it, fails: the clamp is on growth times
    only.  Item 304 of the sample game is a piece of furniture whose craft
    time is recorded as −5; its crafting minutes are −5. *)
Lemma negative_craft_time_kept :
  Raw.mkFurnitureMake 304 [Raw.mkMaterial 101 (Some (of_Z 1))] (Some (of_Z (-5)))
    ∈ Raw.TbFurnitureTableMakeInfo sample_datasets
  ∧ ∃ p cache',
      compute_profile sample_calculator ∅ 304 = Some (Some p, cache')
      ∧ ProductionProfile.facility_minutes p !! CRAFT_FACILITY = Some (of_Z (-5))
      ∧ fle zero (of_Z (-5)) = false.
Proof.
  split.
  { cbn. do 3 apply list_elem_of_further. apply list_elem_of_here. }
  do 2 eexists. split; [vm_compute; reflexivity|]. split; [float_eq | reflexivity].
Qed.

(** C10 (amended). In a calculator loaded from any datasets, every plant
    and fish growth record has its accelerated time clamped at zero,
    max(0, raw seconds − default speed-up); its minutes per item are >= 0
    (possibly +infinity), and are 0 when the speed-up reaches the raw time
    (for a plant with a yield <= 0: +infinity).  A call of
    [compute_profile] returns, and every facility-minutes value of a profile
    it returns is >= 0 when the profile is not furniture, and also when it
    is, provided the recipe table holds no negative craft time and only
    finite quantities above zero.  Craft times and quantities themselves
    are not clamped. *)
Theorem facility_minutes_nonneg (loader : Raw.Datasets) (loc : Localization)
    (cache : gmap Z ProductionProfile) (item_id : Z) :
  let self := Calculator.init loader loc in
  let plant_speedup := plant_default_speedup (Raw.TbPlantingNutrient loader) in
  let fish_speedup := fish_default_speedup (Raw.TbHomeFishNutrientConfig loader) in
  reachable self cache →
  (∀ h g, plant_growth self !! h = Some g →
     PlantGrowth.accelerated_time_sec g
     = Z.max 0 (PlantGrowth.growth_time_sec g - plant_speedup)
     ∧ nonneg (PlantGrowth.minutes_per_item g)
     ∧ (PlantGrowth.growth_time_sec g ≤ plant_speedup →
        if fle (PlantGrowth.average_yield g) zero
        then PlantGrowth.minutes_per_item g = PInf
        else PlantGrowth.minutes_per_item g = zero))
  ∧ (∀ i g, fish_growth self !! i = Some g →
       FishGrowth.accelerated_time_sec g
       = Z.max 0 (FishGrowth.growth_time_sec g - fish_speedup)
       ∧ nonneg (FishGrowth.minutes_per_item g)
       ∧ (FishGrowth.growth_time_sec g ≤ fish_speedup →
          FishGrowth.minutes_per_item g = zero))
  ∧ ∃ r cache',
      compute_profile self cache item_id = Some (r, cache')
      ∧ ∀ p, r = Some p →
          (ProductionProfile.category p ≠ "furniture" → minutes_nonneg p)
          ∧ (recipes_nonneg loader → minutes_nonneg p).
Proof.
  intros self plant_speedup fish_speedup Hreach.
  apply reachable_cache_ok in Hreach.
  split; [|split].
  - intros h g Hg. destruct (plant_growth_clamped loader loc h g Hg) as (Hacc & Hnn & Hzero).
    split; [done|]. split; [done|]. intros Hle.
    destruct (fle (PlantGrowth.average_yield g) zero) eqn:Hyield; [|by apply Hzero].
    unfold PlantGrowth.minutes_per_item. by rewrite Hyield.
  - intros i g Hg. destruct (fish_growth_clamped loader loc i g Hg) as (Hacc & _ & Hnn & Hzero).
    done.
  - destruct (compute_profile_total self cache item_id) as (r & cache' & Hcall).
    exists r, cache'. split; [done|]. intros p ->.
    destruct (compute_profile_made_for self _ _ _ _ Hreach Hcall) as (Hbuilt & _).
    split.
    + intros Hother. by apply (built_other_nonneg loader loc).
    + intros Hrecipes. by apply (built_nonneg loader loc).
Qed.

Lemma facility_minutes_nonneg_witness :
  (∃ p cache',
     compute_profile sample_calculator ∅ 104 = Some (Some p, cache')
     ∧ minutes_nonneg p)
  ∧ ∀ g, plant_growth sample_calculator !! 104 = Some g →
         PlantGrowth.accelerated_time_sec g = 0
         ∧ PlantGrowth.minutes_per_item g = zero.
Proof.
  destruct (facility_minutes_nonneg sample_datasets sample_localization ∅ 104
              (reachable_init _)) as (Hplant & _ & r & cache' & Hcall & Hprofile).
  split.
  - assert (Hrun := Hcall). vm_compute in Hrun.
    destruct r as [p|]; [|discriminate Hrun].
    exists p, cache'. split; [exact Hcall|].
    destruct (Hprofile p eq_refl) as [Hother _].
    apply Hother. injection Hrun as <- _. discriminate.
  - intros g Hg. destruct (Hplant 104 g Hg) as (Hacc & _ & Hzero).
    vm_compute in Hg. injection Hg as <-. split; [reflexivity|].
    apply Hzero. vm_compute. discriminate.
Defined.

End GrowthClaims.

(** ** The optimiser's result *)

Module OptimizerFacts.

Import Optimizer Plan Report Accumulate Samples FloatFacts.

Lemma add_usage_lookup (usage facility_usage : gmap string float) (f : string) :
  add_usage usage facility_usage !! f
  = match usage !! f with
    | Some amount => Some (minutes_at facility_usage f + amount)%float
    | None => facility_usage !! f
    end.
Proof.
  unfold add_usage. revert f.
  apply (map_fold_weak_ind
    (λ r m, ∀ f, r !! f = match m !! f with
                          | Some amount => Some (minutes_at facility_usage f + amount)%float
                          | None => facility_usage !! f
                          end)).
  - intros f. by rewrite lookup_empty.
  - intros i x m r Hfresh IH f. rewrite !lookup_insert. case_decide as Hi.
    + subst i. unfold minutes_at. by rewrite (IH f), Hfresh.
    + apply IH.
Qed.

Lemma item_usage_lookup (profile : ProductionProfile) (value : float) (f : string) :
  item_usage profile value !! f
  = match ProductionProfile.facility_minutes profile !! f with
    | Some minutes => if fgt minutes zero then Some (minutes * value)%float else None
    | None => None
    end.
Proof.
  unfold item_usage. rewrite lookup_fmap, map_lookup_filter.
  destruct (ProductionProfile.facility_minutes profile !! f) as [m|]; cbn -[fgt fmul]; [|done].
  destruct (fgt m zero) eqn:Hpos.
  - by rewrite option_guard_True.
  - rewrite option_guard_False; [done | congruence].
Qed.

(** [value or 0.0] is the value, with [None] read as [0.0]. *)
Lemma solved_value_default solution profile :
  solved_value solution profile
  = default zero (Lp.value solution (ProductionProfile.item_id profile)).
Proof.
  unfold solved_value. destruct (Lp.value solution _) as [[a| | |]|]; simpl; try done.
  destruct (Qc_eqb a 0) eqn:Ha; simpl; [|done].
  apply Qc_eqb_eq in Ha. by subst a.
Qed.

Lemma collect_items bonus_set solution ordered :
  ∀ items usage total,
    (collect bonus_set solution ordered items usage total).1.1
    = items ++ selected bonus_set solution ordered.
Proof.
  induction ordered as [|profile rest IH]; intros items usage total; simpl.
  - by rewrite app_nil_r.
  - destruct (fle (solved_value solution profile) tolerance); [apply IH|].
    rewrite IH, <- app_assoc. done.
Qed.

(** The usage entry of a facility after the loop: every item that is
    reported, in the order of the profiles, has added its own entry to the
    one the loop started from. *)
Lemma collect_usage bonus_set solution ordered (f : string) :
  ∀ items usage total,
    (collect bonus_set solution ordered items usage total).1.2 !! f
    = fold_left (usage_step f) (selected bonus_set solution ordered) (usage !! f).
Proof.
  induction ordered as [|profile rest IH]; intros items usage total; simpl; [done|].
  destruct (fle (solved_value solution profile) tolerance); [apply IH|].
  rewrite IH. cbn [fold_left]. f_equal.
  rewrite add_usage_lookup. unfold usage_step, minutes_at.
  cbn [optimized_item OptimizedItem.facility_minutes OptimizedItem.profile
       OptimizedItem.units].
  rewrite item_usage_lookup.
  destruct (ProductionProfile.facility_minutes profile !! f) as [m|]; [|done].
  by destruct (fgt m zero).
Qed.

(** The total after the loop: the astralite of every reported item, added
    in the order of the profiles. *)
Lemma collect_total bonus_set solution ordered :
  ∀ items usage total,
    (collect bonus_set solution ordered items usage total).2
    = fold_left fadd (map OptimizedItem.astralite (selected bonus_set solution ordered))
                total.
Proof.
  induction ordered as [|profile rest IH]; intros items usage total; simpl; [done|].
  destruct (fle (solved_value solution profile) tolerance); [apply IH|].
  by rewrite IH.
Qed.

Lemma usage_steps_default (f : string) (items : list OptimizedItem) :
  ∀ entry : option float,
    default zero (fold_left (usage_step f) items entry)
    = fold_left (add_positive_minutes f) items (default zero entry).
Proof.
  induction items as [|item rest IH]; intros entry; cbn [fold_left]; [done|].
  rewrite IH. f_equal. unfold usage_step, add_positive_minutes.
  destruct (ProductionProfile.facility_minutes _ !! f) as [m|]; [|done].
  by destruct (fgt m zero).
Qed.

Lemma insert_by_astralite_Permutation x l : Permutation (x :: l) (insert_by_astralite x l).
Proof.
  induction l as [|y l IH]; simpl; [done|].
  destruct (flt _ _); [|done]. rewrite perm_swap. by constructor.
Qed.

Lemma sort_by_astralite_Permutation l : Permutation l (sort_by_astralite l).
Proof.
  induction l as [|x l IH]; simpl; [done|].
  rewrite <- insert_by_astralite_Permutation. by constructor.
Qed.

(** The optimal branch: what [finish] returns when the solver reports
    status 1. *)
Lemma finish_optimal bonus_set capacities ordered solution :
  Lp.status_code solution = 1 →
  let result := finish bonus_set capacities ordered solution in
  OptimizationResult.status result = "Optimal"
  ∧ Permutation (selected bonus_set solution ordered) (OptimizationResult.items result)
  ∧ OptimizationResult.items result
    = sort_by_astralite (selected bonus_set solution ordered).
Proof.
  intros Hcode. unfold finish. rewrite Hcode. simpl.
  destruct (collect _ _ _ _ _ _) as [[items usage] total] eqn:Hcollect. simpl.
  pose proof (collect_items bonus_set solution ordered [] ((λ _, zero) <$> capacities) zero)
    as Hitems.
  rewrite Hcollect in Hitems. simpl in Hitems. subst items.
  split; [done|]. split; [apply sort_by_astralite_Permutation | done].
Qed.

Lemma finish_usage bonus_set capacities ordered solution (f : string) :
  Lp.status_code solution = 1 →
  OptimizationResult.facility_usage (finish bonus_set capacities ordered solution) !! f
  = fold_left (usage_step f) (selected bonus_set solution ordered)
              (usage_entry capacities f).
Proof.
  intros Hcode. unfold finish. rewrite Hcode. cbn [Z.eqb Pos.eqb].
  pose proof (collect_usage bonus_set solution ordered f [] ((λ _, zero) <$> capacities) zero)
    as Husage.
  destruct (collect _ _ _ _ _ _) as [[items usage] total].
  cbn [fst snd OptimizationResult.facility_usage] in *. rewrite Husage. f_equal.
  unfold usage_entry. rewrite lookup_fmap. by destruct (capacities !! f).
Qed.

Lemma finish_total bonus_set capacities ordered solution :
  Lp.status_code solution = 1 →
  OptimizationResult.total_astralite (finish bonus_set capacities ordered solution)
  = fsum (map OptimizedItem.astralite (selected bonus_set solution ordered)).
Proof.
  intros Hcode. unfold finish. rewrite Hcode. cbn [Z.eqb Pos.eqb].
  pose proof (collect_total bonus_set solution ordered [] ((λ _, zero) <$> capacities) zero)
    as Htotal.
  destruct (collect _ _ _ _ _ _) as [[items usage] total].
  cbn [snd OptimizationResult.total_astralite] in *. by rewrite Htotal.
Qed.

(** The other branch: no items, whatever the solver says. *)
Lemma finish_not_optimal bonus_set capacities ordered solution :
  Lp.status_code solution ≠ 1 →
  OptimizationResult.items (finish bonus_set capacities ordered solution) = [].
Proof.
  intros Hcode. unfold finish.
  by destruct (Z.eqb_spec (Lp.status_code solution) 1).
Qed.

(** Every reported item is the [OptimizedItem] of one of the ordered
    profiles at its solved quantity. *)
Lemma finish_items bonus_set capacities ordered solution item :
  item ∈ OptimizationResult.items (finish bonus_set capacities ordered solution) →
  ∃ profile, profile ∈ ordered
             ∧ item = optimized_item bonus_set profile (solved_value solution profile).
Proof.
  destruct (Z.eq_dec (Lp.status_code solution) 1) as [Hcode|Hcode].
  - destruct (finish_optimal bonus_set capacities ordered solution Hcode) as (_ & Hperm & _).
    rewrite <- Hperm. unfold selected. rewrite list_elem_of_omap.
    intros (profile & Hin & Hsel). exists profile. split; [done|].
    destruct (fle _ _); congruence.
  - rewrite finish_not_optimal by done. by intros ?%elem_of_nil.
Qed.

(** The shape of a call that reaches the solver. *)
Lemma optimise_portfolio_solve profiles weekly_limit capacities bonus_item_ids
    problem continue :
  optimise_portfolio profiles weekly_limit capacities bonus_item_ids
  = Solve problem continue →
  ∃ ordered,
    (∀ profile, profile ∈ ordered → profile ∈ profiles)
    ∧ Lp.objective problem
      = value_terms (list_to_set (default [] bonus_item_ids)) ordered
    ∧ continue = finish (list_to_set (default [] bonus_item_ids)) capacities ordered.
Proof.
  unfold optimise_portfolio. destruct (_ || _); [done|].
  case_decide; [done|]. intros [= <- <-].
  eexists. split; [|done].
  intros profile Hin. by apply list_elem_of_filter in Hin as [_ ?].
Qed.

Lemma optimise_portfolio_problem profiles weekly_limit capacities bonus_item_ids
    problem continue :
  optimise_portfolio profiles weekly_limit capacities bonus_item_ids
  = Solve problem continue →
  let bonus_set : gset Z := list_to_set (default [] bonus_item_ids) in
  let ordered := ordered_for problem profiles in
  Lp.variables problem
  = list_to_set
      (map ProductionProfile.item_id
         (filter (fun profile => fgt (ProductionProfile.sale_value profile) zero = true)
                 profiles))
  ∧ Lp.constraints problem
    = capacity_constraints capacities ordered
      ++ [weekly_constraint bonus_set weekly_limit ordered]
  ∧ continue = finish bonus_set capacities ordered
  ∧ fle weekly_limit zero = false.
Proof.
  unfold optimise_portfolio. destruct (fle weekly_limit zero); [done|]. cbn [orb].
  destruct (bool_decide _); [done|].
  case_decide; [done|]. by intros [= <- <-].
Qed.

End OptimizerFacts.

(** ** Early returns, bonus multipliers and facility usage *)

Module OptimizerClaims.

Import Optimizer Plan Report Accumulate Samples FloatFacts GrowthClaims OptimizerFacts.

(** C3, as the claim states it, fails: an empty profile list with a
    positive weekly limit is reported as "No capacity", not as
    "No variables". *)
Lemma empty_profiles_report_no_capacity :
  fle (of_Z 100) zero = false
  ∧ optimise_portfolio [] (of_Z 100) sample_capacities None
    = Return (empty_result "No capacity")
  ∧ "No capacity" ≠ "No variables".
Proof. split; [reflexivity|]. split; [reflexivity | discriminate]. Qed.

(** C3 (amended). With [weekly_limit <= 0] or an empty profile list the
    call returns at once with status "No capacity", in both cases.  Status
    "No variables" is what a call with a positive limit and a non-empty
    list returns when no profile has a sale value above zero.  Every call
    that returns at once makes no solver call and has no items, total 0
    and empty facility usage. *)
Theorem early_returns (profiles : list ProductionProfile) (weekly_limit : float)
    (capacities : gmap string (option float)) (bonus_item_ids : option (list Z)) :
  let call := optimise_portfolio profiles weekly_limit capacities bonus_item_ids in
  (fle weekly_limit zero = true ∨ profiles = [] →
   call = Return (empty_result "No capacity"))
  ∧ (fle weekly_limit zero = false → profiles ≠ [] →
     (∀ profile, profile ∈ profiles →
                 fgt (ProductionProfile.sale_value profile) zero = false) →
     call = Return (empty_result "No variables"))
  ∧ (∀ result, call = Return result →
       solver_calls call = []
       ∧ OptimizationResult.items result = []
       ∧ OptimizationResult.total_astralite result = zero
       ∧ OptimizationResult.facility_usage result = ∅
       ∧ (OptimizationResult.status result = "No capacity"
          ∨ OptimizationResult.status result = "No variables")).
Proof.
  intros call. subst call. unfold optimise_portfolio. split; [|split].
  - intros [Hlimit| ->].
    + by rewrite Hlimit.
    + by rewrite orb_true_r.
  - intros Hlimit Hprofiles Hvalues. rewrite Hlimit. cbn [orb].
    rewrite bool_decide_eq_false_2 by done.
    replace (filter _ profiles) with (@nil ProductionProfile); [done|].
    symmetry. clear Hprofiles. induction profiles as [|p rest IH]; [done|].
    rewrite filter_cons_False.
    + apply IH. intros q Hq. apply Hvalues. by right.
    + intros Hpos. cbn beta in Hpos. rewrite (Hvalues p) in Hpos by (by left). done.
  - intros result. destruct (_ || _).
    + intros [= <-]. simpl. split_and!; auto.
    + case_decide; [|done]. intros [= <-]. simpl. split_and!; auto.
Qed.

Lemma early_returns_witness :
  optimise_portfolio [] (of_Z 100) sample_capacities None
  = Return (empty_result "No capacity")
  ∧ optimise_portfolio [sample_profile 1 60] (of_Z (-1)) sample_capacities None
    = Return (empty_result "No capacity").
Proof.
  split.
  - apply (early_returns [] (of_Z 100) sample_capacities None). by right.
  - apply (early_returns [sample_profile 1 60] (of_Z (-1)) sample_capacities None).
    left. reflexivity.
Defined.

(** *** Bonus multipliers *)

Lemma item_multiplier_granted (bonus_item_ids : list Z) (profile : ProductionProfile) :
  item_multiplier (list_to_set bonus_item_ids) profile
  = granted bonus_item_ids (ProductionProfile.item_id profile).
Proof.
  unfold item_multiplier, granted. case_decide as Hin; rewrite elem_of_list_to_set in Hin.
  - by rewrite bool_decide_eq_true_2.
  - by rewrite bool_decide_eq_false_2.
Qed.

Lemma granted_ext (ids ids' : list Z) (item_id : Z) :
  (item_id ∈ ids ↔ item_id ∈ ids') → granted ids item_id = granted ids' item_id.
Proof. intros Hiff. unfold granted. by rewrite (bool_decide_ext _ _ Hiff). Qed.

(** C4, as the claim states it, fails: [optimise_portfolio] itself does
    not cut the bonus ids.  Called with five bonus ids, it grants 1.2 to an
    item whose id is the fifth: the objective coefficient of a 10-value
    item is 12, and the reported multiplier is 1.2. *)
Lemma fifth_bonus_id_honoured :
  (5 ∉ take 4 [1; 2; 3; 4; 5])
  ∧ ∃ problem continue,
      optimise_portfolio [sample_profile 5 60] (of_Z 100) sample_capacities
        (Some [1; 2; 3; 4; 5]) = Solve problem continue
      ∧ Lp.coefficient <$> head (Lp.objective problem) = Some (of_Z 12)
      ∧ OptimizedItem.multiplier
          <$> head (OptimizationResult.items (continue (sample_solution 1)))
        = Some (of_Q (6 # 5))
      ∧ of_Q (6 # 5) ≠ of_Z 1.
Proof.
  split.
  { cbn. intros Hin. repeat (apply elem_of_cons in Hin as [Heq|Hin]; [discriminate Heq|]).
    by apply elem_of_nil in Hin. }
  do 2 eexists. split; [reflexivity|].
  split; [float_eq|]. split; [float_eq|]. intros [=].
Qed.

(** C4 (amended). [optimise_portfolio] grants 1.2 to exactly the items
    whose id is among the bonus ids it is given, all of them, and 1.0 to
    every other item, in the objective coefficients and in the reported
    multipliers alike.  The cut to the first four ids is made by the
    caller: through the call [api_optimise] makes, exactly the items whose
    id is among the first four requested ids get 1.2. *)
Theorem bonus_multiplier_granted (profiles : list ProductionProfile) (weekly_limit : float)
    (capacities : gmap string (option float)) (bonus_item_ids : option (list Z))
    (payload_bonus_item_ids : list Z) :
  (∀ problem continue,
     optimise_portfolio profiles weekly_limit capacities bonus_item_ids
     = Solve problem continue →
     Lp.objective problem
     = map (granted_term (default [] bonus_item_ids))
           (filter (λ profile, ProductionProfile.item_id profile ∈ Lp.variables problem)
                   profiles)
     ∧ ∀ solution item,
         item ∈ OptimizationResult.items (continue solution) →
         OptimizedItem.multiplier item
         = granted (default [] bonus_item_ids) (OptimizedItem.item_id item))
  ∧ (∀ problem continue,
       api_optimise_call profiles weekly_limit capacities payload_bonus_item_ids
       = Solve problem continue →
       Lp.objective problem
       = map (granted_term (take 4 payload_bonus_item_ids))
             (filter (λ profile, ProductionProfile.item_id profile ∈ Lp.variables problem)
                     profiles)
       ∧ ∀ solution item,
           item ∈ OptimizationResult.items (continue solution) →
           OptimizedItem.multiplier item
           = granted (take 4 payload_bonus_item_ids) (OptimizedItem.item_id item))
  ∧ of_Q (6 # 5) ≠ of_Z 1.
Proof.
  assert (Hgeneral : ∀ ids problem continue,
     optimise_portfolio profiles weekly_limit capacities ids = Solve problem continue →
     Lp.objective problem
     = map (granted_term (default [] ids))
           (filter (λ profile, ProductionProfile.item_id profile ∈ Lp.variables problem)
                   profiles)
     ∧ ∀ solution item,
         item ∈ OptimizationResult.items (continue solution) →
         OptimizedItem.multiplier item = granted (default [] ids) (OptimizedItem.item_id item)).
  { intros ids problem continue. unfold optimise_portfolio.
    destruct (_ || _); [done|]. case_decide; [done|]. intros [= <- <-].
    cbn [Lp.objective Lp.variables]. split.
    - unfold value_terms. apply map_ext. intros profile.
      unfold granted_term, item_value. by rewrite item_multiplier_granted.
    - intros solution item Hitem.
      destruct (finish_items _ _ _ _ _ Hitem) as (profile & _ & ->). simpl.
      apply item_multiplier_granted. }
  split; [apply Hgeneral|]. split; [|by intros [=]].
  intros problem continue Hcall. unfold api_optimise_call in Hcall.
  apply Hgeneral in Hcall as [Hobjective Hitems]. simpl in *.
  assert (Hsame : ∀ item_id,
    granted (elements (api_bonus_ids payload_bonus_item_ids)) item_id
    = granted (take 4 payload_bonus_item_ids) item_id).
  { intros item_id. apply granted_ext. unfold api_bonus_ids.
    by rewrite elem_of_elements, elem_of_list_to_set. }
  split.
  - rewrite Hobjective. apply map_ext. intros profile.
    unfold granted_term. by rewrite Hsame.
  - intros solution item Hitem. rewrite <- Hsame. by apply (Hitems solution).
Qed.

Lemma bonus_multiplier_granted_witness :
  ∃ problem continue,
    api_optimise_call [sample_profile 5 60] (of_Z 100) sample_capacities [1; 2; 3; 4; 5]
    = Solve problem continue
    ∧ ∀ item,
        item ∈ OptimizationResult.items (continue (sample_solution 1)) →
        OptimizedItem.multiplier item = of_Z 1.
Proof.
  do 2 eexists. split; [reflexivity|]. intros item Hitem.
  destruct (bonus_multiplier_granted [sample_profile 5 60] (of_Z 100) sample_capacities
              None [1; 2; 3; 4; 5]) as (_ & Hapi & _).
  destruct (Hapi _ _ eq_refl) as [_ Hitems].
  rewrite (Hitems _ _ Hitem).
  destruct (finish_items _ _ _ _ _ Hitem) as (profile & Hprofile & ->).
  vm_compute in Hprofile. apply elem_of_cons in Hprofile as [->|Hnil].
  - reflexivity.
  - by apply elem_of_nil in Hnil.
Defined.

(** *** Facility usage *)

(** C8, as the claim states it, fails: a profile whose crafting minutes
    are recorded as −5, made 10 times, is reported with 10 units; −5 × 10
    is −50, but the usage of the crafting queue is 0, and the item's own
    map has no entry at all. *)
Lemma negative_minutes_not_counted :
  ∃ problem continue item,
    optimise_portfolio [sample_profile 1 (-5)] (of_Z 100) sample_capacities None
    = Solve problem continue
    ∧ OptimizationResult.status (continue (sample_solution 10)) = "Optimal"
    ∧ OptimizationResult.items (continue (sample_solution 10)) = [item]
    ∧ OptimizedItem.units item = of_Z 10
    ∧ per_unit_times_units CRAFT_FACILITY item = of_Z (-50)
    ∧ OptimizationResult.facility_usage (continue (sample_solution 10)) !! CRAFT_FACILITY
      = Some zero
    ∧ OptimizedItem.facility_minutes item = ∅
    ∧ zero ≠ of_Z (-50).
Proof.
  do 3 eexists. split; [reflexivity|]. split; [reflexivity|].
  split; [vm_compute; reflexivity|]. split; [float_eq|]. split; [float_eq|].
  split; [float_eq|]. split; [reflexivity|]. intros [=].
Qed.

(** C8 (amended). When the solver reports status 1 ("Optimal"), the
    returned items are the profiles whose solved quantity is above the
    tolerance, sorted by astralite, and the result's usage of every
    facility is what these items added, one after the other in the order
    of the profiles, to 0: each item adds its per-unit minutes at the
    facility times its units when these per-unit minutes are above zero,
    and nothing otherwise.  Every returned item stands for one of the
    profiles at the quantity the solver gave, and its own facility-minutes
    map holds, for each per-unit entry of the profile that is above zero,
    that entry times the item's units, and nothing else.  Nothing of this
    is read from the solver but the quantities.  The usage map has an
    entry for a facility when the capacities name it or some item added
    to it. *)
Theorem facility_usage_recomputed (profiles : list ProductionProfile) (weekly_limit : float)
    (capacities : gmap string (option float)) (bonus_item_ids : option (list Z))
    (problem : Lp.Problem) (continue : Lp.Solution → OptimizationResult)
    (solution : Lp.Solution) :
  optimise_portfolio profiles weekly_limit capacities bonus_item_ids
  = Solve problem continue →
  Lp.status_code solution = 1 →
  let result := continue solution in
  let picked :=
    selected (list_to_set (default [] bonus_item_ids)) solution
             (ordered_for problem profiles) in
  OptimizationResult.status result = "Optimal"
  ∧ OptimizationResult.items result = sort_by_astralite picked
  ∧ Permutation picked (OptimizationResult.items result)
  ∧ (∀ facility,
       OptimizationResult.facility_usage result !! facility
       = fold_left (usage_step facility) picked (usage_entry capacities facility))
  ∧ (∀ facility,
       minutes_at (OptimizationResult.facility_usage result) facility
       = fold_left (add_positive_minutes facility) picked zero)
  ∧ (∀ item, item ∈ OptimizationResult.items result →
       OptimizedItem.profile item ∈ profiles
       ∧ OptimizedItem.units item
         = default zero (Lp.value solution (OptimizedItem.item_id item))
       ∧ ∀ facility,
           OptimizedItem.facility_minutes item !! facility
           = match ProductionProfile.facility_minutes (OptimizedItem.profile item)
                   !! facility with
             | Some minutes =>
                 if fgt minutes zero
                 then Some (minutes * OptimizedItem.units item)%float else None
             | None => None
             end).
Proof.
  intros Hcall Hcode result picked. subst result picked.
  destruct (optimise_portfolio_problem _ _ _ _ _ _ Hcall) as (_ & _ & -> & _).
  destruct (finish_optimal (list_to_set (default [] bonus_item_ids)) capacities
              (ordered_for problem profiles) solution Hcode) as (Hstatus & Hperm & Hitems).
  split; [done|]. split; [done|]. split; [done|]. split; [|split].
  - intros f. by apply finish_usage.
  - intros f. unfold minutes_at. rewrite finish_usage by done.
    rewrite usage_steps_default. f_equal. unfold usage_entry.
    by destruct (capacities !! f).
  - intros item Hitem.
    destruct (finish_items _ _ _ _ _ Hitem) as (profile & Hprofile & ->).
    split; [by apply list_elem_of_filter in Hprofile as [_ ?]|].
    split; [apply solved_value_default|].
    intros f. apply item_usage_lookup.
Qed.

Lemma facility_usage_recomputed_witness :
  ∃ problem continue,
    optimise_portfolio [sample_profile 1 60; sample_profile 2 30] (of_Z 100)
      sample_capacities None
    = Solve problem continue
    ∧ minutes_at
        (OptimizationResult.facility_usage (continue (sample_solution 2))) CRAFT_FACILITY
      = of_Z 180.
Proof.
  do 2 eexists. split; [reflexivity|].
  destruct (facility_usage_recomputed [sample_profile 1 60; sample_profile 2 30] (of_Z 100)
              sample_capacities None _ _ (sample_solution 2) eq_refl eq_refl)
    as (_ & _ & _ & _ & Husage & _).
  rewrite Husage. float_eq.
Defined.

End OptimizerClaims.

(** ** Level-up rewards *)

Module RewardFacts.

Import Rewards.

Lemma Zsum_Permutation (xs ys : list Z) :
  Permutation xs ys → fold_right Z.add 0 xs = fold_right Z.add 0 ys.
Proof. induction 1; simpl; lia. Qed.

Lemma Zsum_app (xs ys : list Z) :
  fold_right Z.add 0 (xs ++ ys) = fold_right Z.add 0 xs + fold_right Z.add 0 ys.
Proof. induction xs; simpl; lia. Qed.

Lemma fold_left_Zadd (xs : list Z) (a : Z) :
  fold_left Z.add xs a = a + fold_right Z.add 0 xs.
Proof. revert a. induction xs as [|x xs IH]; intros a; simpl; [lia|]. rewrite IH. lia. Qed.

(** *** One row's items *)

Lemma reward_items_fold (des_item : list RewardItem) (item_id : Z) :
  item_id ≠ 0 →
  ∀ acc : gmap Z Z,
    default 0
      (fold_left
         (fun items reward =>
            let id := default 0 (ri_item_id reward) in
            if id =? 0 then items
            else <[id := default 0 (items !! id) + default 0 (ri_num reward)]> items)
         des_item acc !! item_id)
    = default 0 (acc !! item_id)
      + fold_right Z.add 0
          (map (fun reward =>
                  if default 0 (ri_item_id reward) =? item_id
                  then default 0 (ri_num reward) else 0)
               des_item).
Proof.
  intros Hnz. induction des_item as [|reward rest IH]; intros acc; simpl; [lia|].
  rewrite IH. clear IH.
  destruct (Z.eqb_spec (default 0 (ri_item_id reward)) 0) as [Hzero|Hid].
  - rewrite Hzero. destruct (Z.eqb_spec 0 item_id); [congruence | lia].
  - rewrite lookup_insert. case_decide as Hkey.
    + rewrite Hkey, Z.eqb_refl. simpl. lia.
    + destruct (Z.eqb_spec (default 0 (ri_item_id reward)) item_id); [done | lia].
Qed.

Lemma reward_items_lookup (des_item : list RewardItem) (item_id : Z) :
  item_id ≠ 0 →
  default 0 (reward_items des_item !! item_id)
  = fold_right Z.add 0
      (map (fun reward =>
              if default 0 (ri_item_id reward) =? item_id
              then default 0 (ri_num reward) else 0)
           des_item).
Proof.
  intros Hnz. unfold reward_items. rewrite (reward_items_fold _ _ Hnz), lookup_empty. done.
Qed.

(** The item id [0] is never a key. *)
Lemma reward_items_zero (des_item : list RewardItem) : reward_items des_item !! 0 = None.
Proof.
  unfold reward_items.
  enough (Hgen : ∀ acc : gmap Z Z, acc !! 0 = None →
    fold_left
      (fun items reward =>
         let id := default 0 (ri_item_id reward) in
         if id =? 0 then items
         else <[id := default 0 (items !! id) + default 0 (ri_num reward)]> items)
      des_item acc !! 0 = None) by (apply Hgen, lookup_empty).
  induction des_item as [|reward rest IH]; intros acc Hacc; simpl; [done|].
  apply IH. destruct (Z.eqb_spec (default 0 (ri_item_id reward)) 0); [done|].
  by rewrite lookup_insert_ne.
Qed.

(** *** Adding a tier to the totals *)

Lemma add_items_lookup (items totals : gmap Z Z) (item_id : Z) :
  add_items items totals !! item_id
  = match items !! item_id with
    | Some qty => Some (default 0 (totals !! item_id) + qty)
    | None => totals !! item_id
    end.
Proof.
  unfold add_items. revert item_id.
  apply (map_fold_weak_ind
    (λ r m, ∀ i, r !! i = match m !! i with
                          | Some qty => Some (default 0 (totals !! i) + qty)
                          | None => totals !! i
                          end)).
  - intros i. by rewrite lookup_empty.
  - intros k x m r Hfresh IH i. rewrite !lookup_insert. case_decide as Hk.
    + subst k. by rewrite (IH i), Hfresh.
    + apply IH.
Qed.

Lemma add_items_default (items totals : gmap Z Z) (item_id : Z) :
  default 0 (add_items items totals !! item_id)
  = default 0 (totals !! item_id) + default 0 (items !! item_id).
Proof.
  rewrite add_items_lookup. destruct (items !! item_id); simpl; lia.
Qed.

(** *** The table by ability *)

Lemma append_fold_lookup (reward_data : list RewardRow) (ability : Z) :
  ∀ acc : gmap Z (list LevelReward),
    default [] (fold_left (fun acc entry => append_reward acc (level_reward_of entry))
                          reward_data acc !! ability)
    = default [] (acc !! ability)
      ++ map level_reward_of
           (filter (λ entry, row_id entry / 1000 = ability) reward_data).
Proof.
  induction reward_data as [|entry rest IH]; intros acc; simpl.
  - by rewrite app_nil_r.
  - rewrite IH. unfold append_reward at 1. simpl. rewrite lookup_insert.
    case_decide as Hab.
    + rewrite filter_cons_True by done. rewrite Hab. simpl. by rewrite <- app_assoc.
    + by rewrite filter_cons_False.
Qed.

Lemma init_lookup (reward_data : list RewardRow) (ability : Z) :
  default [] (_rewards_by_ability (init reward_data) !! ability)
  = sort_rewards
      (map level_reward_of (filter (λ entry, row_id entry / 1000 = ability) reward_data)).
Proof.
  pose proof (append_fold_lookup reward_data ability ∅) as Hfold.
  rewrite lookup_empty in Hfold. simpl in Hfold. rewrite <- Hfold.
  unfold init. simpl. rewrite lookup_fmap.
  by destruct (fold_left _ _ _ !! ability).
Qed.

Lemma insert_reward_Permutation r l : Permutation (r :: l) (insert_reward r l).
Proof.
  induction l as [|c l IH]; simpl; [done|].
  destruct (level r <=? level c); [done|]. rewrite perm_swap. by constructor.
Qed.

Lemma sort_rewards_Permutation l : Permutation l (sort_rewards l).
Proof.
  induction l as [|r l IH]; simpl; [done|].
  rewrite <- insert_reward_Permutation. by constructor.
Qed.

Lemma insert_reward_sorted r l :
  StronglySorted reward_level_le l → StronglySorted reward_level_le (insert_reward r l).
Proof.
  induction 1 as [|c l Hs IH Hc]; simpl.
  - repeat constructor.
  - destruct (Z.leb_spec (level r) (level c)) as [Hle|Hgt].
    + constructor; [by constructor|]. constructor; [done|].
      eapply Forall_impl; [|exact Hc]. unfold reward_level_le. intros; lia.
    + constructor; [done|]. rewrite <- insert_reward_Permutation.
      constructor; [unfold reward_level_le; lia | done].
Qed.

Lemma sort_rewards_sorted l : StronglySorted reward_level_le (sort_rewards l).
Proof.
  induction l as [|r l IH]; simpl; [constructor | by apply insert_reward_sorted].
Qed.

(** *** The loop *)

(** On a table sorted by level, the loop adds up exactly the tiers at or
    below the level asked for. *)
Lemma reward_loop_sorted (rewards : list LevelReward) (lvl item_id : Z) :
  StronglySorted reward_level_le rewards →
  ∀ totals : gmap Z Z,
    default 0 (reward_loop rewards lvl totals !! item_id)
    = default 0 (totals !! item_id)
      + fold_right Z.add 0
          (map (fun r => if level r <=? lvl then default 0 (items r !! item_id) else 0)
               rewards).
Proof.
  induction 1 as [|c rest Hs IH Hc]; intros totals; simpl; [lia|].
  destruct (Z.gtb_spec (level c) lvl) as [Hgt|Hle].
  - destruct (Z.leb_spec (level c) lvl); [lia|].
    replace (fold_right Z.add 0 _) with 0; [lia|].
    clear IH Hs. induction rest as [|d rest IH]; simpl; [done|].
    inversion Hc as [|? ? Hd Hrest]; subst. unfold reward_level_le in Hd.
    destruct (Z.leb_spec (level d) lvl); [lia|]. by rewrite <- IH.
  - destruct (Z.leb_spec (level c) lvl); [|lia].
    rewrite IH, add_items_default. lia.
Qed.

(** Without a tier above the level asked for, the loop runs to the end. *)
Lemma reward_loop_all (rewards : list LevelReward) (lvl : Z) :
  (∀ r, r ∈ rewards → level r ≤ lvl) →
  ∀ totals : gmap Z Z,
    reward_loop rewards lvl totals
    = fold_left (fun acc r => add_items (items r) acc) rewards totals.
Proof.
  induction rewards as [|c rest IH]; intros Hall totals; simpl; [done|].
  destruct (Z.gtb_spec (level c) lvl) as [Hgt|_].
  - specialize (Hall c (list_elem_of_here _ _)). lia.
  - apply IH. intros r Hr. apply Hall. by right.
Qed.

Lemma sorted_last_max (rewards : list LevelReward) (top : LevelReward) :
  StronglySorted reward_level_le rewards →
  list.last rewards = Some top →
  ∀ r, r ∈ rewards → level r ≤ level top.
Proof.
  induction 1 as [|c rest Hs IH Hc]; intros Hlast r Hr; [by apply elem_of_nil in Hr|].
  rewrite list.Forall_forall in Hc.
  destruct rest as [|d rest'].
  - simpl in Hlast. injection Hlast as <-.
    apply elem_of_cons in Hr as [->|Hr]; [lia | by apply elem_of_nil in Hr].
  - rewrite last_cons_cons in Hlast.
    apply elem_of_cons in Hr as [->|Hr]; [|by apply IH].
    apply (Hc top). by apply last_Some_elem_of.
Qed.

(** *** Properties of the queries *)

Lemma table_sum_filter (reward_data : list RewardRow) (ability lvl item_id : Z) :
  item_id ≠ 0 →
  fold_right Z.add 0
    (map (fun r => if level r <=? lvl then default 0 (items r !! item_id) else 0)
         (map level_reward_of
              (filter (λ entry, row_id entry / 1000 = ability) reward_data)))
  = table_quantity reward_data ability lvl item_id.
Proof.
  intros Hnz. unfold table_quantity.
  induction reward_data as [|entry rest IH]; simpl; [done|].
  unfold row_counts at 1.
  destruct (decide (row_id entry / 1000 = ability)) as [Hab|Hab].
  - rewrite filter_cons_True by done. simpl. rewrite IH.
    rewrite (proj2 (Z.eqb_eq _ _) Hab). simpl.
    destruct (row_id entry mod 1000 <=? lvl); [|done].
    by rewrite (reward_items_lookup _ _ Hnz).
  - rewrite filter_cons_False by done. rewrite IH.
    by rewrite (proj2 (Z.eqb_neq _ _) Hab).
Qed.

(** The totals at every item id, as a sum over the sorted tiers. *)
Lemma ability_reward_items_sum (reward_data : list RewardRow) (ability lvl item_id : Z) :
  default 0 (ability_reward_items (init reward_data) ability lvl !! item_id)
  = fold_right Z.add 0
      (map (fun r => if level r <=? lvl then default 0 (items r !! item_id) else 0)
           (map level_reward_of
                (filter (λ entry, row_id entry / 1000 = ability) reward_data))).
Proof.
  unfold ability_reward_items. rewrite init_lookup.
  rewrite reward_loop_sorted by apply sort_rewards_sorted.
  rewrite lookup_empty. simpl.
  apply Zsum_Permutation, Permutation_map. symmetry. apply sort_rewards_Permutation.
Qed.

Lemma init_rewards_elem (reward_data : list RewardRow) (ability : Z) (r : LevelReward) :
  r ∈ default [] (_rewards_by_ability (init reward_data) !! ability)
  ↔ ∃ entry, entry ∈ reward_data ∧ row_id entry / 1000 = ability
             ∧ r = level_reward_of entry.
Proof.
  rewrite init_lookup, <- sort_rewards_Permutation, list_elem_of_fmap.
  split.
  - intros (entry & -> & [Hab Hin]%list_elem_of_filter). by exists entry.
  - intros (entry & Hin & Hab & ->). exists entry. split; [done|].
    by apply list_elem_of_filter.
Qed.

Lemma init_rewards_sorted (reward_data : list RewardRow) (ability : Z) :
  StronglySorted reward_level_le
    (default [] (_rewards_by_ability (init reward_data) !! ability)).
Proof. rewrite init_lookup. apply sort_rewards_sorted. Qed.

Lemma reward_loop_zero (rewards : list LevelReward) (lvl : Z) :
  (∀ r, r ∈ rewards → items r !! 0 = None) →
  ∀ totals : gmap Z Z, totals !! 0 = None → reward_loop rewards lvl totals !! 0 = None.
Proof.
  induction rewards as [|c rest IH]; intros Hall totals Htotals; simpl; [done|].
  destruct (level c >? lvl); [done|].
  apply IH; [intros r Hr; apply Hall; by right|].
  rewrite add_items_lookup, (Hall c) by (by left). done.
Qed.

(** *** Which items have an entry *)

Lemma reward_items_present (des_item : list RewardItem) (item_id : Z) :
  item_id ≠ 0 →
  is_Some (reward_items des_item !! item_id)
  ↔ ∃ reward, reward ∈ des_item ∧ default 0 (ri_item_id reward) = item_id.
Proof.
  intros Hnz. unfold reward_items.
  enough (Hgen : ∀ acc : gmap Z Z,
    is_Some (fold_left
               (fun items reward =>
                  let id := default 0 (ri_item_id reward) in
                  if id =? 0 then items
                  else <[id := default 0 (items !! id) + default 0 (ri_num reward)]> items)
               des_item acc !! item_id)
    ↔ is_Some (acc !! item_id)
      ∨ ∃ reward, reward ∈ des_item ∧ default 0 (ri_item_id reward) = item_id).
  { rewrite Hgen, lookup_empty. split; [|by right].
    intros [Hempty|?]; [by apply is_Some_None in Hempty | done]. }
  induction des_item as [|reward rest IH]; intros acc; simpl.
  - split; [by left|]. intros [?|(reward & Hin & _)]; [done|]. by apply elem_of_nil in Hin.
  - rewrite IH. clear IH.
    destruct (Z.eqb_spec (default 0 (ri_item_id reward)) 0) as [Hzero|Hid].
    + split.
      * intros [?|(r & Hin & Hr)]; [by left|]. right. exists r.
        split; [by apply list_elem_of_further | done].
      * intros [?|(r & Hin & Hr)]; [by left|].
        apply elem_of_cons in Hin as [->|Hin]; [congruence|]. right. by exists r.
    + rewrite lookup_insert. case_decide as Hkey.
      * split; intros _; [|by left]. right. exists reward.
        split; [apply list_elem_of_here | done].
      * split.
        -- intros [?|(r & Hin & Hr)]; [by left|]. right. exists r.
           split; [by apply list_elem_of_further | done].
        -- intros [?|(r & Hin & Hr)]; [by left|].
           apply elem_of_cons in Hin as [->|Hin]; [congruence|]. right. by exists r.
Qed.

Lemma reward_loop_present (rewards : list LevelReward) (lvl item_id : Z) :
  StronglySorted reward_level_le rewards →
  ∀ totals : gmap Z Z,
    is_Some (reward_loop rewards lvl totals !! item_id)
    ↔ is_Some (totals !! item_id)
      ∨ ∃ r, r ∈ rewards ∧ level r ≤ lvl ∧ is_Some (items r !! item_id).
Proof.
  induction 1 as [|c rest Hs IH Hc]; intros totals; simpl.
  - split; [by left|]. intros [?|(r & Hin & _)]; [done|]. by apply elem_of_nil in Hin.
  - rewrite list.Forall_forall in Hc. unfold reward_level_le in Hc.
    destruct (Z.gtb_spec (level c) lvl) as [Hgt|Hle].
    + split; [by left|]. intros [?|(r & Hin & Hr & _)]; [done|]. exfalso.
      apply elem_of_cons in Hin as [->|Hin]; [lia|]. specialize (Hc r Hin). lia.
    + rewrite IH, add_items_lookup. split.
      * intros [Hhere|(r & Hin & Hr)].
        -- destruct (items c !! item_id) eqn:Hitem; [|by left].
           right. exists c. split; [apply list_elem_of_here|]. split; [lia|].
           by rewrite Hitem.
        -- right. exists r. split; [by apply list_elem_of_further | done].
      * intros [Htotals|(r & Hin & Hr & Hitem)].
        -- left. by destruct (items c !! item_id).
        -- apply elem_of_cons in Hin as [->|Hin].
           ++ left. by destruct Hitem as [x ->].
           ++ right. by exists r.
Qed.

Lemma ability_reward_items_present (reward_data : list RewardRow)
    (ability lvl item_id : Z) :
  item_id ≠ 0 →
  is_Some (ability_reward_items (init reward_data) ability lvl !! item_id)
  ↔ ∃ entry, entry ∈ reward_data ∧ row_counts ability lvl entry = true
             ∧ grants item_id entry.
Proof.
  intros Hnz. unfold ability_reward_items.
  rewrite reward_loop_present by apply init_rewards_sorted.
  rewrite lookup_empty. unfold row_counts, grants. split.
  - intros [Hempty|(r & (entry & Hin & Hab & ->)%init_rewards_elem & Hlvl & Hitem)];
      [by apply is_Some_None in Hempty|].
    exists entry. split; [done|]. cbn [level items level_reward_of] in *. split.
    + apply andb_true_iff. split; [by apply Z.eqb_eq | by apply Z.leb_le].
    + by apply reward_items_present.
  - intros (entry & Hin & [Hab Hlvl]%andb_true_iff & Hgrants). right.
    exists (level_reward_of entry). split; [|split].
    + apply init_rewards_elem. exists entry. split; [done|]. split; [|done].
      by apply Z.eqb_eq.
    + cbn [level level_reward_of]. by apply Z.leb_le.
    + cbn [items level_reward_of]. by apply reward_items_present.
Qed.

(** X1. The cumulative rewards of an ability at a level have an entry for
    an item id other than 0 exactly when some row of the table that
    belongs to the ability, with a level that does not exceed the level
    asked for, has an entry for the item; the value (0 when there is no
    entry) is the sum over all these rows of what the row grants of the
    item; the order of the rows in the table does not matter.  The item id
    0 is never among the totals. *)
Theorem reward_totals_from_table (reward_data : list RewardRow)
    (ability lvl item_id : Z) :
  item_id ≠ 0 →
  (is_Some (ability_reward_items (init reward_data) ability lvl !! item_id)
   ↔ ∃ entry, entry ∈ reward_data ∧ row_counts ability lvl entry = true
              ∧ grants item_id entry)
  ∧ default 0 (ability_reward_items (init reward_data) ability lvl !! item_id)
    = table_quantity reward_data ability lvl item_id
  ∧ ability_reward_items (init reward_data) ability lvl !! 0 = None.
Proof.
  intros Hnz. split; [by apply ability_reward_items_present|]. split.
  - rewrite ability_reward_items_sum. by apply table_sum_filter.
  - apply reward_loop_zero; [|apply lookup_empty].
    intros r (entry & _ & _ & ->)%init_rewards_elem. apply reward_items_zero.
Qed.

Lemma reward_totals_from_table_witness :
  ability_reward_items (init sample_reward_data) 34 7 !! 1170000320 = Some 5
  ∧ ability_reward_items (init sample_reward_data) 34 7 !! 1170000321 = None.
Proof.
  destruct (reward_totals_from_table sample_reward_data 34 7 1170000320
              ltac:(discriminate)) as (Hpresent & Hvalue & _).
  destruct (reward_totals_from_table sample_reward_data 34 7 1170000321
              ltac:(discriminate)) as (Habsent & _ & _).
  split.
  - destruct (ability_reward_items (init sample_reward_data) 34 7 !! 1170000320)
      as [total|] eqn:Htotal.
    + cbn [from_option id] in Hvalue. rewrite Hvalue. reflexivity.
    + exfalso. apply (is_Some_None (A:=Z)). apply Hpresent.
      exists (mkRewardRow 34005 [mkRewardItem (Some 1170000320) (Some 3)]).
      split; [apply list_elem_of_here|]. split; [reflexivity|].
      exists (mkRewardItem (Some 1170000320) (Some 3)).
      split; [apply list_elem_of_here | reflexivity].
  - apply eq_None_not_Some. intros (entry & Hin & Hcounts & reward & Hreward & Hid)%Habsent.
    cbn in Hin.
    repeat (apply elem_of_cons in Hin as [->|Hin];
            [first [discriminate Hcounts
                   | cbn in Hreward;
                     repeat (apply elem_of_cons in Hreward as [->|Hreward];
                             [discriminate Hid|]);
                     by apply elem_of_nil in Hreward]|]).
    by apply elem_of_nil in Hin.
Defined.

(** X2. [max_level] is the highest level among the rows of the ability,
    and 0 for an ability without rows; it lies between 0 and 999. *)
Theorem max_level_is_highest (reward_data : list RewardRow) (ability : Z) :
  let top := max_level (init reward_data) ability in
  0 ≤ top < 1000
  ∧ (∀ entry, entry ∈ reward_data → row_id entry / 1000 = ability →
              row_id entry mod 1000 ≤ top)
  ∧ ((∃ entry, entry ∈ reward_data ∧ row_id entry / 1000 = ability) →
     ∃ entry, entry ∈ reward_data ∧ row_id entry / 1000 = ability
              ∧ row_id entry mod 1000 = top)
  ∧ ((∀ entry, entry ∈ reward_data → row_id entry / 1000 ≠ ability) → top = 0).
Proof.
  intros top. subst top. unfold max_level.
  pose proof (init_rewards_sorted reward_data ability) as Hsorted.
  pose proof (init_rewards_elem reward_data ability) as Helem.
  destruct (default [] (_rewards_by_ability (init reward_data) !! ability))
    as [|c rest] eqn:Hlist.
  - simpl. split; [lia|]. split; [|split; [|done]].
    + intros entry Hin Hab. exfalso.
      apply (elem_of_nil (level_reward_of entry)), Helem. by exists entry.
    + intros (entry & Hin & Hab). exfalso.
      apply (elem_of_nil (level_reward_of entry)), Helem. by exists entry.
  - destruct (list.last (c :: rest)) as [top|] eqn:Hlast.
    2: { by apply last_None in Hlast. }
    pose proof (sorted_last_max _ _ Hsorted Hlast) as Hmax.
    apply last_Some_elem_of in Hlast as Htop.
    apply Helem in Htop as (etop & Hin_top & Hab_top & ->).
    split; [|split; [|split]].
    + simpl. apply Z.mod_pos_bound. lia.
    + intros entry Hin Hab.
      apply (Hmax (level_reward_of entry)), Helem. by exists entry.
    + intros _. by exists etop.
    + intros Hnone. by destruct (Hnone etop Hin_top).
Qed.

Lemma ability_reward_items_saturate (reward_data : list RewardRow) (ability lvl : Z) :
  max_level (init reward_data) ability ≤ lvl →
  ability_reward_items (init reward_data) ability lvl
  = ability_reward_items (init reward_data) ability
      (max_level (init reward_data) ability).
Proof.
  unfold max_level, ability_reward_items.
  pose proof (init_rewards_sorted reward_data ability) as Hsorted.
  destruct (list.last (default [] (_rewards_by_ability (init reward_data) !! ability)))
    as [top|] eqn:Hlast.
  - intros Hle. pose proof (sorted_last_max _ _ Hsorted Hlast) as Hmax.
    rewrite !reward_loop_all; [done | done |].
    intros r Hr. specialize (Hmax r Hr). lia.
  - apply last_None in Hlast. by rewrite Hlast.
Qed.

Lemma max_level_nonneg (reward_data : list RewardRow) (ability : Z) :
  0 ≤ max_level (init reward_data) ability.
Proof.
  unfold max_level.
  destruct (list.last _) as [top|] eqn:Hlast; [|lia].
  apply last_Some_elem_of, init_rewards_elem in Hlast as (entry & _ & _ & ->).
  simpl. apply Z.mod_pos_bound. lia.
Qed.

(** X3. Asking for a level at or above [max_level] gives the totals of
    [max_level]: nothing is gained beyond the last tier. *)
Theorem rewards_saturate (reward_data : list RewardRow) (ability lvl : Z) :
  max_level (init reward_data) ability ≤ lvl →
  ability_reward_items (init reward_data) ability lvl
  = ability_reward_items (init reward_data) ability
      (max_level (init reward_data) ability).
Proof. apply ability_reward_items_saturate. Qed.

Lemma rewards_saturate_witness :
  ability_reward_items (init sample_reward_data) 34 40
  = ability_reward_items (init sample_reward_data) 34 12.
Proof.
  apply (rewards_saturate sample_reward_data 34 40). vm_compute. discriminate.
Defined.

Lemma Zsum_le (A : Type) (f g : A → Z) (l : list A) :
  (∀ x, x ∈ l → f x ≤ g x) →
  fold_right Z.add 0 (map f l) ≤ fold_right Z.add 0 (map g l).
Proof.
  induction l as [|x l IH]; intros Hle; simpl; [lia|].
  specialize (Hle x (list_elem_of_here _ _)) as Hx.
  assert (fold_right Z.add 0 (map f l) ≤ fold_right Z.add 0 (map g l)); [|lia].
  apply IH. intros y Hy. apply Hle. by right.
Qed.

Lemma reward_items_nonneg (des_item : list RewardItem) (item_id : Z) :
  (∀ reward, reward ∈ des_item → 0 ≤ default 0 (ri_num reward)) →
  0 ≤ default 0 (reward_items des_item !! item_id).
Proof.
  intros Hnn. destruct (decide (item_id = 0)) as [->|Hnz].
  - by rewrite reward_items_zero.
  - rewrite (reward_items_lookup _ _ Hnz).
    induction des_item as [|reward rest IH]; simpl; [lia|].
    assert (0 ≤ default 0 (ri_num reward)) by (apply Hnn; by left).
    assert (0 ≤ fold_right Z.add 0
                  (map (fun reward => if default 0 (ri_item_id reward) =? item_id
                                      then default 0 (ri_num reward) else 0) rest)).
    { apply IH. intros r Hr. apply Hnn. by right. }
    destruct (_ =? _); lia.
Qed.

(** X4. When no row grants a negative quantity, a higher level never
    gives fewer items: [sum_item_counts] is monotone in the level. *)
Theorem sum_item_counts_monotone (reward_data : list RewardRow)
    (ability lvl lvl' : Z) (item_ids : list Z) :
  quantities_nonneg reward_data →
  lvl ≤ lvl' →
  sum_item_counts (init reward_data) ability lvl item_ids
  ≤ sum_item_counts (init reward_data) ability lvl' item_ids.
Proof.
  intros Hnn Hle. unfold sum_item_counts. rewrite !fold_left_Zadd.
  assert (fold_right Z.add 0
            (map (λ i, default 0 (ability_reward_items (init reward_data) ability lvl !! i))
                 item_ids)
          ≤ fold_right Z.add 0
              (map (λ i, default 0 (ability_reward_items (init reward_data) ability lvl' !! i))
                   item_ids)); [|lia].
  apply Zsum_le. intros i _. rewrite !ability_reward_items_sum.
  apply Zsum_le. intros r (entry & -> & [_ Hin]%list_elem_of_filter)%list_elem_of_fmap.
  assert (0 ≤ default 0 (items (level_reward_of entry) !! i)) as Hq.
  { apply reward_items_nonneg. intros reward Hr. by apply (Hnn entry). }
  destruct (Z.leb_spec (level (level_reward_of entry)) lvl);
    destruct (Z.leb_spec (level (level_reward_of entry)) lvl'); lia.
Qed.

Lemma sum_item_counts_monotone_witness :
  sum_item_counts (init sample_reward_data) 34 3 App.FARMLAND_ITEMS
  ≤ sum_item_counts (init sample_reward_data) 34 20 App.FARMLAND_ITEMS.
Proof.
  apply sum_item_counts_monotone; [|lia].
  intros entry reward Hentry Hreward. unfold sample_reward_data in Hentry.
  repeat (apply elem_of_cons in Hentry as [->|Hentry];
          [simpl in Hreward;
           repeat (apply elem_of_cons in Hreward as [->|Hreward]; [simpl; lia|]);
           by apply elem_of_nil in Hreward|]).
  by apply elem_of_nil in Hentry.
Defined.

End RewardFacts.

(** ** The optimise request *)

Module AppFacts.

Import Rewards App RewardFacts.

Lemma ability_levels_lookup (progression : Rewards.Repository)
    (payload_levels : gmap Z Z) (ability : Z) :
  ability_levels progression payload_levels !! ability
  = if bool_decide (ability ∈ ABILITY_IDS)
    then Some (clamp_level (max_level progression ability)
                           (default 0 (payload_levels !! ability)))
    else None.
Proof.
  case_bool_decide as Hin.
  - unfold ABILITY_IDS in Hin.
    repeat (apply elem_of_cons in Hin as [->|Hin];
            [unfold ability_levels; simpl; by simplify_map_eq|]).
    by apply elem_of_nil in Hin.
  - unfold ability_levels, ABILITY_IDS in *. simpl.
    rewrite !lookup_insert_ne; [apply lookup_empty|..];
      intros <-; apply Hin; rewrite !elem_of_cons; tauto.
Qed.

Lemma clamp_level_monotone (max_level requested requested' : Z) :
  requested ≤ requested' → clamp_level max_level requested ≤ clamp_level max_level requested'.
Proof. unfold clamp_level. destruct (max_level =? 0); lia. Qed.

(** X5. The level a request is clamped to is never negative.  When the
    ability's [max_level] is not 0 the level is at most [max_level]; when
    it is 0 (an ability without tiers, or one whose only tiers are of
    level 0) the level is [max(0, requested)], with no upper bound.
    Either way clamping loses nothing: the item counts at the clamped
    level are those at [max(0, requested)]. *)
Theorem clamp_level_keeps_counts (reward_data : list RewardRow)
    (ability requested : Z) (item_ids : list Z) :
  let progression := Rewards.init reward_data in
  let clamped := clamp_level (max_level progression ability) requested in
  0 ≤ clamped
  ∧ (max_level progression ability ≠ 0 → clamped ≤ max_level progression ability)
  ∧ (max_level progression ability = 0 → clamped = Z.max 0 requested)
  ∧ sum_item_counts progression ability clamped item_ids
    = sum_item_counts progression ability (Z.max 0 requested) item_ids
  ∧ (let lone := Rewards.init [mkRewardRow (ability * 1000) []] in
     max_level lone ability = 0
     ∧ clamp_level (max_level lone ability) requested = Z.max 0 requested).
Proof.
  intros progression clamped. subst clamped. unfold clamp_level.
  pose proof (max_level_nonneg reward_data ability) as Hnn. fold progression in Hnn.
  assert (Hlone : max_level (Rewards.init [mkRewardRow (ability * 1000) []]) ability = 0).
  { unfold max_level. rewrite init_lookup. cbn [filter list_filter row_id].
    rewrite decide_True by (by rewrite Z.div_mul).
    cbn. by rewrite Z.mod_mul. }
  destruct (Z.eqb_spec (max_level progression ability) 0) as [Hzero|Hpos].
  - split; [lia|]. split; [done|]. split; [done|]. split; [done|].
    cbn zeta. by rewrite Hlone.
  - split; [lia|]. split; [lia|]. split; [done|]. split.
    + destruct (Z.le_gt_cases requested (max_level progression ability)) as [Hle|Hgt].
      * by rewrite Z.min_l.
      * rewrite Z.min_r, Z.max_r, Z.max_r by lia.
        unfold sum_item_counts, progression.
        by rewrite (ability_reward_items_saturate reward_data ability requested)
          by (fold progression; lia).
    + cbn zeta. by rewrite Hlone.
Qed.

(** X6. Raising requested ability levels never locks a profile: every
    profile unlocked by a request is unlocked by a request that asks at
    least as much of each ability. *)
Theorem unlocked_profiles_monotone (progression : Rewards.Repository)
    (payload_levels payload_levels' : gmap Z Z) (profiles : list ProductionProfile)
    (profile : ProductionProfile) :
  (∀ ability, default 0 (payload_levels !! ability)
              ≤ default 0 (payload_levels' !! ability)) →
  profile ∈ unlocked_profiles (ability_levels progression payload_levels) profiles →
  profile ∈ unlocked_profiles (ability_levels progression payload_levels') profiles.
Proof.
  intros Hle. unfold unlocked_profiles. rewrite !list_elem_of_filter.
  intros [Hunlock Hin]. split; [|done].
  etrans; [exact Hunlock|].
  rewrite !ability_levels_lookup. case_bool_decide; simpl; [|done].
  apply clamp_level_monotone, Hle.
Qed.

Lemma unlocked_profiles_monotone_witness :
  let progression := Rewards.init sample_reward_data in
  Samples.sample_profile 1 60
  ∈ unlocked_profiles (ability_levels progression {[ 22 := 5 ]}) [Samples.sample_profile 1 60].
Proof.
  intros progression.
  apply (unlocked_profiles_monotone progression {[ 22 := 1 ]} {[ 22 := 5 ]}).
  - intros ability. destruct (decide (ability = 22)) as [->|Hne].
    + rewrite !lookup_singleton_eq. simpl. lia.
    + by rewrite !lookup_singleton_ne.
  - apply list_elem_of_filter. split; [vm_compute; discriminate | apply list_elem_of_here].
Defined.

(** X7. A request that unlocks no profile is answered without a solver
    call: the call of [optimise_portfolio] returns the empty "No capacity"
    result at once, and the message asks for higher ability levels. *)
Theorem nothing_unlocked (rewards : Rewards.Repository)
    (bonuses : Progression.ProgressionRepository) (BASE_WEEKLY_LIMIT : Z)
    (MODELLED_PROFILES : list ProductionProfile) (payload : OptimiseRequest) :
  unlocked_profiles (ability_levels rewards (req_ability_levels payload)) MODELLED_PROFILES
  = [] →
  ∃ result,
    api_optimise rewards bonuses BASE_WEEKLY_LIMIT MODELLED_PROFILES payload
    = Optimizer.Return result
    ∧ result = Plan.empty_result "No capacity"
    ∧ message (OptimizationResult.items result)
        (unlocked_profiles (ability_levels rewards (req_ability_levels payload))
                           MODELLED_PROFILES)
      = Some "Increase ability levels to unlock saleable items.".
Proof.
  intros Hnone. eexists. unfold api_optimise, Optimizer.optimise_portfolio.
  rewrite Hnone. rewrite orb_true_r. done.
Qed.

Lemma nothing_unlocked_witness :
  ∃ result,
    api_optimise (Rewards.init sample_reward_data)
      (Progression.ProgressionRepository_init Samples.sample_total_level_data) 100000
      [Samples.sample_profile 1 60] (mkOptimiseRequest ∅ [] 1)
    = Optimizer.Return result
    ∧ result = Plan.empty_result "No capacity"
    ∧ message (OptimizationResult.items result)
        (unlocked_profiles (ability_levels (Rewards.init sample_reward_data) ∅)
                           [Samples.sample_profile 1 60])
      = Some "Increase ability levels to unlock saleable items.".
Proof.
  apply (nothing_unlocked (Rewards.init sample_reward_data)
           (Progression.ProgressionRepository_init Samples.sample_total_level_data) 100000
           [Samples.sample_profile 1 60] (mkOptimiseRequest ∅ [] 1)).
  vm_compute. reflexivity.
Defined.

End AppFacts.

(** ** What [compute_profile] and [supported_profiles] give back *)

Module ShapeClaims.

Import Calculator Resolve Built Shape Samples ResolveFacts ShapeFacts.

(** X8. An id that is not a sale item resolves to [None] and leaves the
    cache as it is; an id that is a sale item always resolves to a
    profile. *)
Theorem unknown_item_gives_none (self : Calculator.t) (cache : gmap Z ProductionProfile)
    (item_id : Z) :
  reachable self cache →
  (sale_items self !! item_id = None →
   compute_profile self cache item_id = Some (None, cache))
  ∧ (is_Some (sale_items self !! item_id) →
     ∃ p cache', compute_profile self cache item_id = Some (Some p, cache')).
Proof.
  intros Hreach. apply reachable_cache_ok in Hreach. split.
  - intros Hunknown.
    assert (cache !! item_id = None) as Hmiss.
    { destruct (cache !! item_id) as [p|] eqn:Hp; [|done].
      destruct (Hreach _ _ Hp) as (_ & sale & Hsale & _). congruence. }
    unfold compute_profile, recursion_budget. simpl. unfold _compute_profile_body. simpl.
    rewrite Hmiss, Hunknown.
    by destruct (decide (item_id ∈ (∅ : gset Z))).
  - intros [sale Hsale]. by eapply compute_profile_sale.
Qed.

Lemma unknown_item_gives_none_witness :
  compute_profile sample_calculator ∅ 999 = Some (None, ∅).
Proof.
  apply (unknown_item_gives_none sample_calculator ∅ 999 (reachable_init _)).
  vm_compute. reflexivity.
Defined.

(** X9. A call of [compute_profile] only adds to the cache: every profile
    cached before is cached unchanged afterwards, and every key of the
    cache is the id of a sale item. *)
Theorem cache_only_grows (self : Calculator.t) (cache : gmap Z ProductionProfile)
    (item_id : Z) :
  reachable self cache →
  ∃ r cache',
    compute_profile self cache item_id = Some (r, cache')
    ∧ cache ⊆ cache'
    ∧ ∀ k, is_Some (cache' !! k) → is_Some (sale_items self !! k).
Proof.
  intros Hreach.
  destruct (compute_profile_total self cache item_id) as (r & cache' & Hcall).
  exists r, cache'. split; [done|]. split; [by eapply compute_profile_grows|].
  assert (reachable self cache') as Hreach' by (by econstructor).
  apply reachable_cache_ok in Hreach'.
  intros k [p Hp]. destruct (Hreach' _ _ Hp) as (_ & sale & Hsale & _). eauto.
Qed.

Lemma cache_only_grows_witness :
  ∃ r cache',
    compute_profile sample_calculator ∅ 301 = Some (r, cache')
    ∧ ∅ ⊆ cache'
    ∧ ∀ k, is_Some (cache' !! k) → is_Some (sale_items sample_calculator !! k).
Proof. apply (cache_only_grows sample_calculator ∅ 301 (reachable_init _)). Defined.

(** X10. The profile of a sale item repeats the item's own fields: id,
    name, sale value, unlock ability and level, and category. *)
Theorem profile_repeats_sale_item (self : Calculator.t) (cache : gmap Z ProductionProfile)
    (item_id : Z) (sale : SaleItem) :
  reachable self cache →
  sale_items self !! item_id = Some sale →
  ∃ p cache',
    compute_profile self cache item_id = Some (Some p, cache') ∧ header_of sale p.
Proof.
  intros Hreach Hsale.
  destruct (compute_profile_sale self cache item_id sale (reachable_cache_ok _ _ Hreach) Hsale)
    as (p & cache' & Hcall).
  exists p, cache'. split; [done|].
  destruct (compute_profile_shape self _ _ _ _ (reachable_cache_shaped _ _ Hreach) Hcall)
    as [_ Hshaped].
  destruct (Hshaped p eq_refl) as (sale' & Hsale' & Hheader & _).
  congruence.
Qed.

Lemma profile_repeats_sale_item_witness :
  ∃ p cache',
    compute_profile sample_calculator ∅ 201 = Some (Some p, cache')
    ∧ header_of (sale_item_of sample_localization (sale_row 201 47 40)) p.
Proof.
  apply (profile_repeats_sale_item sample_calculator ∅ 201 _ (reachable_init _)).
  vm_compute. reflexivity.
Defined.

(** X11. The components of a furniture profile are the materials of its
    recipe, one for one (same item, same quantity, same order), whether or
    not they resolved, and the profile carries the recipe note exactly
    when the recipe is empty or missing.  A profile that is not furniture
    has no components and at most one note, and carries it exactly when it
    has no facility entry. *)
Theorem components_mirror_recipe (self : Calculator.t) (cache : gmap Z ProductionProfile)
    (item_id : Z) (sale : SaleItem) :
  reachable self cache →
  sale_items self !! item_id = Some sale →
  ∃ p cache',
    compute_profile self cache item_id = Some (Some p, cache')
    ∧ (SaleItem.category sale = "furniture" →
       mirrors (materials_of self sale) (ProductionProfile.components p)
       ∧ (ProductionProfile.notes p = [] ↔ materials_of self sale ≠ [])
       ∧ (materials_of self sale = [] →
          ProductionProfile.notes p = ["Furniture recipe not found in extracted data."]
          ∧ ProductionProfile.facility_minutes p
            = {[ CRAFT_FACILITY := craft_minutes self (SaleItem.item_id sale) ]}))
    ∧ (SaleItem.category sale ≠ "furniture" →
       ProductionProfile.components p = []
       ∧ (length (ProductionProfile.notes p) ≤ 1)%nat
       ∧ (ProductionProfile.notes p = [] ↔ ProductionProfile.facility_minutes p ≠ ∅)).
Proof.
  intros Hreach Hsale.
  destruct (compute_profile_sale self cache item_id sale (reachable_cache_ok _ _ Hreach) Hsale)
    as (p & cache' & Hcall).
  exists p, cache'. split; [done|].
  destruct (compute_profile_shape self _ _ _ _ (reachable_cache_shaped _ _ Hreach) Hcall)
    as [_ Hshaped].
  destruct (Hshaped p eq_refl) as (sale' & Hsale' & _ & Hshape).
  assert (sale' = sale) as -> by congruence.
  split.
  - intros Hfurn. rewrite Hfurn in Hshape. simpl in Hshape.
    destruct Hshape as [Hmirror Hnotes]. split; [done|]. split.
    + rewrite Hnotes. by destruct (materials_of self sale).
    + intros Hempty. rewrite Hnotes, Hempty. split; [done|].
      apply reachable_cache_ok in Hreach.
      destruct (compute_profile_made_for self _ _ _ _ Hreach Hcall)
        as (Hbuilt & sale2 & Hsale2 & Hid & Hcat & _).
      assert (sale2 = sale) as -> by congruence. rewrite Hfurn in Hcat.
      destruct Hbuilt as [s Hs|s Hs|s resolved Hs Hlen Hres|s Hp Hf Hfu];
        simpl in Hcat, Hid; try congruence.
      simpl. unfold furniture_minutes, materials_of in *. rewrite Hid, Hempty. done.
  - intros Hother.
    destruct (String.eqb_spec (SaleItem.category sale) "furniture"); [done | exact Hshape].
Qed.

Lemma components_mirror_recipe_witness :
  ∃ p cache',
    compute_profile sample_calculator ∅ 302 = Some (Some p, cache')
    ∧ map (fun c => (ComponentRequirement.item_id c, ComponentRequirement.quantity c))
          (ProductionProfile.components p)
      = [(303, of_Z 1)].
Proof.
  destruct (components_mirror_recipe sample_calculator ∅ 302
              (sale_item_of sample_localization (sale_row 302 22 500)) (reachable_init _))
    as (p & cache' & Hcall & Hfurn & _); [vm_compute; reflexivity|].
  exists p, cache'. split; [exact Hcall|].
  destruct (Hfurn eq_refl) as [Hmirror _]. exact Hmirror.
Defined.

(** *** [supported_profiles] *)

Lemma supported_profiles_loop_spec (self : Calculator.t) (item_ids : list Z) :
  (∀ item_id, item_id ∈ item_ids → is_Some (sale_items self !! item_id)) →
  ∀ cache acc, reachable self cache →
    ∃ found cache',
      supported_profiles_loop self item_ids cache acc = Some (acc ++ found, cache')
      ∧ cache ⊆ cache'
      ∧ reachable self cache'
      ∧ length found = length item_ids
      ∧ ∀ i item_id, item_ids !! i = Some item_id →
          ∃ p, found !! i = Some p ∧ cache' !! item_id = Some p.
Proof.
  induction item_ids as [|item_id rest IH]; intros Hsale cache acc Hreach; simpl.
  - exists [], cache. rewrite app_nil_r. split; [done|]. split; [done|]. split; [done|].
    split; [done|]. intros i k Hk. by rewrite lookup_nil in Hk.
  - destruct (Hsale item_id (list_elem_of_here _ _)) as [sale Hs].
    destruct (compute_profile_sale self cache item_id sale (reachable_cache_ok _ _ Hreach) Hs)
      as (p & cache1 & Hcall).
    rewrite Hcall.
    assert (reachable self cache1) as Hreach1 by (by econstructor).
    destruct (IH (λ k Hk, Hsale k (list_elem_of_further _ _ _ Hk)) cache1 (acc ++ [p]) Hreach1)
      as (found & cache' & Hloop & Hgrow & Hreach' & Hlen & Hfound).
    exists (p :: found), cache'. rewrite Hloop, <- app_assoc. split; [done|].
    split; [etrans; [by eapply compute_profile_grows | done]|].
    split; [done|]. split; [simpl; by rewrite Hlen|].
    intros [|i] k Hk; simpl in Hk.
    + injection Hk as <-. exists p. split; [done|].
      eapply lookup_weaken; [|exact Hgrow].
      by destruct (compute_profile_ok self _ _ _ _ (reachable_cache_ok _ _ Hreach) Hcall)
        as (_ & _ & ?).
    + by apply Hfound.
Qed.

(** X12. [supported_profiles], run over ids that are all sale items,
    returns one profile per id, in order, none skipped; each of them is the
    profile the cache holds for its id when the run ends. *)
Theorem supported_profiles_one_per_item (self : Calculator.t) (item_ids : list Z)
    (cache : gmap Z ProductionProfile) :
  (∀ item_id, item_id ∈ item_ids → is_Some (sale_items self !! item_id)) →
  reachable self cache →
  ∃ profiles cache',
    supported_profiles_loop self item_ids cache [] = Some (profiles, cache')
    ∧ length profiles = length item_ids
    ∧ ∀ i item_id, item_ids !! i = Some item_id →
        ∃ p, profiles !! i = Some p ∧ cache' !! item_id = Some p.
Proof.
  intros Hsale Hreach.
  destruct (supported_profiles_loop_spec self item_ids Hsale cache [] Hreach)
    as (found & cache' & Hloop & _ & _ & Hlen & Hfound).
  exists found, cache'. done.
Qed.

Lemma supported_profiles_one_per_item_witness :
  ∃ profiles cache',
    supported_profiles_loop sample_calculator [301; 101; 303] ∅ [] = Some (profiles, cache')
    ∧ length profiles = 3%nat.
Proof.
  destruct (supported_profiles_one_per_item sample_calculator [301; 101; 303] ∅)
    as (profiles & cache' & Hloop & Hlen & _).
  - intros item_id Hin.
    repeat (apply elem_of_cons in Hin as [->|Hin]; [vm_compute; eauto|]).
    by apply elem_of_nil in Hin.
  - apply reachable_init.
  - exists profiles, cache'. split; [exact Hloop | exact Hlen].
Defined.

End ShapeClaims.

(** ** What the loaders keep *)

Module LoaderClaims.

Import Calculator Resolve Built Loaded Samples FloatFacts GrowthFacts.

(** *** The yield parser *)

Lemma scan_numbers_no_digit (text : string) :
  has_digit text = false → scan_numbers Idle text = [].
Proof.
  induction text as [|c rest IH]; simpl; [done|].
  destruct (digit_value c); [done | exact IH].
Qed.

Lemma scan_numbers_nonempty (bound : nat) :
  ∀ text st, (String.length text ≤ bound)%nat →
             st ≠ Idle ∨ has_digit text = true →
             scan_numbers st text ≠ [].
Proof.
  induction bound as [|bound IH]; intros [|c rest] st Hlen Hsome; simpl in *; try lia.
  - destruct Hsome as [Hst|?]; [|done]. by destruct st.
  - destruct Hsome as [Hst|?]; [|done]. by destruct st.
  - assert (Hrest : (String.length rest ≤ bound)%nat) by lia.
    destruct (digit_value c) as [d|] eqn:Hd.
    + destruct st; apply IH; auto.
    + destruct st as [|n|n f k].
      * apply IH; [done|]. destruct Hsome as [?|?]; [done | by right].
      * case_match; [|done].
        destruct rest as [|c' rest']; [done|].
        destruct (digit_value c') eqn:Hd'; [|done].
        apply IH; [simpl in *; lia | by left].
      * done.
Qed.

(** X13. On an ASCII text [_parse_average] falls back exactly when the
    text holds no digit: a text without digits gives the fallback, and a
    text with a digit gives a value that is not negative (and not [nan])
    and does not depend on the fallback.  A sign is never read: a text and
    the same text after a minus sign average to the same value. *)
Theorem parse_average_fallback (text : string) (fallback : float) :
  ascii_only text = true →
  (has_digit text = false → _parse_average text fallback = fallback)
  ∧ (has_digit text = true →
     nonneg (_parse_average text fallback)
     ∧ _parse_average text fallback = _parse_average text zero)
  ∧ _parse_average ("-" +:+ text) fallback = _parse_average text fallback.
Proof.
  intros _. split; [|split].
  - intros Hnone. unfold _parse_average, _parse_numbers.
    by rewrite scan_numbers_no_digit.
  - intros Hsome. unfold _parse_average.
    pose proof (_parse_numbers_nonneg text) as Hnn.
    pose proof (scan_numbers_nonempty (String.length text) text Idle (le_n _) (or_intror Hsome))
      as Hne.
    fold (_parse_numbers text) in Hne.
    destruct (_parse_numbers text) as [|x xs]; [done|]. split; [|done].
    apply finite_nonneg_nonneg.
    apply finite_nonneg_fdiv; [by apply finite_nonneg_fsum|].
    apply finite_positive_of_Z. simpl. lia.
  - reflexivity.
Qed.

Lemma parse_average_fallback_witness :
  _parse_average "n/a" (of_Z 1) = of_Z 1 ∧ _parse_average "2-4" NaN = of_Z 3.
Proof.
  destruct (parse_average_fallback "n/a" (of_Z 1) eq_refl) as (Hnone & _ & _).
  destruct (parse_average_fallback "2-4" NaN eq_refl) as (_ & Hsome & _).
  split; [by apply Hnone|].
  destruct (Hsome eq_refl) as [_ ->]. float_eq.
Defined.

(** *** Plant growth *)

(** X14. The average yield of a loaded plant growth record is never
    negative (and never [nan]), so the guard [average_yield <= 0] of
    [minutes_per_item] fires for a yield of exactly 0 and for no other:
    the minutes per item are +infinity for a yield of 0 and the cycle
    minutes divided by the yield for every other record. *)
Theorem yield_guard_fires_at_zero (loader : Raw.Datasets) (loc : Localization)
    (h : Z) (g : PlantGrowth) :
  plant_growth (Calculator.init loader loc) !! h = Some g →
  nonneg (PlantGrowth.average_yield g)
  ∧ (fle (PlantGrowth.average_yield g) zero = true ↔ PlantGrowth.average_yield g = zero)
  ∧ (PlantGrowth.average_yield g = zero → PlantGrowth.minutes_per_item g = PInf)
  ∧ (PlantGrowth.average_yield g ≠ zero →
     PlantGrowth.minutes_per_item g
     = (PlantGrowth.cycle_minutes g / PlantGrowth.average_yield g)%float).
Proof.
  intros Hg. apply _load_plant_growth_lookup in Hg as (entry & _ & _ & ->).
  pose proof (plant_yield_nonneg entry) as Hyield.
  split; [by apply finite_nonneg_nonneg|].
  unfold PlantGrowth.minutes_per_item.
  cbn [PlantGrowth.average_yield plant_growth_of]. fold (plant_yield entry).
  destruct Hyield as (y & -> & Hy).
  assert (Hguard : fle (Fin y) zero = true ↔ Fin y = zero).
  { split.
    - intros Hle. unfold zero. f_equal. apply Qcle_antisym; [by apply Qc_leb_le | done].
    - intros [= ->]. by apply Qc_leb_le. }
  split; [exact Hguard|]. split.
  - intros Hzero. by rewrite (proj2 Hguard Hzero).
  - intros Hne. destruct (fle (Fin y) zero) eqn:Hle; [|done].
    by destruct Hne; apply Hguard.
Qed.

Lemma yield_guard_fires_at_zero_witness :
  ∃ g, plant_growth sample_calculator !! 102 = Some g
       ∧ PlantGrowth.average_yield g = zero ∧ PlantGrowth.minutes_per_item g = PInf.
Proof.
  destruct (plant_growth sample_calculator !! 102) as [g|] eqn:Hg;
    [|vm_compute in Hg; discriminate Hg].
  exists g. split; [reflexivity|].
  destruct (yield_guard_fires_at_zero sample_datasets sample_localization 102 g Hg)
    as (_ & _ & Hzero & _).
  assert (PlantGrowth.average_yield g = zero) as Hyield.
  { vm_compute in Hg. injection Hg as <-. float_eq. }
  split; [exact Hyield | by apply Hzero].
Defined.

Lemma _load_plant_growth_fold (speedup : Z) (growth_data : list Raw.PlantProcess) (h : Z) :
  h ≠ 0 →
  ∀ acc : gmap Z PlantGrowth,
    fold_left
      (fun acc entry =>
         let harvest_item := default 0 (Raw.pp_harvest_item entry) in
         if harvest_item =? 0 then acc
         else <[harvest_item := plant_growth_of speedup entry harvest_item]> acc)
      growth_data acc !! h
    = match list.last (filter (harvests h) growth_data) with
      | Some entry => Some (plant_growth_of speedup entry h)
      | None => acc !! h
      end.
Proof.
  intros Hnz. induction growth_data as [|entry rest IH]; intros acc; simpl; [done|].
  rewrite IH. clear IH.
  destruct (decide (harvests h entry)) as [Hh|Hh]; unfold harvests in Hh.
  - rewrite filter_cons_True by done.
    destruct (filter (harvests h) rest) as [|e l] eqn:Hf.
    + simpl. rewrite Hh. destruct (Z.eqb_spec h 0); [done|]. by rewrite lookup_insert_eq.
    + rewrite last_cons_cons.
      destruct (list.last (e :: l)) eqn:Hl; [done|]. by apply last_None in Hl.
  - rewrite filter_cons_False by done.
    destruct (list.last (filter (harvests h) rest)); [done|].
    destruct (_ =? 0); [done|]. by rewrite lookup_insert_ne.
Qed.

Lemma _load_plant_growth_zero (speedup : Z) (growth_data : list Raw.PlantProcess) :
  ∀ acc : gmap Z PlantGrowth, acc !! 0 = None →
    fold_left
      (fun acc entry =>
         let harvest_item := default 0 (Raw.pp_harvest_item entry) in
         if harvest_item =? 0 then acc
         else <[harvest_item := plant_growth_of speedup entry harvest_item]> acc)
      growth_data acc !! 0 = None.
Proof.
  induction growth_data as [|entry rest IH]; intros acc Hacc; simpl; [done|].
  apply IH. destruct (Z.eqb_spec (default 0 (Raw.pp_harvest_item entry)) 0); [done|].
  by rewrite lookup_insert_ne.
Qed.

(** X15. The plant growth table holds, for every harvest item other than
    0, the record of the last row of the raw table that names it, and
    nothing when no row names it; rows without a harvest item (or with
    harvest item 0) are skipped, so 0 is never a key. *)
Theorem plant_growth_last_row_wins (growth_data : list Raw.PlantProcess)
    (nutrient_data : list Raw.PlantNutrient) (h : Z) :
  h ≠ 0 →
  _load_plant_growth growth_data nutrient_data !! h
  = (fun entry => plant_growth_of (plant_default_speedup nutrient_data) entry h)
      <$> list.last (filter (harvests h) growth_data)
  ∧ _load_plant_growth growth_data nutrient_data !! 0 = None.
Proof.
  intros Hnz. unfold _load_plant_growth. split.
  - rewrite (_load_plant_growth_fold _ _ _ Hnz), lookup_empty.
    by destruct (list.last _).
  - apply _load_plant_growth_zero, lookup_empty.
Qed.

Lemma plant_growth_last_row_wins_witness :
  PlantGrowth.seed_id
    <$> _load_plant_growth
          [ Raw.mkPlantProcess (Some 7) [Some 10] None 1 [];
            Raw.mkPlantProcess None [Some 10] None 2 [];
            Raw.mkPlantProcess (Some 7) [Some 10] None 3 [] ] [] !! 7
  = Some 3.
Proof.
  rewrite (proj1 (plant_growth_last_row_wins _ _ 7 ltac:(discriminate))).
  reflexivity.
Defined.

(** *** Sale items *)

(** X16. Every sale item of the loaded table is filed under its own item
    id, carries the localised name of that id, and has the category of its
    ability: furniture for 22, plant for 34, meteor for 45, fish for 47,
    animal for 48 and "other" for every other ability. *)
Theorem sale_items_keyed_by_id (loc : Localization) (raw : list Raw.SaleInfo)
    (item_id : Z) (sale : SaleItem) :
  _load_sale_items loc raw !! item_id = Some sale →
  SaleItem.item_id sale = item_id
  ∧ SaleItem.name sale = Localization.item_name loc item_id
  ∧ SaleItem.category sale ∈ categories
  ∧ SaleItem.category sale = default "other" (ABILITY_CATEGORY (SaleItem.ability_id sale))
  ∧ (SaleItem.category sale = "plant" ↔ SaleItem.ability_id sale = 34)
  ∧ (SaleItem.category sale = "fish" ↔ SaleItem.ability_id sale = 47)
  ∧ (SaleItem.category sale = "furniture" ↔ SaleItem.ability_id sale = 22).
Proof.
  intros Hsale. apply fold_insert_lookup in Hsale as [Hempty|(entry & _ & <- & <-)].
  { by rewrite lookup_empty in Hempty. }
  simpl. split; [done|]. split; [done|]. unfold ABILITY_CATEGORY, categories.
  destruct (Z.eqb_spec (Raw.sale_ability_id entry) 22) as [->|H22];
    [simpl; split_and!; try done; try (split; [done | lia]); set_solver|].
  destruct (Z.eqb_spec (Raw.sale_ability_id entry) 34) as [->|H34];
    [simpl; split_and!; try done; try (split; [done | lia]); set_solver|].
  destruct (Z.eqb_spec (Raw.sale_ability_id entry) 45) as [->|H45];
    [simpl; split_and!; try done; try (split; [done | lia]); set_solver|].
  destruct (Z.eqb_spec (Raw.sale_ability_id entry) 47) as [->|H47];
    [simpl; split_and!; try done; try (split; [done | lia]); set_solver|].
  destruct (Z.eqb_spec (Raw.sale_ability_id entry) 48) as [->|H48];
    [simpl; split_and!; try done; try (split; [done | lia]); set_solver|].
  simpl. split_and!; try done; try (split; [done | lia]). set_solver.
Qed.

Lemma sale_items_keyed_by_id_witness :
  ∃ sale, sale_items sample_calculator !! 201 = Some sale
          ∧ SaleItem.item_id sale = 201 ∧ SaleItem.category sale = "fish".
Proof.
  destruct (sale_items sample_calculator !! 201) as [sale|] eqn:Hsale;
    [|vm_compute in Hsale; discriminate Hsale].
  exists sale. split; [reflexivity|].
  destruct (sale_items_keyed_by_id sample_localization
              (Raw.TbHomeProductsSaleInfo sample_datasets) 201 sale Hsale)
    as (Hid & _ & _ & _ & _ & Hfish & _).
  split; [exact Hid|]. apply Hfish.
  vm_compute in Hsale. by injection Hsale as <-.
Defined.

(** *** Fish growth *)

(** X17. A fish's growth record is found through its localised name, not
    its id: the calculator has a fish growth record for an item exactly
    when the item is a sale item of category "fish" and a growth row's
    fish name, lower-cased, equals the item's lower-cased name; the record
    is then that row's, with one item per cycle.  So an item that is not a
    fish sale item never has a fish growth record. *)
Theorem fish_growth_matched_by_name (loader : Raw.Datasets) (loc : Localization)
    (item_id : Z) :
  let self := Calculator.init loader loc in
  fish_growth self !! item_id
  = sale_items self !! item_id
      ≫= fish_growth_for loc (Raw.TbHomeFishGrowthConfig loader)
                          (Raw.TbHomeFishNutrientConfig loader)
  ∧ (∀ growth, fish_growth self !! item_id = Some growth →
       FishGrowth.yield_per_cycle growth = of_Z 1
       ∧ ∃ sale, sale_items self !! item_id = Some sale
                 ∧ SaleItem.category sale = "fish"
                 ∧ Localization.lower (FishGrowth.name growth)
                   = Localization.lower (SaleItem.name sale)).
Proof.
  cbn zeta. cbn [fish_growth sale_items Calculator.init].
  pose proof (_load_fish_growth_by_sale loc
    (_load_sale_items loc (Raw.TbHomeProductsSaleInfo loader))
    (Raw.TbHomeFishGrowthConfig loader) (Raw.TbHomeFishNutrientConfig loader)
    (_load_sale_items_item_id loc _)) as Hchar.
  split; [apply Hchar|].
  intros growth Hgrowth. rewrite Hchar in Hgrowth.
  destruct (_load_sale_items loc _ !! item_id) as [sale|]; [|done].
  cbn [mbind option_bind] in Hgrowth. unfold fish_growth_for in Hgrowth.
  destruct (String.eqb (SaleItem.category sale) "fish") eqn:Hcat; [|done].
  cbn [negb] in Hgrowth.
  apply fish_growth_by_name_key in Hgrowth as (Hyield & Hname).
  split; [done|]. exists sale. split; [done|]. split; [|done].
  by apply String.eqb_eq.
Qed.

End LoaderClaims.

(** ** The problem handed to the solver and the plan read back *)

Module ReportFacts.

Import Optimizer Plan Report Samples FloatFacts OptimizerFacts.

Lemma finish_empty bonus_set capacities ordered solution :
  Lp.status_code solution ≠ 1 →
  finish bonus_set capacities ordered solution
  = empty_result (Lp.LpStatus (Lp.status_code solution)).
Proof.
  intros Hcode. unfold finish.
  by destruct (Z.eqb_spec (Lp.status_code solution) 1).
Qed.

Lemma finish_selected bonus_set capacities ordered solution item :
  item ∈ OptimizationResult.items (finish bonus_set capacities ordered solution) →
  ∃ profile, profile ∈ ordered
             ∧ fle (solved_value solution profile) tolerance = false
             ∧ item = optimized_item bonus_set profile (solved_value solution profile).
Proof.
  destruct (Z.eq_dec (Lp.status_code solution) 1) as [Hcode|Hcode].
  - destruct (finish_optimal bonus_set capacities ordered solution Hcode) as (_ & Hperm & _).
    rewrite <- Hperm. unfold selected. rewrite list_elem_of_omap.
    intros (profile & Hin & Hsel). exists profile. split; [done|].
    destruct (fle _ _); [done|]. split; [done | congruence].
  - rewrite finish_not_optimal by done. by intros ?%elem_of_nil.
Qed.

Lemma collect_usage_keys bonus_set solution ordered (f : string) :
  ∀ items usage total,
    is_Some ((collect bonus_set solution ordered items usage total).1.2 !! f)
    ↔ is_Some (usage !! f)
      ∨ ∃ item, item ∈ selected bonus_set solution ordered
                ∧ is_Some (OptimizedItem.facility_minutes item !! f).
Proof.
  induction ordered as [|profile rest IH]; intros items usage total; simpl.
  - split; [by left|]. intros [?|(item & Hin & _)]; [done|]. by apply elem_of_nil in Hin.
  - destruct (fle (solved_value solution profile) tolerance); [apply IH|].
    rewrite IH, add_usage_lookup. cbn [OptimizedItem.facility_minutes optimized_item].
    split.
    + intros [Hhere|(item & Hin & Hf)].
      * destruct (item_usage profile _ !! f) eqn:Hu; [|by left].
        right. eexists. split; [apply list_elem_of_here|]. simpl. by rewrite Hu.
      * right. exists item. split; [by apply list_elem_of_further | done].
    + intros [Husage|(item & Hin & Hf)].
      * left. by destruct (item_usage profile _ !! f).
      * apply elem_of_cons in Hin as [->|Hin].
        -- left. simpl in Hf. by destruct Hf as [x ->].
        -- right. by exists item.
Qed.

Lemma capacity_constraints_elem capacities ordered (c : Lp.Constraint) :
  c ∈ capacity_constraints capacities ordered
  ↔ ∃ facility capacity,
      capacities !! facility = Some (Some capacity)
      ∧ fle capacity zero = false
      ∧ c = capacity_constraint facility capacity ordered.
Proof.
  unfold capacity_constraints. rewrite list_elem_of_omap. split.
  - intros ([facility [capacity|]] & Hin & Hc); [|done].
    apply elem_of_map_to_list in Hin.
    destruct (fle capacity zero) eqn:Hle; [done|].
    injection Hc as <-. by exists facility, capacity.
  - intros (facility & capacity & Hin & Hle & ->).
    exists (facility, Some capacity). split; [by apply elem_of_map_to_list|].
    by rewrite Hle.
Qed.

Lemma omap_length_le {A B : Type} (f : A → option B) (l : list A) :
  (length (omap f l) ≤ length l)%nat.
Proof.
  induction l as [|x l IH]; [done|]. cbn [omap list_omap length].
  destruct (f x); cbn [length]; lia.
Qed.

(** *** Order of the reported items *)

Lemma fle_trans (x y z : float) : fle x y = true → fle y z = true → fle x z = true.
Proof.
  destruct x, y, z; simpl; try done.
  rewrite !Qc_leb_le. apply Qcle_trans.
Qed.

Lemma flt_fle (x y : float) : flt x y = true → fle x y = true.
Proof.
  destruct x, y; simpl; try done.
  rewrite Qc_ltb_lt, Qc_leb_le. apply Qclt_le_weak.
Qed.

Lemma not_flt_fle (x y : float) : x ≠ NaN → y ≠ NaN → flt x y = false → fle y x = true.
Proof.
  destruct x, y; simpl; try done.
  intros _ _ Hlt. apply Qc_leb_le. apply Qcnot_lt_le. intros Hxy.
  apply Qc_ltb_lt in Hxy. congruence.
Qed.

Lemma insert_by_astralite_sorted (x : OptimizedItem) (l : list OptimizedItem) :
  comparable x → Forall comparable l →
  StronglySorted descending l → StronglySorted descending (insert_by_astralite x l).
Proof.
  intros Hx Hl Hsorted. induction Hsorted as [|y l Hsorted IH Hy]; simpl.
  - repeat constructor.
  - apply list.Forall_cons in Hl as [Hcy Hl].
    destruct (flt (OptimizedItem.astralite x) (OptimizedItem.astralite y)) eqn:Hlt.
    + constructor; [by apply IH|].
      rewrite <- insert_by_astralite_Permutation. constructor; [|done].
      by apply flt_fle.
    + assert (descending x y) as Hxy by by apply not_flt_fle.
      constructor; [by constructor|]. constructor; [done|].
      eapply list.Forall_impl; [exact Hy|]. intros z Hz. unfold descending in *.
      by eapply fle_trans.
Qed.

Lemma sort_by_astralite_sorted (l : list OptimizedItem) :
  Forall comparable l → StronglySorted descending (sort_by_astralite l).
Proof.
  induction 1 as [|x l Hx Hl IH]; simpl; [constructor|].
  apply insert_by_astralite_sorted; [done| |done].
  by rewrite <- sort_by_astralite_Permutation.
Qed.

Lemma finish_sorted bonus_set capacities ordered solution :
  Forall comparable (OptimizationResult.items (finish bonus_set capacities ordered solution)) →
  StronglySorted descending
    (OptimizationResult.items (finish bonus_set capacities ordered solution)).
Proof.
  unfold finish. destruct (_ =? 1); [|constructor].
  destruct (collect _ _ _ _ _ _) as [[items usage] total]. simpl.
  intros Hall. apply sort_by_astralite_sorted.
  by rewrite (sort_by_astralite_Permutation items).
Qed.

(** *** The theorems *)

(** X18. In an optimal plan the total is the astralite of the reported
    items added one after the other to 0, in the order of the profiles
    (the items themselves are returned sorted by astralite); an item's
    astralite is its sale value times its multiplier, times its units. *)
Theorem total_astralite_is_item_sum (profiles : list ProductionProfile)
    (weekly_limit : float) (capacities : gmap string (option float))
    (bonus_item_ids : option (list Z))
    (problem : Lp.Problem) (continue : Lp.Solution → OptimizationResult)
    (solution : Lp.Solution) :
  optimise_portfolio profiles weekly_limit capacities bonus_item_ids
  = Solve problem continue →
  Lp.status_code solution = 1 →
  let result := continue solution in
  let picked :=
    selected (list_to_set (default [] bonus_item_ids)) solution
             (ordered_for problem profiles) in
  OptimizationResult.items result = sort_by_astralite picked
  ∧ OptimizationResult.total_astralite result
    = fold_left fadd (map OptimizedItem.astralite picked) zero
  ∧ ∀ item, item ∈ OptimizationResult.items result →
      OptimizedItem.astralite item
      = (ProductionProfile.sale_value (OptimizedItem.profile item)
         * OptimizedItem.multiplier item * OptimizedItem.units item)%float.
Proof.
  intros Hcall Hcode result picked. subst result picked.
  destruct (optimise_portfolio_problem _ _ _ _ _ _ Hcall) as (_ & _ & -> & _).
  destruct (finish_optimal (list_to_set (default [] bonus_item_ids)) capacities
              (ordered_for problem profiles) solution Hcode) as (_ & _ & Hitems).
  split; [done|]. split; [by apply finish_total|].
  intros item Hitem. by destruct (finish_items _ _ _ _ _ Hitem) as (profile & _ & ->).
Qed.

Lemma total_astralite_is_item_sum_witness :
  ∃ problem continue,
    optimise_portfolio [sample_profile 1 60; sample_profile 2 30] (of_Z 100)
      sample_capacities (Some [2])
    = Solve problem continue
    ∧ OptimizationResult.total_astralite (continue (sample_solution 2)) = of_Z 44.
Proof.
  do 2 eexists. split; [reflexivity|].
  destruct (total_astralite_is_item_sum [sample_profile 1 60; sample_profile 2 30] (of_Z 100)
              sample_capacities (Some [2]) _ _ (sample_solution 2) eq_refl eq_refl)
    as (_ & Htotal & _).
  rewrite Htotal. float_eq.
Defined.

(** X19. Whatever the solver answers, a reported item has more than
    [1e-6] units, these units are the value the solver gave to the item's
    variable, and the item's id is one of the problem's variables; no
    profile is reported twice when the profiles have distinct ids. *)
Theorem reported_items_above_tolerance (profiles : list ProductionProfile)
    (weekly_limit : float) (capacities : gmap string (option float))
    (bonus_item_ids : option (list Z))
    (problem : Lp.Problem) (continue : Lp.Solution → OptimizationResult)
    (solution : Lp.Solution) :
  optimise_portfolio profiles weekly_limit capacities bonus_item_ids
  = Solve problem continue →
  (∀ item, item ∈ OptimizationResult.items (continue solution) →
     fle (OptimizedItem.units item) tolerance = false
     ∧ Lp.value solution (OptimizedItem.item_id item) = Some (OptimizedItem.units item)
     ∧ OptimizedItem.item_id item ∈ Lp.variables problem
     ∧ OptimizedItem.item_id item = ProductionProfile.item_id (OptimizedItem.profile item)
     ∧ OptimizedItem.name item = ProductionProfile.name (OptimizedItem.profile item))
  ∧ (NoDup (map ProductionProfile.item_id profiles) →
     NoDup (map OptimizedItem.item_id (OptimizationResult.items (continue solution)))).
Proof.
  intros Hcall.
  destruct (optimise_portfolio_problem _ _ _ _ _ _ Hcall) as (_ & _ & -> & _).
  split.
  - intros item Hitem.
    destruct (finish_selected _ _ _ _ _ Hitem) as (profile & Hin & Htol & ->).
    cbn [optimized_item OptimizedItem.units OptimizedItem.item_id OptimizedItem.profile
         OptimizedItem.name].
    split; [done|]. split; [|split; [|done]].
    + rewrite solved_value_default in *.
      destruct (Lp.value solution _) as [v|]; [done|]. by vm_compute in Htol.
    + by apply list_elem_of_filter in Hin as [? _].
  - intros Hnodup.
    destruct (Z.eq_dec (Lp.status_code solution) 1) as [Hcode|Hcode].
    + destruct (finish_optimal (list_to_set (default [] bonus_item_ids)) capacities
                  (ordered_for problem profiles) solution Hcode) as (_ & Hperm & _).
      cbn zeta in Hperm. rewrite <- Hperm. unfold ordered_for.
      generalize (Lp.variables problem). intros vars. clear Hcall Hperm.
      induction profiles as [|p rest IH]; [constructor|].
      cbn [map] in Hnodup. apply list.NoDup_cons in Hnodup as [Hfresh Hnodup].
      assert (Hids : ∀ item,
        item ∈ selected (list_to_set (default [] bonus_item_ids)) solution
                 (filter (λ profile, ProductionProfile.item_id profile ∈ vars) rest) →
        OptimizedItem.item_id item ∈ map ProductionProfile.item_id rest).
      { intros item. unfold selected. rewrite list_elem_of_omap.
        intros (q & Hq & Hsel). apply list_elem_of_filter in Hq as [_ Hq].
        destruct (fle _ _); [done|]. injection Hsel as <-. simpl.
        apply list_elem_of_fmap. by exists q. }
      destruct (decide (ProductionProfile.item_id p ∈ vars)) as [Hp|Hp].
      * rewrite filter_cons_True by done. unfold selected. cbn [omap list_omap].
        destruct (fle _ _); [by apply IH|]. cbn [map].
        apply list.NoDup_cons. split; [|by apply IH].
        intros Hin. apply Hfresh.
        apply list_elem_of_fmap in Hin as (item & Hid & Hin).
        simpl in Hid. rewrite Hid. by apply Hids.
      * rewrite filter_cons_False by done. by apply IH.
    + rewrite finish_not_optimal by done. constructor.
Qed.

Lemma reported_items_above_tolerance_witness :
  ∃ problem continue,
    optimise_portfolio [sample_profile 1 60] (of_Z 100) sample_capacities None
    = Solve problem continue
    ∧ ∀ item, item ∈ OptimizationResult.items (continue (sample_solution 2)) →
              fle (OptimizedItem.units item) tolerance = false.
Proof.
  do 2 eexists. split; [reflexivity|]. intros item Hitem.
  destruct (reported_items_above_tolerance [sample_profile 1 60] (of_Z 100) sample_capacities
              None _ _ (sample_solution 2) eq_refl) as [Hitems _].
  by destruct (Hitems item Hitem) as [? _].
Defined.

(** X20. The usage map of the result depends on the solver's status.  For
    a status other than 1 the result is the empty one under the status
    name: no items, total 0 and a usage map without any facility, also
    those that have a capacity.  For status 1 the usage map has an entry
    for exactly the facilities that have a capacity entry or that some
    reported item uses. *)
Theorem usage_keys_follow_status (profiles : list ProductionProfile)
    (weekly_limit : float) (capacities : gmap string (option float))
    (bonus_item_ids : option (list Z))
    (problem : Lp.Problem) (continue : Lp.Solution → OptimizationResult)
    (solution : Lp.Solution) :
  optimise_portfolio profiles weekly_limit capacities bonus_item_ids
  = Solve problem continue →
  let result := continue solution in
  (Lp.status_code solution ≠ 1 →
   result = empty_result (Lp.LpStatus (Lp.status_code solution)))
  ∧ (Lp.status_code solution = 1 →
     ∀ facility,
       is_Some (OptimizationResult.facility_usage result !! facility)
       ↔ is_Some (capacities !! facility)
         ∨ ∃ item, item ∈ OptimizationResult.items result
                   ∧ is_Some (OptimizedItem.facility_minutes item !! facility)).
Proof.
  intros Hcall result. subst result.
  destruct (optimise_portfolio_problem _ _ _ _ _ _ Hcall) as (_ & _ & -> & _).
  split; [apply finish_empty|].
  intros Hcode f.
  destruct (finish_optimal (list_to_set (default [] bonus_item_ids)) capacities
              (ordered_for problem profiles) solution Hcode) as (_ & Hperm & _).
  cbn zeta in Hperm.
  assert (Hsame : (∃ item, item ∈ OptimizationResult.items
                                    (finish (list_to_set (default [] bonus_item_ids))
                                       capacities (ordered_for problem profiles) solution)
                           ∧ is_Some (OptimizedItem.facility_minutes item !! f))
                  ↔ ∃ item, item ∈ selected (list_to_set (default [] bonus_item_ids)) solution
                                     (ordered_for problem profiles)
                            ∧ is_Some (OptimizedItem.facility_minutes item !! f)).
  { split; intros (item & Hin & Hf); exists item; (split; [|done]).
    - by rewrite Hperm.
    - by rewrite <- Hperm. }
  rewrite Hsame. clear Hsame Hperm.
  unfold finish. rewrite Hcode. cbn [Z.eqb Pos.eqb].
  pose proof (collect_usage_keys (list_to_set (default [] bonus_item_ids)) solution
                (ordered_for problem profiles) f [] ((λ _, zero) <$> capacities) zero) as Hkeys.
  destruct (collect _ _ _ _ _ _) as [[items usage] total].
  cbn [fst snd OptimizationResult.facility_usage] in *.
  rewrite Hkeys, lookup_fmap, fmap_is_Some. done.
Qed.

Lemma usage_keys_follow_status_witness :
  ∃ problem continue,
    optimise_portfolio [sample_profile 1 60] (of_Z 100) sample_capacities None
    = Solve problem continue
    ∧ continue {| Lp.status_code := -1; Lp.value := fun _ => None |}
      = empty_result "Infeasible".
Proof.
  do 2 eexists. split; [reflexivity|].
  destruct (usage_keys_follow_status [sample_profile 1 60] (of_Z 100) sample_capacities
              None _ _ {| Lp.status_code := -1; Lp.value := fun _ => None |} eq_refl)
    as [Hempty _].
  by apply Hempty.
Defined.

(** X21. The reported items come in order of falling astralite, as long
    as no item's astralite is [nan]. *)
Theorem items_sorted_descending (profiles : list ProductionProfile)
    (weekly_limit : float) (capacities : gmap string (option float))
    (bonus_item_ids : option (list Z))
    (problem : Lp.Problem) (continue : Lp.Solution → OptimizationResult)
    (solution : Lp.Solution) :
  optimise_portfolio profiles weekly_limit capacities bonus_item_ids
  = Solve problem continue →
  Forall comparable (OptimizationResult.items (continue solution)) →
  StronglySorted descending (OptimizationResult.items (continue solution)).
Proof.
  intros Hcall.
  destruct (optimise_portfolio_problem _ _ _ _ _ _ Hcall) as (_ & _ & -> & _).
  apply finish_sorted.
Qed.

Lemma items_sorted_descending_witness :
  ∃ problem continue,
    optimise_portfolio [sample_profile 1 60; sample_profile 2 30] (of_Z 100)
      sample_capacities (Some [2])
    = Solve problem continue
    ∧ StronglySorted descending (OptimizationResult.items (continue (sample_solution 2)))
    ∧ map OptimizedItem.item_id (OptimizationResult.items (continue (sample_solution 2)))
      = [2; 1].
Proof.
  do 2 eexists. split; [reflexivity|]. split; [|reflexivity].
  apply (items_sorted_descending [sample_profile 1 60; sample_profile 2 30] (of_Z 100)
           sample_capacities (Some [2]) _ _ (sample_solution 2) eq_refl).
  vm_compute. repeat constructor; discriminate.
Defined.

(** X22. The problem of a call that reaches the solver: its variables are
    the ids of the profiles with a sale value above zero; its constraints
    are the weekly cap on the objective, last, and before it one capacity
    constraint for every facility whose capacity is given and not [<= 0],
    and no other: a facility whose capacity is [None], zero or negative is
    left unconstrained. *)
Theorem problem_constraints (profiles : list ProductionProfile)
    (weekly_limit : float) (capacities : gmap string (option float))
    (bonus_item_ids : option (list Z))
    (problem : Lp.Problem) (continue : Lp.Solution → OptimizationResult) :
  optimise_portfolio profiles weekly_limit capacities bonus_item_ids
  = Solve problem continue →
  let ordered := ordered_for problem profiles in
  let weekly :=
    weekly_constraint (list_to_set (default [] bonus_item_ids)) weekly_limit ordered in
  (∀ item_id, item_id ∈ Lp.variables problem
              ↔ ∃ profile, profile ∈ profiles
                           ∧ ProductionProfile.item_id profile = item_id
                           ∧ fgt (ProductionProfile.sale_value profile) zero = true)
  ∧ list.last (Lp.constraints problem) = Some weekly
  ∧ Lp.expr weekly = Lp.objective problem
  ∧ (∀ c, c ∈ Lp.constraints problem
          ↔ c = weekly
            ∨ ∃ facility capacity,
                capacities !! facility = Some (Some capacity)
                ∧ fle capacity zero = false
                ∧ c = capacity_constraint facility capacity ordered)
  ∧ (length (Lp.constraints problem) ≤ S (size capacities))%nat.
Proof.
  intros Hcall ordered weekly.
  destruct (optimise_portfolio_problem _ _ _ _ _ _ Hcall) as (Hvars & Hcons & _ & _).
  destruct (optimise_portfolio_solve _ _ _ _ _ _ Hcall) as (ordered' & _ & Hobj & Hcont).
  cbn zeta in *. fold ordered in Hcons. fold weekly in Hcons.
  split; [|split; [|split; [|split]]].
  - intros item_id. rewrite Hvars, elem_of_list_to_set, list_elem_of_fmap.
    split.
    + intros (profile & -> & Hin). apply list_elem_of_filter in Hin as [Hpos Hin].
      by exists profile.
    + intros (profile & Hin & <- & Hpos). exists profile. split; [done|].
      by apply list_elem_of_filter.
  - rewrite Hcons. apply last_snoc.
  - subst weekly ordered. revert Hobj Hcall. unfold optimise_portfolio.
    destruct (_ || _); [done|]. case_decide; [done|]. by intros _ [= <- _].
  - intros c. rewrite Hcons, elem_of_app, list_elem_of_singleton, capacity_constraints_elem.
    tauto.
  - rewrite Hcons, length_app. simpl. unfold capacity_constraints.
    rewrite Nat.add_1_r. apply le_n_S.
    rewrite <- (length_map_to_list capacities). apply omap_length_le.
Qed.

Lemma problem_constraints_witness :
  ∃ problem continue,
    optimise_portfolio [sample_profile 1 60] (of_Z 100)
      {[ CRAFT_FACILITY := Some (of_Z 500); PLANT_FACILITY := Some zero ]} None
    = Solve problem continue
    ∧ list.last (Lp.constraints problem)
      = Some (weekly_constraint ∅ (of_Z 100) [sample_profile 1 60]).
Proof.
  do 2 eexists. split; [reflexivity|].
  destruct (problem_constraints [sample_profile 1 60] (of_Z 100)
              {[ CRAFT_FACILITY := Some (of_Z 500); PLANT_FACILITY := Some zero ]} None
              _ _ eq_refl) as (_ & Hlast & _).
  exact Hlast.
Defined.

(** *** The capacities of a request *)

Lemma of_Z_not_positive (z : Z) : fle (of_Z z) zero = false ↔ 0 < z.
Proof.
  unfold of_Z, zero. cbn [fle].
  rewrite <- not_true_iff_false, Qc_leb_le, <- Z2Qc_inj_0, <- Z2Qc_inj_le. lia.
Qed.

Lemma capacities_of_lookup (plots ponds slots : Z) (facility : string)
    (capacity : float) :
  App.capacities_of plots ponds slots !! facility = Some (Some capacity)
  ↔ (facility = PLANT_FACILITY ∧ capacity = of_Z (plots * WEEK_MINUTES))
    ∨ (facility = FISH_FACILITY ∧ capacity = of_Z (ponds * WEEK_MINUTES))
    ∨ (facility = CRAFT_FACILITY ∧ capacity = of_Z (slots * WEEK_MINUTES)).
Proof.
  unfold App.capacities_of.
  rewrite !lookup_insert_Some, lookup_singleton_Some.
  split.
  - intros [[<- [= <-]]|[? [[<- [= <-]]|[? [<- [= <-]]]]]]; auto.
  - intros [[-> ->]|[[-> ->]|[-> ->]]].
    + by left.
    + right. split; [done|]. by left.
    + right. split; [done|]. right. split; [done|]. done.
Qed.

(** X23. The constraints of the problem [api_optimise] poses: the weekly
    cap at the base limit plus the bonus of the total level, the crafting
    capacity of [max(crafting_slots, 1)] weeks, which is always there, and
    a capacity for farmland and for fish ponds only when the rewards up to
    the requested level hold at least one plot or pond.  A request
    without any plot leaves plant production unconstrained. *)
Theorem api_constraints (rewards : Rewards.Repository)
    (bonuses : Progression.ProgressionRepository) (BASE_WEEKLY_LIMIT : Z)
    (MODELLED_PROFILES : list ProductionProfile) (payload : App.OptimiseRequest)
    (problem : Lp.Problem) (continue : Lp.Solution → OptimizationResult) :
  App.api_optimise rewards bonuses BASE_WEEKLY_LIMIT MODELLED_PROFILES payload
  = Solve problem continue →
  let levels := App.ability_levels rewards (App.req_ability_levels payload) in
  let ordered := ordered_for problem (App.unlocked_profiles levels MODELLED_PROFILES) in
  let weekly_limit :=
    BASE_WEEKLY_LIMIT
    + Progression.weekly_bonus_for_total_level bonuses (App.total_level levels) in
  0 < weekly_limit
  ∧ ∀ c, c ∈ Lp.constraints problem
         ↔ c = weekly_constraint (api_bonus_ids (App.req_bonus_item_ids payload))
                 (of_Z weekly_limit) ordered
           ∨ c = capacity_constraint CRAFT_FACILITY
                   (of_Z (crafting_slots payload * WEEK_MINUTES)) ordered
           ∨ (0 < plant_plots rewards payload
              ∧ c = capacity_constraint PLANT_FACILITY
                      (of_Z (plant_plots rewards payload * WEEK_MINUTES)) ordered)
           ∨ (0 < fish_ponds rewards payload
              ∧ c = capacity_constraint FISH_FACILITY
                      (of_Z (fish_ponds rewards payload * WEEK_MINUTES)) ordered).
Proof.
  intros Hcall levels ordered weekly_limit. unfold App.api_optimise in Hcall.
  destruct (optimise_portfolio_problem _ _ _ _ _ _ Hcall) as (_ & Hcons & _ & Hlimit).
  cbn zeta in Hcons. cbn [default from_option id] in Hcons.
  rewrite list_to_set_elements_L in Hcons.
  fold levels in Hcons, Hlimit. fold ordered in Hcons. fold weekly_limit in Hcons, Hlimit.
  split; [by apply of_Z_not_positive|].
  intros c. rewrite Hcons, elem_of_app, list_elem_of_singleton, capacity_constraints_elem.
  fold (plant_plots rewards payload). fold (fish_ponds rewards payload).
  fold (crafting_slots payload).
  assert (Hweek : 0 < WEEK_MINUTES) by (vm_compute; done).
  assert (Hslots : 0 < crafting_slots payload) by (unfold crafting_slots; lia).
  split.
  - intros [(facility & capacity & Hcap & Hpos & ->) | ->]; [|by left].
    apply capacities_of_lookup in Hcap as [[-> ->]|[[-> ->]|[-> ->]]].
    + right. right. left. split; [|done]. apply of_Z_not_positive in Hpos.
      by apply (Z.mul_pos_cancel_r _ _ Hweek).
    + right. right. right. split; [|done]. apply of_Z_not_positive in Hpos.
      by apply (Z.mul_pos_cancel_r _ _ Hweek).
    + right. by left.
  - intros [->|[->|[[Hpos ->]|[Hpos ->]]]]; [by right|left..].
    + exists CRAFT_FACILITY, (of_Z (crafting_slots payload * WEEK_MINUTES)).
      split; [apply capacities_of_lookup; auto|]. split; [|done].
      apply of_Z_not_positive. by apply Z.mul_pos_pos.
    + exists PLANT_FACILITY, (of_Z (plant_plots rewards payload * WEEK_MINUTES)).
      split; [apply capacities_of_lookup; auto|]. split; [|done].
      apply of_Z_not_positive. by apply Z.mul_pos_pos.
    + exists FISH_FACILITY, (of_Z (fish_ponds rewards payload * WEEK_MINUTES)).
      split; [apply capacities_of_lookup; auto|]. split; [|done].
      apply of_Z_not_positive. by apply Z.mul_pos_pos.
Qed.

Lemma api_constraints_witness :
  ∃ problem continue,
    App.api_optimise (Rewards.init []) (Progression.ProgressionRepository_init [])
      100 [sample_profile 1 60] (App.mkOptimiseRequest {[ 22 := 1 ]} [] 0)
    = Solve problem continue
    ∧ ∀ c, c ∈ Lp.constraints problem → Lp.bound c = of_Z 100 ∨ Lp.bound c = of_Z 10080.
Proof.
  destruct (App.api_optimise (Rewards.init []) (Progression.ProgressionRepository_init [])
              100 [sample_profile 1 60] (App.mkOptimiseRequest {[ 22 := 1 ]} [] 0))
    as [result|problem continue] eqn:Hcall.
  { vm_compute in Hcall. discriminate Hcall. }
  exists problem, continue. split; [reflexivity|]. intros c Hc.
  destruct (api_constraints _ _ _ _ _ _ _ Hcall) as [_ Hcons].
  apply Hcons in Hc as [-> | [-> | [[Hpos ?] | [Hpos ?]]]].
  - left. float_eq.
  - right. float_eq.
  - by vm_compute in Hpos.
  - by vm_compute in Hpos.
Defined.

End ReportFacts.

(** ** From the loaded tables to the profiles a request can unlock *)

Module StartupFacts.

Import Calculator Resolve Built Shape App Samples ResolveFacts ShapeFacts.

Lemma supported_profiles_loop_headers (self : Calculator.t) (item_ids : list Z) :
  ∀ cache acc, reachable self cache →
    Forall (λ p, ∃ sale, sale ∈ map_to_list (sale_items self) ∧ header_of sale.2 p) acc →
    ∃ profiles cache',
      supported_profiles_loop self item_ids cache acc = Some (profiles, cache')
      ∧ Forall (λ p, ∃ sale, sale ∈ map_to_list (sale_items self) ∧ header_of sale.2 p)
               profiles.
Proof.
  induction item_ids as [|item_id rest IH]; intros cache acc Hreach Hacc; simpl.
  - by exists acc, cache.
  - destruct (compute_profile_total self cache item_id) as (r & cache1 & Hcall).
    rewrite Hcall.
    assert (reachable self cache1) as Hreach1 by (by econstructor).
    destruct (compute_profile_shape self _ _ _ _ (reachable_cache_shaped self _ Hreach) Hcall)
      as [_ Hshape].
    destruct r as [p|]; [|by apply IH].
    apply IH; [done|]. apply Forall_app. split; [done|]. constructor; [|constructor].
    destruct (Hshape p eq_refl) as (sale & Hsale & Hhead & _).
    exists (item_id, sale). split; [by apply elem_of_map_to_list | done].
Qed.

Lemma _load_sale_items_category (loc : Localization) (raw : list Raw.SaleInfo)
    (item_id : Z) (sale : SaleItem) :
  _load_sale_items loc raw !! item_id = Some sale →
  SaleItem.category sale = default "other" (ABILITY_CATEGORY (SaleItem.ability_id sale)).
Proof.
  intros Hsale.
  apply GrowthFacts.fold_insert_lookup in Hsale as [Hempty|(entry & _ & <- & <-)]; [|done].
  by rewrite lookup_empty in Hempty.
Qed.

Lemma modelled_category_ability (ability_id : Z) :
  default "other" (ABILITY_CATEGORY ability_id) ∈ MODELLED_CATEGORIES →
  ability_id ∈ [22; 34; 47].
Proof.
  unfold ABILITY_CATEGORY, MODELLED_CATEGORIES.
  destruct (Z.eqb_spec ability_id 22) as [->|_]; [set_solver|].
  destruct (Z.eqb_spec ability_id 34) as [->|_]; [set_solver|].
  destruct (Z.eqb_spec ability_id 45) as [->|_]; [simpl; set_solver|].
  destruct (Z.eqb_spec ability_id 47) as [->|_]; [set_solver|].
  destruct (Z.eqb_spec ability_id 48) as [->|_]; simpl; set_solver.
Qed.

Lemma unlocked_profiles_ext (levels levels' : gmap Z Z) (profiles : list ProductionProfile) :
  (∀ p, p ∈ profiles →
        levels !! ProductionProfile.ability_id p = levels' !! ProductionProfile.ability_id p) →
  unlocked_profiles levels profiles = unlocked_profiles levels' profiles.
Proof.
  unfold unlocked_profiles. induction profiles as [|p rest IH]; intros Hsame; [done|].
  rewrite !filter_cons, (Hsame p) by apply list_elem_of_here.
  rewrite IH; [done|]. intros q Hq. apply Hsame. by apply list_elem_of_further.
Qed.

(** X24. Which abilities decide what a request unlocks.  Over a loaded
    calculator [supported_profiles] always returns; each modelled profile
    (category plant, fish or furniture) belongs to ability 34, 47 or 22 and
    to no other, its category being the one of its ability; so two
    requests whose levels agree on 22, 34 and 47 unlock the same profiles:
    the levels of the other abilities (45 and 48) count towards the total
    level only. *)
Theorem modelled_profiles_need_three_abilities (loader : Raw.Datasets) (loc : Localization)
    (item_ids : list Z) (cache : gmap Z ProductionProfile) :
  reachable (Calculator.init loader loc) cache →
  ∃ profiles cache',
    supported_profiles_loop (Calculator.init loader loc) item_ids cache []
    = Some (profiles, cache')
    ∧ (∀ p, p ∈ modelled_profiles profiles →
         ProductionProfile.ability_id p ∈ [22; 34; 47]
         ∧ ProductionProfile.category p
           = default "other" (ABILITY_CATEGORY (ProductionProfile.ability_id p)))
    ∧ ∀ levels levels' : gmap Z Z,
        (∀ ability, ability ∈ [22; 34; 47] → levels !! ability = levels' !! ability) →
        unlocked_profiles levels (modelled_profiles profiles)
        = unlocked_profiles levels' (modelled_profiles profiles).
Proof.
  intros Hreach.
  destruct (supported_profiles_loop_headers (Calculator.init loader loc) item_ids cache []
              Hreach (Forall_nil_2 _)) as (profiles & cache' & Hloop & Hall).
  exists profiles, cache'. split; [done|].
  assert (Hmodelled : ∀ p, p ∈ modelled_profiles profiles →
    ProductionProfile.ability_id p ∈ [22; 34; 47]
    ∧ ProductionProfile.category p
      = default "other" (ABILITY_CATEGORY (ProductionProfile.ability_id p))).
  { intros p Hp. apply list_elem_of_filter in Hp as [Hcat Hp].
    rewrite list.Forall_forall in Hall.
    destruct (Hall p Hp) as ([item_id sale] & Hsale & Hhead).
    apply elem_of_map_to_list in Hsale. cbn [sale_items Calculator.init] in Hsale.
    apply _load_sale_items_category in Hsale.
    destruct Hhead as (_ & _ & _ & Hability & _ & Hcategory). cbn [snd] in *.
    rewrite Hcategory, Hability, Hsale in *.
    split; [by apply modelled_category_ability | done]. }
  split; [exact Hmodelled|].
  intros levels levels' Hsame. apply unlocked_profiles_ext.
  intros p Hp. apply Hsame. by apply Hmodelled.
Qed.

Lemma modelled_profiles_need_three_abilities_witness :
  ∃ profiles cache',
    supported_profiles_loop sample_calculator [301; 101; 201] ∅ [] = Some (profiles, cache')
    ∧ unlocked_profiles {[ 22 := 3; 34 := 1; 47 := 1 ]} (modelled_profiles profiles)
      = unlocked_profiles {[ 22 := 3; 34 := 1; 47 := 1; 45 := 9 ]} (modelled_profiles profiles).
Proof.
  destruct (modelled_profiles_need_three_abilities sample_datasets sample_localization
              [301; 101; 201] ∅ (reachable_init _)) as (profiles & cache' & Hloop & _ & Hsame).
  exists profiles, cache'. split; [exact Hloop|].
  apply Hsame. intros ability Hin.
  repeat (apply elem_of_cons in Hin as [->|Hin]; [reflexivity|]).
  by apply elem_of_nil in Hin.
Defined.

End StartupFacts.

(** ** The flattened localisation and the loader's cache *)

Module BlobFacts.

Import Flatten Loader.

(** Induction over a blob, with the items of an object and of a list. *)
Lemma Json_induction (P : Json.t → Prop) :
  (∀ s, P (Json.Str s)) →
  (∀ fields, Forall (λ kv, P kv.2) fields → P (Json.Obj fields)) →
  (∀ items, Forall P items → P (Json.Arr items)) →
  P Json.Other →
  ∀ data, P data.
Proof.
  intros Hstr Hobj Harr Hother.
  fix IH 1. intros [s|fields|items|].
  - apply Hstr.
  - apply Hobj. induction fields as [|[k v] rest IHf]; constructor; [apply IH | exact IHf].
  - apply Harr. induction items as [|v rest IHi]; constructor; [apply IH | exact IHi].
  - apply Hother.
Qed.

(** What one call does to an entry of [_flat]: entries are never removed,
    a new value is a string field of the blob, and every string field of
    the blob leaves an entry under its key. *)
Lemma _flatten_spec (data : Json.t) :
  ∀ flat : gmap string string,
    (∀ key, is_Some (flat !! key) → is_Some (_flatten data flat !! key))
    ∧ (∀ key s, _flatten data flat !! key = Some s →
                flat !! key = Some s ∨ string_field key s data)
    ∧ (∀ key s, string_field key s data → is_Some (_flatten data flat !! key)).
Proof.
  induction data as [s|fields IH|items IH|] using Json_induction; intros flat.
  - split; [done|]. split; [by left|]. inversion 1.
  - revert flat. induction IH as [|[k v] rest Hv _ IHrest]; intros flat.
    + split; [done|]. split; [by left|].
      inversion 1 as [? Hin|? ? ? Hin|]; by apply elem_of_nil in Hin.
    + cbn [snd] in Hv.
      set (step := match v with
                   | Json.Obj _ | Json.Arr _ => _flatten v flat
                   | Json.Str s => <[k := s]> flat
                   | Json.Other => flat
                   end).
      assert (Hstep : (∀ key, is_Some (flat !! key) → is_Some (step !! key))
                      ∧ (∀ key s, step !! key = Some s →
                           flat !! key = Some s ∨ string_field key s (Json.Obj [(k, v)]))
                      ∧ (∀ key s, string_field key s (Json.Obj [(k, v)]) →
                           is_Some (step !! key))).
      { destruct (Hv flat) as (Hkeep & Hnew & Hall).
        assert (Hone : ∀ key s, string_field key s v →
                                string_field key s (Json.Obj [(k, v)])).
        { intros key s Hf. eapply field_in_object; [apply list_elem_of_here | done]. }
        assert (Hinv : ∀ key s, string_field key s (Json.Obj [(k, v)]) →
                                (key = k ∧ v = Json.Str s) ∨ string_field key s v).
        { intros key s. inversion 1 as [? Hin|? ? ? Hin Hf|]; subst.
          - apply list_elem_of_singleton in Hin as [= -> <-]. by left.
          - apply list_elem_of_singleton in Hin as [= <- <-]. by right. }
        subst step. destruct v as [s0|fs|els|].
        - split; [|split].
          + intros key Hkey. rewrite lookup_insert. by case_decide.
          + intros key s. rewrite lookup_insert. case_decide as Hk.
            * intros [= <-]. subst. right. apply field_here, list_elem_of_here.
            * by left.
          + intros key s [[-> [= <-]]|Hf]%Hinv; [|inversion Hf].
            by rewrite lookup_insert_eq.
        - split; [done|]. split.
          + intros key s [?|?]%Hnew; [by left | right; by apply Hone].
          + intros key s [[_ ?]|Hf]%Hinv; [done|]. by eapply Hall.
        - split; [done|]. split.
          + intros key s [?|?]%Hnew; [by left | right; by apply Hone].
          + intros key s [[_ ?]|Hf]%Hinv; [done|]. by eapply Hall.
        - split; [done|]. split; [by left|].
          intros key s [[_ ?]|Hf]%Hinv; [done|]. inversion Hf. }
      destruct Hstep as (Hkeep & Hnew & Hall).
      destruct (IHrest step) as (Hkeep' & Hnew' & Hall').
      change (_flatten (Json.Obj ((k, v) :: rest)) flat)
        with (_flatten (Json.Obj rest) step).
      split; [|split].
      * intros key Hkey. by apply Hkeep', Hkeep.
      * intros key s [Hs|Hf]%Hnew'.
        -- apply Hnew in Hs as [?|Hf]; [by left|]. right.
           inversion Hf as [? Hin|? ? ? Hin Hf'|]; subst.
           ++ apply list_elem_of_singleton in Hin as [= -> <-].
              apply field_here, list_elem_of_here.
           ++ apply list_elem_of_singleton in Hin as [= <- <-].
              eapply field_in_object; [apply list_elem_of_here | done].
        -- right. inversion Hf as [? Hin|? ? ? Hin Hf'|]; subst.
           ++ by apply field_here, list_elem_of_further.
           ++ eapply field_in_object; [by apply list_elem_of_further | done].
      * intros key s Hf. inversion Hf as [? Hin|? ? ? Hin Hf'|]; subst.
        -- apply elem_of_cons in Hin as [[= <- <-]|Hin].
           ++ apply Hkeep', (Hall key s), field_here, list_elem_of_here.
           ++ apply (Hall' key s). by apply field_here.
        -- apply elem_of_cons in Hin as [[= <- <-]|Hin].
           ++ apply Hkeep', (Hall key s). eapply field_in_object; [apply list_elem_of_here|done].
           ++ apply (Hall' key s). by eapply field_in_object.
  - revert flat. induction IH as [|v rest Hv _ IHrest]; intros flat.
    + split; [done|]. split; [by left|].
      inversion 1 as [| |? ? Hin]; by apply elem_of_nil in Hin.
    + destruct (Hv flat) as (Hkeep & Hnew & Hall).
      destruct (IHrest (_flatten v flat)) as (Hkeep' & Hnew' & Hall').
      change (_flatten (Json.Arr (v :: rest)) flat)
        with (_flatten (Json.Arr rest) (_flatten v flat)).
      split; [|split].
      * intros key Hkey. by apply Hkeep', Hkeep.
      * intros key s [Hs|Hf]%Hnew'.
        -- apply Hnew in Hs as [?|Hf]; [by left|]. right.
           eapply field_in_array; [apply list_elem_of_here | done].
        -- right. inversion Hf as [| |? ? Hin Hf']; subst.
           eapply field_in_array; [by apply list_elem_of_further | done].
      * intros key s Hf. inversion Hf as [| |? ? Hin Hf']; subst.
        apply elem_of_cons in Hin as [<-|Hin].
        -- by apply Hkeep', (Hall key s).
        -- apply (Hall' key s). by eapply field_in_array.
  - split; [done|]. split; [by left|]. inversion 1.
Qed.

(** X25. [Localization] keeps exactly the string-valued items of the
    objects of the blob, at every depth, under their bare keys: a looked-up
    value is the value of such an item, and a key is present if and only
    if the blob has such an item.  The path to an item is lost, and a
    string that is an element of a list, not the value of a key, is
    dropped. *)
Theorem flatten_collects_string_fields (data : Json.t) (key : string) :
  (∀ s, Localization.get (init data) key = Some s → string_field key s data)
  ∧ (is_Some (Localization.get (init data) key) ↔ ∃ s, string_field key s data)
  ∧ (∀ outer s, Localization._flat (init (Json.Obj [(outer, Json.Obj [(key, Json.Str s)])]))
                = {[ key := s ]})
  ∧ (∀ s, Localization._flat (init (Json.Arr [Json.Str s])) = ∅).
Proof.
  unfold Localization.get, init. cbn [Localization._flat].
  destruct (_flatten_spec data ∅) as (_ & Hnew & Hall).
  split; [|split; [|split]].
  - intros s [Hempty|Hf]%Hnew; [|done]. by rewrite lookup_empty in Hempty.
  - split.
    + intros [s Hs]. exists s. apply Hnew in Hs as [Hempty|Hf]; [|done].
      by rewrite lookup_empty in Hempty.
    + intros [s Hf]. by eapply Hall.
  - intros outer s. cbn. apply insert_empty.
  - done.
Qed.

(** *** The loader's cache *)

Lemma fetch_json_keeps (net : Network) (self self' : State) (name : string)
    (outcome : Outcome) :
  fetch_json net self name = (outcome, self') →
  urls self' = urls self ∧ _cache self ⊆ _cache self'.
Proof.
  unfold fetch_json. destruct (urls self !! name) as [url|]; [|by intros [= _ <-]].
  destruct (_cache self !! name) as [value|] eqn:Hcache; [by intros [= _ <-]|].
  destruct (net _ url) as [value|]; intros [= _ <-]; cbn; [|done].
  split; [done|]. by apply insert_subseteq.
Qed.

Lemma later_keeps (net : Network) (self self' : State) :
  later net self self' → urls self' = urls self ∧ _cache self ⊆ _cache self'.
Proof.
  induction 1 as [|mid name outcome self' _ [IHurls IHcache] Hcall]; [done|].
  apply fetch_json_keeps in Hcall as [Hurls Hcache].
  split; [congruence | by etrans].
Qed.

Lemma fetch_json_cached (net : Network) (self : State) (name url : string)
    (value : Json.t) :
  urls self !! name = Some url → _cache self !! name = Some value →
  fetch_json net self name = (Ok value, self).
Proof. intros Hurl Hcache. unfold fetch_json. by rewrite Hurl, Hcache. Qed.

Lemma fetch_json_ok (net : Network) (self self' : State) (name : string)
    (value : Json.t) :
  fetch_json net self name = (Ok value, self') →
  is_Some (urls self' !! name) ∧ _cache self' !! name = Some value.
Proof.
  unfold fetch_json. destruct (urls self !! name) as [url|] eqn:Hurl; [|done].
  destruct (_cache self !! name) as [cached|] eqn:Hcache.
  - intros [= <- <-]. by rewrite Hurl.
  - destruct (net _ url) as [answer|]; [|done]. intros [= <- <-]. cbn.
    by rewrite Hurl, lookup_insert_eq.
Qed.

(** X26. A dataset that was fetched once is never requested again: after
    a successful [fetch_json], and whatever calls follow, a call for the
    same name returns the same blob and leaves the loader as it is, no
    request made, whatever the network would answer by then. *)
Theorem fetch_json_memoised (net net' : Network) (self self' self'' : State)
    (name : string) (value : Json.t) :
  fetch_json net self name = (Ok value, self') →
  later net self' self'' →
  fetch_json net' self'' name = (Ok value, self'').
Proof.
  intros [[url Hurl] Hcache]%fetch_json_ok [Hurls Hgrow]%later_keeps.
  apply (fetch_json_cached _ _ _ url).
  - by rewrite Hurls.
  - by eapply lookup_weaken.
Qed.

Lemma fetch_json_memoised_witness :
  fetch_json answers_once (fetch_json answers_once (fresh sample_table) "en").2 "en"
  = (Ok (Json.Str "first"), (fetch_json answers_once (fresh sample_table) "en").2).
Proof.
  apply (fetch_json_memoised answers_once answers_once (fresh sample_table)
           (fetch_json answers_once (fresh sample_table) "en").2
           (fetch_json answers_once (fresh sample_table) "en").2
           "en" (Json.Str "first")); [reflexivity | apply later_now].
Defined.

(** X27. Over any run of calls on a fresh loader: the URL table is never
    changed; each cached dataset is one of its names, and its URL has been
    requested; there are never more cached datasets than requests made;
    and a name outside the table ends in [KeyError] with nothing requested
    and nothing cached. *)
Theorem cached_datasets_were_requested (net : Network) (table : gmap string string)
    (self : State) :
  later net (fresh table) self →
  urls self = table
  ∧ (∀ name value, _cache self !! name = Some value →
       ∃ url, table !! name = Some url ∧ url ∈ requested self)
  ∧ (size (_cache self) ≤ length (requested self))%nat
  ∧ (∀ name, table !! name = None → fetch_json net self name = (KeyError name, self)).
Proof.
  intros Hlater.
  enough (urls self = table
          ∧ (∀ name value, _cache self !! name = Some value →
               ∃ url, table !! name = Some url ∧ url ∈ requested self)
          ∧ (size (_cache self) ≤ length (requested self))%nat) as (Hurls & Hcache & Hsize).
  { split; [done|]. split; [done|]. split; [done|].
    intros name Hname. unfold fetch_json. by rewrite Hurls, Hname. }
  induction Hlater as [|mid name outcome self' _ (IHurls & IHcache & IHsize) Hcall].
  - split; [done|]. split; [|done]. intros name value Hc. cbn in Hc.
    by rewrite lookup_empty in Hc.
  - revert Hcall. unfold fetch_json. rewrite IHurls.
    destruct (table !! name) as [url|] eqn:Hurl; [|by intros [= _ <-]].
    destruct (_cache mid !! name) as [cached|] eqn:Hcached; [by intros [= _ <-]|].
    destruct (net _ url) as [answer|]; intros [= _ <-]; cbn.
    + split; [done|]. split.
      * intros name' value. rewrite lookup_insert. case_decide as Hname.
        -- intros _. subst name'. exists url. split; [done|].
           apply elem_of_app. right. apply list_elem_of_here.
        -- intros (url' & ? & ?)%IHcache. exists url'. split; [done|].
           apply elem_of_app. by left.
      * rewrite map_size_insert_None by done. rewrite length_app. simpl. lia.
    + split; [done|]. split.
      * intros name' value (url' & ? & ?)%IHcache. exists url'. split; [done|].
        apply elem_of_app. by left.
      * rewrite length_app. simpl. lia.
Qed.

Lemma cached_datasets_were_requested_witness :
  (size (_cache (fetch_json answers_once (fresh sample_table) "en").2)
   ≤ length (requested (fetch_json answers_once (fresh sample_table) "en").2))%nat
  ∧ fetch_json answers_once (fetch_json answers_once (fresh sample_table) "en").2 "fr"
    = (KeyError "fr", (fetch_json answers_once (fresh sample_table) "en").2).
Proof.
  destruct (cached_datasets_were_requested answers_once sample_table
              (fetch_json answers_once (fresh sample_table) "en").2)
    as (_ & _ & Hsize & Hunknown).
  - apply (later_call _ _ (fresh sample_table) "en" (Ok (Json.Str "first")));
      [apply later_now | reflexivity].
  - split; [exact Hsize | by apply Hunknown].
Defined.

End BlobFacts.
